(** * UserBehaviorTracker (src/userBehaviour.js): a shallow embedding

    The tracker is a JavaScript module with one mutable [state] object, a
    result buffer made of nested objects and arrays, window listeners,
    interval timers and user supplied callbacks.  The embedding keeps
    these as the code has them:

    - JavaScript objects and arrays that the code shares by reference
      (the result buffer, its nested sequences, the objects handed to the
      consumer) live in a heap [gmap loc cell]; a reference is a [loc];
    - the [state] constant is the record [state]; the browser side
      (clock, window listeners, timers, history entry points, media
      elements) is the record [host];
    - code that can raise (a property read on [null], a user callback
      that throws) runs in a state-and-exception monad [M];
    - the tuples pushed onto the sequences ([x, y, ts] ...) are never
      written again by the tracker and are kept as values of type
      [record]. *)

From stdpp Require Import gmap strings list.
From Stdlib Require Import ZArith Lia.

Set Default Proof Using "Type".

(** ** JavaScript values and records *)

Inductive jsval :=
  | JUndef
  | JNull
  | JNum (n : Z)
  | JStr (s : string).

Global Instance jsval_eq_dec : EqDecision jsval.
Proof. solve_decision. Defined.

(** [a !== b] on the values above (numbers are integers here, so there is
    no NaN). *)
Definition strict_neq (a b : jsval) : bool := bool_decide (a ≠ b).

(** A tuple such as [[x, y, ts]]; [rec[i]] is [index r i]. *)
Definition record := list jsval.

Definition index (r : record) (i : nat) : jsval := nth i r JUndef.

(** [o?.[i]] for an optional tuple. *)
Definition opt_index (o : option record) (i : nat) : jsval :=
  match o with
  | Some r => index r i
  | None => JUndef
  end.

(** References into the heap. *)
Abbreviation loc := nat.

(** ** The result buffer *)

Record time := mkTime {
  startTime : Z;
  currentTime : Z;
  stopTime : Z
}.

Record userInfoRec := mkUserInfo {
  windowSize : Z * Z;
  appCodeName : string;
  appName : string;
  vendor : string;
  platform : string;
  userAgent : string
}.

(** The object built by [resetResults]: every field that holds an object
    or an array holds a reference. *)
Module Results.
Record t := mk {
  userInfo : option loc;
  time : loc;
  clicks : loc;
  mouseMovements : loc;
  mouseScroll : loc;
  keyboardActivities : loc;
  navigationHistory : loc;
  formInteractions : loc;
  touchEvents : loc;
  mediaInteractions : loc;
  windowSizes : loc;
  visibilityChanges : loc;
  customEvents : loc
}.

Definition with_userInfo (u : option loc) (r : t) : t :=
  mk u (time r) (clicks r) (mouseMovements r) (mouseScroll r)
     (keyboardActivities r) (navigationHistory r) (formInteractions r)
     (touchEvents r) (mediaInteractions r) (windowSizes r)
     (visibilityChanges r) (customEvents r).
End Results.

Record clicksRec := mkClicks {
  clickCount : Z;
  clickDetails : loc
}.

Inductive cell :=
  | CResults (r : Results.t)
  | CTime (t : time)
  | CClicks (c : clicksRec)
  | CUserInfo (u : userInfoRec)
  | CArray (a : list record).

Abbreviation heap := (gmap loc cell).

(** ** User callbacks

    A callback is a JavaScript function value: it has an identity and a
    behaviour.  The behaviour sees its argument and the heap, may write
    the heap, and returns or throws.  Calls of the tracker's own
    operations from inside a callback are outside this model. *)

Inductive cb_result :=
  | CbReturn (h : heap)
  | CbThrow (h : heap).

Record element := mkElement {
  localName : string;   (* [""] also stands for [undefined] *)
  className : string;   (* [""] also stands for [undefined] *)
  classList : list string;
  id : string           (* [""] also stands for [undefined] *)
}.

Record event := mkEvent {
  e_type : string;
  clientX : Z;
  clientY : Z;
  composedPath : list element;
  key : string;
  target_name : string;
  touches : list (Z * Z);
  detail : jsval
}.

Record consumer := mkConsumer {
  consumer_id : nat;
  consumer_run : loc → heap → cb_result
}.

Record userHandler := mkUserHandler {
  uh_id : nat;
  uh_run : event → heap → cb_result
}.

(** ** Configuration *)

Module Config.
Record t := mk {
  userInfo : bool;
  clicks : bool;
  mouseMovement : bool;
  mouseMovementInterval : Z;
  mouseScroll : bool;
  timeCount : bool;
  clearAfterProcess : bool;
  processTime : Z;
  windowResize : bool;
  visibilitychange : bool;
  keyboardActivity : bool;
  pageNavigation : bool;
  formInteractions : bool;
  touchEvents : bool;
  audioVideoInteraction : bool;
  customEventRegistration : bool;
  processData : consumer
}.
End Config.

(** [console.log]: prints, returns, writes nothing. *)
Definition console_log : consumer := mkConsumer 0 (λ _ h, CbReturn h).

Definition DEFAULT_CONFIG : Config.t :=
  Config.mk true true true 1 true true true 15 true true true true true true
            true true console_log.

(** The argument of [config]: the keys present in [newConfig]. *)
Module Partial.
Record t := mk {
  userInfo : option bool;
  clicks : option bool;
  mouseMovement : option bool;
  mouseMovementInterval : option Z;
  mouseScroll : option bool;
  timeCount : option bool;
  clearAfterProcess : option bool;
  processTime : option Z;
  windowResize : option bool;
  visibilitychange : option bool;
  keyboardActivity : option bool;
  pageNavigation : option bool;
  formInteractions : option bool;
  touchEvents : option bool;
  audioVideoInteraction : option bool;
  customEventRegistration : option bool;
  processData : option consumer
}.
End Partial.

(** [{ ...DEFAULT_CONFIG, ...newConfig }] *)
Definition spread_config (d : Config.t) (p : Partial.t) : Config.t :=
  Config.mk
    (default (Config.userInfo d) (Partial.userInfo p))
    (default (Config.clicks d) (Partial.clicks p))
    (default (Config.mouseMovement d) (Partial.mouseMovement p))
    (default (Config.mouseMovementInterval d) (Partial.mouseMovementInterval p))
    (default (Config.mouseScroll d) (Partial.mouseScroll p))
    (default (Config.timeCount d) (Partial.timeCount p))
    (default (Config.clearAfterProcess d) (Partial.clearAfterProcess p))
    (default (Config.processTime d) (Partial.processTime p))
    (default (Config.windowResize d) (Partial.windowResize p))
    (default (Config.visibilitychange d) (Partial.visibilitychange p))
    (default (Config.keyboardActivity d) (Partial.keyboardActivity p))
    (default (Config.pageNavigation d) (Partial.pageNavigation p))
    (default (Config.formInteractions d) (Partial.formInteractions p))
    (default (Config.touchEvents d) (Partial.touchEvents p))
    (default (Config.audioVideoInteraction d) (Partial.audioVideoInteraction p))
    (default (Config.customEventRegistration d)
             (Partial.customEventRegistration p))
    (default (Config.processData d) (Partial.processData p)).

(** ** Deep reading of a result object

    [read_view h l] follows every reference of the object at [l]: it is
    what an observer of that object sees. *)

Record view := mkView {
  v_userInfo : option userInfoRec;
  v_time : time;
  v_clickCount : Z;
  v_clickDetails : list record;
  v_mouseMovements : list record;
  v_mouseScroll : list record;
  v_keyboardActivities : list record;
  v_navigationHistory : list record;
  v_formInteractions : list record;
  v_touchEvents : list record;
  v_mediaInteractions : list record;
  v_windowSizes : list record;
  v_visibilityChanges : list record;
  v_customEvents : list record
}.

Definition read_results (h : heap) (l : loc) : option Results.t :=
  match h !! l with Some (CResults r) => Some r | _ => None end.

Definition read_time (h : heap) (l : loc) : option time :=
  match h !! l with Some (CTime t) => Some t | _ => None end.

Definition read_clicks (h : heap) (l : loc) : option clicksRec :=
  match h !! l with Some (CClicks c) => Some c | _ => None end.

Definition read_array (h : heap) (l : loc) : option (list record) :=
  match h !! l with Some (CArray a) => Some a | _ => None end.

Definition read_userInfo (h : heap) (o : option loc)
  : option (option userInfoRec) :=
  match o with
  | None => Some None
  | Some l => match h !! l with Some (CUserInfo u) => Some (Some u) | _ => None end
  end.

Definition read_fields (h : heap) (r : Results.t) : option view :=
  ui ← read_userInfo h (Results.userInfo r);
  t ← read_time h (Results.time r);
  c ← read_clicks h (Results.clicks r);
  cd ← read_array h (clickDetails c);
  mm ← read_array h (Results.mouseMovements r);
  ms ← read_array h (Results.mouseScroll r);
  ka ← read_array h (Results.keyboardActivities r);
  nh ← read_array h (Results.navigationHistory r);
  fi ← read_array h (Results.formInteractions r);
  te ← read_array h (Results.touchEvents r);
  mi ← read_array h (Results.mediaInteractions r);
  ws ← read_array h (Results.windowSizes r);
  vc ← read_array h (Results.visibilityChanges r);
  ce ← read_array h (Results.customEvents r);
  Some (mkView ui t (clickCount c) cd mm ms ka nh fi te mi ws vc ce).

Definition read_view (h : heap) (l : loc) : option view :=
  r ← read_results h l; read_fields h r.

(** ** Handlers, listeners, timers *)

Inductive handler_code :=
  | HMouseMove
  | HClick
  | HScroll
  | HResize
  | HVisibility
  | HKeydown
  | HNav
  | HSubmit
  | HTouchStart
  | HMedia (el : nat)
  | HCustom (eventName : string) (h : userHandler).

(** A function value: identity and code.  Two handlers are the same
    listener when their identities agree. *)
Record handler := mkHandler {
  h_id : nat;
  h_code : handler_code
}.

(** An entry of [window]'s listener list. *)
Record wlistener := mkWL {
  l_type : string;
  l_handler : handler;
  l_capture : bool
}.

(** A value of the [state.listeners] map: [{ type, handler, options }]. *)
Record listenerRec := mkLR {
  lr_type : string;
  lr_handler : handler;
  lr_options : option bool
}.

(** An element of [state.mediaElements]: [{ element, event, handler }]. *)
Record mediaRec := mkMR {
  mr_element : nat;
  mr_event : string;
  mr_handler : handler
}.

Inductive task := SampleMouse | Flush.

Record timer := mkTimer {
  t_id : nat;
  t_task : task;
  t_delay : Z
}.

(** [history.pushState] and [history.replaceState] are function values:
    a native entry point, or a proxy around a target that dispatches
    events after calling it. *)
Inductive hist_fn :=
  | HistNative (name : string)
  | HistProxy (target : hist_fn) (ev : string).

Global Instance hist_fn_eq_dec : EqDecision hist_fn.
Proof. solve_decision. Defined.

Record mediaEl := mkMediaEl {
  currentSrc : string;
  el_currentTime : Z;
  el_listeners : list (string * handler)
}.

(** What the handlers read from [window], [document], [location] and
    [navigator]. *)
Record page := mkPage {
  innerWidth : Z;
  innerHeight : Z;
  scrollX : Z;
  scrollY : Z;
  visibilityState : string;
  href : string;
  nav_appCodeName : string;
  nav_appName : string;
  nav_vendor : string;
  nav_platform : string;
  nav_userAgent : string
}.

Record host := mkHost {
  now : Z;                              (* Date.now() *)
  window_listeners : list wlistener;
  timers : list timer;                  (* armed intervals *)
  next_timer : nat;
  next_fn : nat;                        (* identity of the next closure *)
  history_pushState : hist_fn;
  history_replaceState : hist_fn;
  media : list mediaEl;                 (* the page's video and audio elements *)
  pg : page
}.

(** ** The module's [state] constant *)

Record state := mkState {
  config : Config.t;
  active : bool;
  listeners : list (nat * listenerRec); (* Map keyed by the handler *)
  intervals : list nat;                 (* Set of timer ids *)
  mediaElements : list mediaRec;        (* Set of fresh objects *)
  results : option loc;
  mousePosition : option record;
  originalHistoryMethods : hist_fn * hist_fn
}.

(** One call of [state.config.processData]: who was called, with which
    object, and what that object showed at the call. *)
Record delivery := mkDelivery {
  d_consumer : nat;
  d_snapshot : loc;
  d_view : option view
}.

Record world := mkWorld {
  st : state;
  hp : heap;
  next_loc : loc;
  hst : host;
  delivered : list delivery;   (* ghost: calls of the consumer, oldest first *)
  uncaught : nat               (* ghost: errors that reached the host *)
}.

(** Field updates. *)
Definition set_st (f : state → state) (w : world) : world :=
  mkWorld (f (st w)) (hp w) (next_loc w) (hst w) (delivered w) (uncaught w).
Definition set_hp (f : heap → heap) (w : world) : world :=
  mkWorld (st w) (f (hp w)) (next_loc w) (hst w) (delivered w) (uncaught w).
Definition set_hst (f : host → host) (w : world) : world :=
  mkWorld (st w) (hp w) (next_loc w) (f (hst w)) (delivered w) (uncaught w).

Definition st_config (c : Config.t) (s : state) : state :=
  mkState c (active s) (listeners s) (intervals s) (mediaElements s)
          (results s) (mousePosition s) (originalHistoryMethods s).
Definition st_active (b : bool) (s : state) : state :=
  mkState (config s) b (listeners s) (intervals s) (mediaElements s)
          (results s) (mousePosition s) (originalHistoryMethods s).
Definition st_listeners (l : list (nat * listenerRec)) (s : state) : state :=
  mkState (config s) (active s) l (intervals s) (mediaElements s)
          (results s) (mousePosition s) (originalHistoryMethods s).
Definition st_intervals (l : list nat) (s : state) : state :=
  mkState (config s) (active s) (listeners s) l (mediaElements s)
          (results s) (mousePosition s) (originalHistoryMethods s).
Definition st_mediaElements (l : list mediaRec) (s : state) : state :=
  mkState (config s) (active s) (listeners s) (intervals s) l
          (results s) (mousePosition s) (originalHistoryMethods s).
Definition st_results (r : option loc) (s : state) : state :=
  mkState (config s) (active s) (listeners s) (intervals s) (mediaElements s)
          r (mousePosition s) (originalHistoryMethods s).
Definition st_mousePosition (p : option record) (s : state) : state :=
  mkState (config s) (active s) (listeners s) (intervals s) (mediaElements s)
          (results s) p (originalHistoryMethods s).

Definition h_now (t : Z) (h : host) : host :=
  mkHost t (window_listeners h) (timers h) (next_timer h) (next_fn h)
         (history_pushState h) (history_replaceState h) (media h) (pg h).
Definition h_window_listeners (l : list wlistener) (h : host) : host :=
  mkHost (now h) l (timers h) (next_timer h) (next_fn h)
         (history_pushState h) (history_replaceState h) (media h) (pg h).
Definition h_timers (l : list timer) (n : nat) (h : host) : host :=
  mkHost (now h) (window_listeners h) l n (next_fn h)
         (history_pushState h) (history_replaceState h) (media h) (pg h).
Definition h_next_fn (n : nat) (h : host) : host :=
  mkHost (now h) (window_listeners h) (timers h) (next_timer h) n
         (history_pushState h) (history_replaceState h) (media h) (pg h).
Definition h_history (p r : hist_fn) (h : host) : host :=
  mkHost (now h) (window_listeners h) (timers h) (next_timer h) (next_fn h)
         p r (media h) (pg h).
Definition h_media (m : list mediaEl) (h : host) : host :=
  mkHost (now h) (window_listeners h) (timers h) (next_timer h) (next_fn h)
         (history_pushState h) (history_replaceState h) m (pg h).
Definition h_page (p : page) (h : host) : host :=
  mkHost (now h) (window_listeners h) (timers h) (next_timer h) (next_fn h)
         (history_pushState h) (history_replaceState h) (media h) p.

(** ** The monad: state passing with exceptions

    [Throw w] is a JavaScript exception leaving the running function, in
    the world [w] reached when it was thrown. *)

Inductive result (A : Type) :=
  | Ok (a : A) (w : world)
  | Throw (w : world).
Arguments Ok {A} a w.
Arguments Throw {A} w.

Definition M (A : Type) : Type := world → result A.

Definition ret {A} (a : A) : M A := λ w, Ok a w.

Definition bind {A B} (m : M A) (k : A → M B) : M B :=
  λ w, match m w with
       | Ok a w' => k a w'
       | Throw w' => Throw w'
       end.

Definition throw {A} : M A := λ w, Throw w.

Notation "x <- m ; k" := (bind m (λ x, k))
  (at level 20, m at level 100, k at level 200, only parsing).
Notation "'run' m ; k" := (bind m (λ _, k))
  (at level 20, m at level 100, k at level 200, only parsing).

Definition get {A} (f : world → A) : M A := λ w, Ok (f w) w.
Definition modify (f : world → world) : M unit := λ w, Ok tt (f w).

Definition when (b : bool) (m : M unit) : M unit := if b then m else ret tt.

(** [try { m } catch { report }] as the host does around a listener or a
    timer callback: the error is reported and the host goes on. *)
Definition host_call (m : M unit) : M unit :=
  λ w, match m w with
       | Ok _ w' => Ok tt w'
       | Throw w' =>
           Ok tt (mkWorld (st w') (hp w') (next_loc w') (hst w')
                          (delivered w') (S (uncaught w')))
       end.

Fixpoint forEach {A} (l : list A) (f : A → M unit) : M unit :=
  match l with
  | [] => ret tt
  | a :: l' => run f a; forEach l' f
  end.

Arguments set_st f w /.
Arguments set_hp f w /.
Arguments set_hst f w /.
Arguments st_config c s /.
Arguments st_active b s /.
Arguments st_listeners l s /.
Arguments st_intervals l s /.
Arguments st_mediaElements l s /.
Arguments st_results r s /.
Arguments st_mousePosition p s /.
Arguments h_now t h /.
Arguments h_window_listeners l h /.
Arguments h_timers l n h /.
Arguments h_next_fn n h /.
Arguments h_history p r h /.
Arguments h_media m h /.
Arguments h_page p h /.
Arguments ret {A} a w /.
Arguments throw {A} w /.
Arguments get {A} f w /.
Arguments modify f w /.

(** ** Heap primitives *)

(** A fresh object or array literal. *)
Definition alloc (c : cell) : M loc :=
  λ w, Ok (next_loc w)
          (mkWorld (st w) (<[next_loc w := c]> (hp w)) (S (next_loc w))
                   (hst w) (delivered w) (uncaught w)).

Definition store (l : loc) (c : cell) : M unit :=
  modify (set_hp (λ h, <[l := c]> h)).

(** [state.results], dereferenced: a [TypeError] when it is [null]. *)
Definition live : M (loc * Results.t) :=
  λ w, match results (st w) with
       | Some l => match read_results (hp w) l with
                   | Some r => Ok (l, r) w
                   | None => Throw w
                   end
       | None => Throw w
       end.

Definition load_time (l : loc) : M time :=
  λ w, match read_time (hp w) l with Some t => Ok t w | None => Throw w end.

Definition load_clicks (l : loc) : M clicksRec :=
  λ w, match read_clicks (hp w) l with Some c => Ok c w | None => Throw w end.

Definition load_array (l : loc) : M (list record) :=
  λ w, match read_array (hp w) l with Some a => Ok a w | None => Throw w end.

(** [arr.push(r)] *)
Definition push (l : loc) (r : record) : M unit :=
  a <- load_array l; store l (CArray (a ++ [r])).

(** [state.results.<field>.push(r)] *)
Definition push_field (field : Results.t → loc) (r : record) : M unit :=
  lr <- live; push (field lr.2) r.

Definition getTimestamp : M Z := get (λ w, now (hst w)).

Arguments alloc c w /.
Arguments store l c w /.
Arguments getTimestamp w /.

(** ** The module body: [resetResults] and the handlers *)

Definition fresh_userInfo (p : page) : userInfoRec :=
  mkUserInfo (innerWidth p, innerHeight p) (nav_appCodeName p) (nav_appName p)
             (nav_vendor p) (nav_platform p) (nav_userAgent p).

Definition resetResults : M unit :=
  cfg <- get (λ w, config (st w));
  p <- get (λ w, pg (hst w));
  ui <- (if Config.userInfo cfg
         then l <- alloc (CUserInfo (fresh_userInfo p)); ret (Some l)
         else ret None);
  t <- alloc (CTime (mkTime 0 0 0));
  cd <- alloc (CArray []);
  c <- alloc (CClicks (mkClicks 0 cd));
  mm <- alloc (CArray []);
  ms <- alloc (CArray []);
  ka <- alloc (CArray []);
  nh <- alloc (CArray []);
  fi <- alloc (CArray []);
  te <- alloc (CArray []);
  mi <- alloc (CArray []);
  ws <- alloc (CArray []);
  vc <- alloc (CArray []);
  ce <- alloc (CArray []);
  r <- alloc (CResults (Results.mk ui t c mm ms ka nh fi te mi ws vc ce));
  modify (set_st (st_results (Some r))).

Definition handleMouseMove (e : event) : M unit :=
  ts <- getTimestamp;
  modify (set_st (st_mousePosition
                    (Some [JNum (clientX e); JNum (clientY e); JNum ts]))).

(** A string is truthy when it is not empty. *)
Definition truthy_str (s : string) : bool := negb (bool_decide (s = ""%string)).

(** The body of the [forEach] callback of [handleClick] after its guard. *)
Definition node_of (el : element) : string :=
  let node := localName el in
  let node := if truthy_str (className el)
              then String.append node
                     (String.append "." (String.concat "." (classList el)))
              else node in
  if truthy_str (id el)
  then String.append node (String.append "#" (id el))
  else node.

(** [e.composedPath().forEach((el, i) => { if (i >= n - 2) return; ... })]
    with [n = e.composedPath().length]; [i] and [n - 2] are JavaScript
    numbers, so [n - 2] may be negative. *)
Fixpoint click_loop (n : Z) (i : Z) (els : list element) (path : list string)
  : list string :=
  match els with
  | [] => path
  | el :: rest =>
      if (i >=? n - 2)%Z
      then click_loop n (i + 1)%Z rest path
      else click_loop n (i + 1)%Z rest (path ++ [node_of el])
  end.

Definition click_path (e : event) : list string :=
  click_loop (Z.of_nat (length (composedPath e))) 0%Z (composedPath e) [].

(** [path.reverse().join(' > ')] *)
Definition path_string (path : list string) : string :=
  String.concat " > " (rev path).

Definition handleClick (e : event) : M unit :=
  lr <- live;
  c <- load_clicks (Results.clicks lr.2);
  run store (Results.clicks lr.2)
        (CClicks (mkClicks (clickCount c + 1) (clickDetails c)));
  ts <- getTimestamp;
  push (clickDetails c)
       [JNum (clientX e); JNum (clientY e);
        JStr (path_string (click_path e)); JNum ts].

(** [e.preventDefault()] and [e.target.submit()] act on the form only. *)
Definition handleFormSubmit (e : event) : M unit :=
  ts <- getTimestamp;
  push_field Results.formInteractions [JStr (target_name e); JNum ts].

(** The function values of the three handlers above. *)
Definition fn_handleMouseMove : handler := mkHandler 0 HMouseMove.
Definition fn_handleClick : handler := mkHandler 1 HClick.
Definition fn_handleFormSubmit : handler := mkHandler 2 HSubmit.

(** A closure created while running: a new identity. *)
Definition fresh_fn (c : handler_code) : M handler :=
  λ w, Ok (mkHandler (next_fn (hst w)) c)
          (set_hst (λ h, h_next_fn (S (next_fn h)) h) w).

(** ** Browser primitives *)

Definition capture_of (o : option bool) : bool :=
  match o with Some true => true | _ => false end.

Definition same_listener (t : string) (h : handler) (c : bool) (l : wlistener)
  : bool :=
  bool_decide (l_type l = t) && bool_decide (h_id (l_handler l) = h_id h)
  && bool_decide (l_capture l = c).

(** [window.addEventListener]: a listener already present with the same
    type, callback and capture flag is not added again. *)
Definition addEventListener (t : string) (h : handler) (o : option bool)
  : M unit :=
  modify (set_hst (λ hs,
    if existsb (same_listener t h (capture_of o)) (window_listeners hs)
    then hs
    else h_window_listeners
           (window_listeners hs ++ [mkWL t h (capture_of o)]) hs)).

Definition removeEventListener (t : string) (h : handler) (o : option bool)
  : M unit :=
  modify (set_hst (λ hs,
    h_window_listeners
      (filter (λ l, same_listener t h (capture_of o) l = false)
              (window_listeners hs)) hs)).

Definition same_el_listener (t : string) (h : handler)
    (l : string * handler) : bool :=
  bool_decide (l.1 = t) && bool_decide (h_id l.2 = h_id h).

Definition el_add (t : string) (h : handler) (m : mediaEl) : mediaEl :=
  if existsb (same_el_listener t h) (el_listeners m) then m
  else mkMediaEl (currentSrc m) (el_currentTime m) (el_listeners m ++ [(t, h)]).

Definition el_remove (t : string) (h : handler) (m : mediaEl) : mediaEl :=
  mkMediaEl (currentSrc m) (el_currentTime m)
            (filter (λ l, same_el_listener t h l = false) (el_listeners m)).

(** [element.addEventListener] and [element.removeEventListener] on the
    media element number [el]. *)
Definition el_addEventListener (el : nat) (t : string) (h : handler) : M unit :=
  modify (set_hst (λ hs, h_media (alter (el_add t h) el (media hs)) hs)).

Definition el_removeEventListener (el : nat) (t : string) (h : handler)
  : M unit :=
  modify (set_hst (λ hs, h_media (alter (el_remove t h) el (media hs)) hs)).

Definition setInterval (k : task) (delay : Z) : M nat :=
  λ w, Ok (next_timer (hst w))
          (set_hst (λ hs, h_timers (timers hs ++ [mkTimer (next_timer hs) k delay])
                                   (S (next_timer hs)) hs) w).

Definition clearInterval (i : nat) : M unit :=
  modify (set_hst (λ hs,
    h_timers (filter (λ t, t_id t ≠ i) (timers hs)) (next_timer hs) hs)).

(** ** Operations on [state.listeners], [state.intervals],
    [state.mediaElements] *)

(** [Map.prototype.set]: an existing key keeps its place and gets the new
    value. *)
Fixpoint map_set (k : nat) (v : listenerRec) (m : list (nat * listenerRec))
  : list (nat * listenerRec) :=
  match m with
  | [] => [(k, v)]
  | (k', v') :: m' =>
      if decide (k = k') then (k, v) :: m' else (k', v') :: map_set k v m'
  end.

(** [Set.prototype.add] *)
Definition set_add (i : nat) (s : list nat) : list nat :=
  if bool_decide (i ∈ s) then s else s ++ [i].

Definition listeners_set (h : handler) (v : listenerRec) : M unit :=
  modify (set_st (λ s, st_listeners (map_set (h_id h) v (listeners s)) s)).

Definition intervals_add (i : nat) : M unit :=
  modify (set_st (λ s, st_intervals (set_add i (intervals s)) s)).

Definition mediaElements_add (r : mediaRec) : M unit :=
  modify (set_st (λ s, st_mediaElements (mediaElements s ++ [r]) s)).

Definition patchHistoryMethods : M unit :=
  o <- get (λ w, originalHistoryMethods (st w));
  modify (set_hst (h_history (HistProxy o.1 "pushstate")
                             (HistProxy o.2 "replacestate"))).

Definition trackMediaElement (el : nat) : M unit :=
  handler <- fresh_fn (HMedia el);
  forEach ["play"; "pause"; "ended"; "volumechange"]%string (λ ev,
    run el_addEventListener el ev handler;
    mediaElements_add (mkMR el ev handler)).

(** The local [addListener] of [start]. *)
Definition addListener (t : string) (h : handler) (o : option bool) : M unit :=
  run addEventListener t h o;
  listeners_set h (mkLR t h o).

(** ** Calling user code *)

Definition log_delivery (c : consumer) (snap : loc) (w : world) : world :=
  mkWorld (st w) (hp w) (next_loc w) (hst w)
          (delivered w ++ [mkDelivery (consumer_id c) snap (read_view (hp w) snap)])
          (uncaught w).

(** [state.config.processData(snap)] *)
Definition call_consumer (c : consumer) (snap : loc) : M unit :=
  λ w, let w1 := log_delivery c snap w in
       match consumer_run c snap (hp w) with
       | CbReturn h => Ok tt (set_hp (λ _, h) w1)
       | CbThrow h => Throw (set_hp (λ _, h) w1)
       end.

(** [handler(e)] *)
Definition call_userHandler (u : userHandler) (e : event) : M unit :=
  λ w, match uh_run u e (hp w) with
       | CbReturn h => Ok tt (set_hp (λ _, h) w)
       | CbThrow h => Throw (set_hp (λ _, h) w)
       end.

(** ** The public operations *)

(** A number is truthy when it is not zero. *)
Definition truthy_num (n : Z) : bool := negb (n =? 0)%Z.

(** [config(newConfig)]; the plain name is taken by the field of
    [state]. *)
Definition config_ (newConfig : Partial.t) : M unit :=
  modify (set_st (st_config (spread_config DEFAULT_CONFIG newConfig))).

Definition processResults : M unit :=
  lr <- live;
  t <- load_time (Results.time lr.2);
  ts <- getTimestamp;
  run store (Results.time lr.2) (CTime (mkTime (startTime t) ts (stopTime t)));
  (* { ...state.results } *)
  lr <- live;
  snap <- alloc (CResults lr.2);
  cfg <- get (λ w, config (st w));
  run call_consumer (Config.processData cfg) snap;
  cfg <- get (λ w, config (st w));
  if Config.clearAfterProcess cfg then
    preservedInfo <- (if Config.userInfo cfg
                      then lr <- live; ret (Some (Results.userInfo lr.2))
                      else ret None);
    run resetResults;
    (* Object.assign(state.results, preservedInfo) *)
    match preservedInfo with
    | Some u => lr <- live; store lr.1 (CResults (Results.with_userInfo u lr.2))
    | None => ret tt
    end
  else ret tt.

(** The callback of the sampling interval armed by [start]. *)
Definition sampleMouse : M unit :=
  mp <- get (λ w, mousePosition (st w));
  match mp with
  | None => ret tt
  | Some p =>
      lr <- live;
      a <- load_array (Results.mouseMovements lr.2);
      if negb (truthy_num (Z.of_nat (length a)))
         || strict_neq (index p 0) (opt_index (last a) 0)
         || strict_neq (index p 1) (opt_index (last a) 1)
      then push_field Results.mouseMovements p
      else ret tt
  end.

Definition start : M unit :=
  a <- get (λ w, active (st w));
  if a then ret tt else
  run modify (set_st (st_active true));
  run resetResults;
  lr <- live;
  t <- load_time (Results.time lr.2);
  ts <- getTimestamp;
  run store (Results.time lr.2) (CTime (mkTime ts (currentTime t) (stopTime t)));
  cfg <- get (λ w, config (st w));
  run when (Config.mouseMovement cfg) (
    run addListener "mousemove" fn_handleMouseMove None;
    interval <- setInterval SampleMouse (Config.mouseMovementInterval cfg * 1000);
    intervals_add interval);
  run when (Config.clicks cfg) (addListener "click" fn_handleClick None);
  run when (Config.mouseScroll cfg) (
    h <- fresh_fn HScroll; addListener "scroll" h None);
  run when (Config.windowResize cfg) (
    h <- fresh_fn HResize; addListener "resize" h None);
  run when (Config.visibilitychange cfg) (
    h <- fresh_fn HVisibility; addListener "visibilitychange" h None);
  run when (Config.keyboardActivity cfg) (
    h <- fresh_fn HKeydown; addListener "keydown" h None);
  run when (Config.pageNavigation cfg) (
    run patchHistoryMethods;
    navHandler <- fresh_fn HNav;
    forEach ["popstate"; "pushstate"; "replacestate"; "locationchange"]%string
            (λ ev, addListener ev navHandler None));
  run when (Config.formInteractions cfg) (
    addListener "submit" fn_handleFormSubmit (Some true));
  run when (Config.touchEvents cfg) (
    h <- fresh_fn HTouchStart; addListener "touchstart" h None);
  run when (Config.audioVideoInteraction cfg) (
    m <- get (λ w, media (hst w));
    forEach (seq 0 (length m)) trackMediaElement);
  when (truthy_num (Config.processTime cfg)) (
    interval <- setInterval Flush (Config.processTime cfg * 1000);
    intervals_add interval).

Definition stop : M unit :=
  a <- get (λ w, active (st w));
  if negb a then ret tt else
  run modify (set_st (st_active false));
  (* Clear intervals *)
  ids <- get (λ w, intervals (st w));
  run forEach ids clearInterval;
  run modify (set_st (st_intervals []));
  (* Remove event listeners *)
  ls <- get (λ w, listeners (st w));
  run forEach ls (λ kv,
        removeEventListener (lr_type kv.2) (lr_handler kv.2) (lr_options kv.2));
  run modify (set_st (st_listeners []));
  (* Remove media listeners *)
  ms <- get (λ w, mediaElements (st w));
  run forEach ms (λ r,
        el_removeEventListener (mr_element r) (mr_event r) (mr_handler r));
  run modify (set_st (st_mediaElements []));
  (* Restore original history methods *)
  o <- get (λ w, originalHistoryMethods (st w));
  run modify (set_hst (h_history o.1 o.2));
  lr <- live;
  t <- load_time (Results.time lr.2);
  ts <- getTimestamp;
  run store (Results.time lr.2) (CTime (mkTime (startTime t) (currentTime t) ts));
  processResults.

Definition registerCustomEvent (eventName : string) (handler : userHandler)
  : M unit :=
  cfg <- get (λ w, config (st w));
  if negb (Config.customEventRegistration cfg) then ret tt else
  wrappedHandler <- fresh_fn (HCustom eventName handler);
  run addEventListener eventName wrappedHandler None;
  listeners_set wrappedHandler (mkLR eventName wrappedHandler None).

Definition load_results (l : loc) : M Results.t :=
  λ w, match read_results (hp w) l with Some r => Ok r w | None => Throw w end.

Definition clone_array (l : loc) : M loc :=
  a <- load_array l; alloc (CArray a).

Definition load_userInfo (l : loc) : M userInfoRec :=
  λ w, match hp w !! l with
       | Some (CUserInfo u) => Ok u w
       | _ => Throw w
       end.

Definition clone_userInfo (o : option loc) : M (option loc) :=
  match o with
  | None => ret None
  | Some u => x <- load_userInfo u; l' <- alloc (CUserInfo x); ret (Some l')
  end.

(** [structuredClone] of a result object: every object and array reached
    from it is copied.  The fields of the tracker's buffer are separate
    arrays, so the sharing table of the clone algorithm is not needed. *)
Definition structuredClone (l : loc) : M loc :=
  r <- load_results l;
  ui <- clone_userInfo (Results.userInfo r);
  t <- load_time (Results.time r);
  t' <- alloc (CTime t);
  c <- load_clicks (Results.clicks r);
  cd <- clone_array (clickDetails c);
  c' <- alloc (CClicks (mkClicks (clickCount c) cd));
  mm <- clone_array (Results.mouseMovements r);
  ms <- clone_array (Results.mouseScroll r);
  ka <- clone_array (Results.keyboardActivities r);
  nh <- clone_array (Results.navigationHistory r);
  fi <- clone_array (Results.formInteractions r);
  te <- clone_array (Results.touchEvents r);
  mi <- clone_array (Results.mediaInteractions r);
  ws <- clone_array (Results.windowSizes r);
  vc <- clone_array (Results.visibilityChanges r);
  ce <- clone_array (Results.customEvents r);
  alloc (CResults (Results.mk ui t' c' mm ms ka nh fi te mi ws vc ce)).

(** [structuredClone(null)] is [null]. *)
Definition getResults : M (option loc) :=
  r <- get (λ w, results (st w));
  match r with
  | None => ret None
  | Some l => s <- structuredClone l; ret (Some s)
  end.

Definition getConfig : M Config.t := get (λ w, config (st w)).

(** ** The host: dispatching events and firing timers *)

Definition run_handler (h : handler) (e : event) : M unit :=
  match h_code h with
  | HMouseMove => handleMouseMove e
  | HClick => handleClick e
  | HScroll =>
      p <- get (λ w, pg (hst w)); ts <- getTimestamp;
      push_field Results.mouseScroll [JNum (scrollX p); JNum (scrollY p); JNum ts]
  | HResize =>
      p <- get (λ w, pg (hst w)); ts <- getTimestamp;
      push_field Results.windowSizes
                 [JNum (innerWidth p); JNum (innerHeight p); JNum ts]
  | HVisibility =>
      p <- get (λ w, pg (hst w)); ts <- getTimestamp;
      push_field Results.visibilityChanges [JStr (visibilityState p); JNum ts]
  | HKeydown =>
      ts <- getTimestamp;
      push_field Results.keyboardActivities [JStr (key e); JNum ts]
  | HNav =>
      p <- get (λ w, pg (hst w)); ts <- getTimestamp;
      push_field Results.navigationHistory [JStr (href p); JNum ts]
  | HSubmit => handleFormSubmit e
  | HTouchStart =>
      match touches e with
      | [] => throw            (* e.touches[0] is undefined *)
      | (x, y) :: _ =>
          ts <- getTimestamp;
          push_field Results.touchEvents
                     [JStr "touchstart"; JNum x; JNum y; JNum ts]
      end
  | HMedia el =>
      m <- get (λ w, media (hst w));
      match m !! el with
      | None => throw
      | Some x =>
          ts <- getTimestamp;
          push_field Results.mediaInteractions
                     [JStr (e_type e); JStr (currentSrc x);
                      JNum (el_currentTime x); JNum ts]
      end
  | HCustom eventName handler =>
      ts <- getTimestamp;
      run push_field Results.customEvents [JStr eventName; detail e; JNum ts];
      call_userHandler handler e
  end.

(** [window.dispatchEvent(e)]: every listener of the type runs; an error
    in one is reported and the next one still runs. *)
Definition dispatchEvent (e : event) : M unit :=
  ls <- get (λ w, window_listeners (hst w));
  forEach (filter (λ l, l_type l = e_type e) ls)
          (λ l, host_call (run_handler (l_handler l) e)).

Definition dispatchMedia (el : nat) (e : event) : M unit :=
  m <- get (λ w, media (hst w));
  match m !! el with
  | None => ret tt
  | Some x =>
      forEach (filter (λ l, l.1 = e_type e) (el_listeners x))
              (λ l, host_call (run_handler l.2 e))
  end.

Definition plain_event (t : string) : event :=
  mkEvent t 0 0 [] "" "" [] JUndef.

(** A call of [history.pushState] or [history.replaceState] by the page. *)
Fixpoint call_history (f : hist_fn) : M unit :=
  match f with
  | HistNative _ => ret tt
  | HistProxy target ev =>
      run call_history target;
      run dispatchEvent (plain_event ev);
      dispatchEvent (plain_event "locationchange")
  end.

Definition run_task (k : task) : M unit :=
  match k with
  | SampleMouse => sampleMouse
  | Flush => processResults
  end.

(** An armed interval fires; an error in its callback is reported and the
    interval stays armed. *)
Definition fire (i : nat) : M unit :=
  ts <- get (λ w, timers (hst w));
  match find (λ t, bool_decide (t_id t = i)) ts with
  | Some t => host_call (run_task (t_task t))
  | None => ret tt
  end.

(** ** Sessions: what the page and the browser do to the tracker *)

Inductive input :=
  | Elapse (d : Z)
  | SetPage (p : page)
  | Dispatch (e : event)
  | DispatchMedia (el : nat) (e : event)
  | Fire (i : nat)
  | PushState
  | ReplaceState
  | CallConfig (p : Partial.t)
  | CallStart
  | CallStop
  | CallProcessResults
  | CallGetResults
  | CallGetConfig
  | CallRegisterCustomEvent (eventName : string) (handler : userHandler).

Definition drop {A} (m : M A) : M unit := run m; ret tt.

Definition step (i : input) : M unit :=
  match i with
  | Elapse d => modify (set_hst (λ h, h_now (now h + d) h))
  | SetPage p => modify (set_hst (h_page p))
  | Dispatch e => dispatchEvent e
  | DispatchMedia el e => dispatchMedia el e
  | Fire i => fire i
  | PushState => f <- get (λ w, history_pushState (hst w)); call_history f
  | ReplaceState => f <- get (λ w, history_replaceState (hst w)); call_history f
  | CallConfig p => config_ p
  | CallStart => start
  | CallStop => stop
  | CallProcessResults => processResults
  | CallGetResults => drop getResults
  | CallGetConfig => drop getConfig
  | CallRegisterCustomEvent n h => registerCustomEvent n h
  end.

(** The world after an operation, however it ended. *)
Definition after {A} (r : result A) : world :=
  match r with Ok _ w => w | Throw w => w end.

(** The page goes on after an operation that threw. *)
Definition exec (i : input) (w : world) : world := after (step i w).

Definition execs (tr : list input) (w : world) : world :=
  foldl (λ w i, exec i w) w tr.

(** The world when the script is loaded: default configuration, nothing
    registered, no buffer, and the history entry points saved as they are.
    The function identities 0, 1 and 2 are those of the three handlers of
    the module body. *)
Definition initial_state (push replace : hist_fn) : state :=
  mkState DEFAULT_CONFIG false [] [] [] None None (push, replace).

Definition initial_host (t : Z) (m : list mediaEl) (p : page) : host :=
  mkHost t [] [] 0 3 (HistNative "pushState") (HistNative "replaceState") m p.

Definition initial_world (t : Z) (m : list mediaEl) (p : page) : world :=
  mkWorld (initial_state (HistNative "pushState") (HistNative "replaceState"))
          ∅ 0 (initial_host t m p) [] 0.

(** * Observations and predicates used by the statements *)

Definition kind (c : cell) : nat :=
  match c with
  | CResults _ => 0
  | CTime _ => 1
  | CClicks _ => 2
  | CUserInfo _ => 3
  | CArray _ => 4
  end.

(** The live buffer as an observer sees it. *)
Definition read_live (w : world) : option view :=
  l ← results (st w); read_view (hp w) l.

Definition pushed (l : loc) (x : record) (l' : loc) (b : list record)
  : list record :=
  if decide (l = l') then b ++ [x] else b.

(** The view of a buffer after [x] was pushed onto the array at [l];
    [cd] is the buffer's [clickDetails] reference. *)
Definition push_view (l : loc) (x : record) (r : Results.t) (cd : loc)
    (v : view) : view :=
  mkView (v_userInfo v) (v_time v) (v_clickCount v)
    (pushed l x cd (v_clickDetails v))
    (pushed l x (Results.mouseMovements r) (v_mouseMovements v))
    (pushed l x (Results.mouseScroll r) (v_mouseScroll v))
    (pushed l x (Results.keyboardActivities r) (v_keyboardActivities v))
    (pushed l x (Results.navigationHistory r) (v_navigationHistory v))
    (pushed l x (Results.formInteractions r) (v_formInteractions v))
    (pushed l x (Results.touchEvents r) (v_touchEvents v))
    (pushed l x (Results.mediaInteractions r) (v_mediaInteractions v))
    (pushed l x (Results.windowSizes r) (v_windowSizes v))
    (pushed l x (Results.visibilityChanges r) (v_visibilityChanges v))
    (pushed l x (Results.customEvents r) (v_customEvents v)).

Definition heap_ok (w : world) : Prop := ∀ l, next_loc w ≤ l → hp w !! l = None.

Definition empty_view (ui : option userInfoRec) : view :=
  mkView ui (mkTime 0 0 0) 0 [] [] [] [] [] [] [] [] [] [] [].

(** The part of [processResults] after the consumer returned. *)
Definition clear_step : M unit :=
  cfg <- get (λ w, config (st w));
  if Config.clearAfterProcess cfg then
    preservedInfo <- (if Config.userInfo cfg
                      then lr <- live; ret (Some (Results.userInfo lr.2))
                      else ret None);
    run resetResults;
    match preservedInfo with
    | Some u => lr <- live; store lr.1 (CResults (Results.with_userInfo u lr.2))
    | None => ret tt
    end
  else ret tt.

Definition with_time (t : time) (v : view) : view :=
  mkView (v_userInfo v) t (v_clickCount v) (v_clickDetails v)
    (v_mouseMovements v) (v_mouseScroll v) (v_keyboardActivities v)
    (v_navigationHistory v) (v_formInteractions v) (v_touchEvents v)
    (v_mediaInteractions v) (v_windowSizes v) (v_visibilityChanges v)
    (v_customEvents v).

Definition stamp_current (ts : Z) (t : time) : time :=
  mkTime (startTime t) ts (stopTime t).

(** The view handed to the consumer by a flush of [w]. *)
Definition flushed_view (w : world) (v : view) : view :=
  with_time (stamp_current (now (hst w)) (v_time v)) v.

(** The world in which the consumer runs. *)
Definition at_consumer (w : world) (r : Results.t) (v : view) : world :=
  mkWorld (st w)
    (<[next_loc w:=CResults r]>
       (<[Results.time r:=CTime (v_time (flushed_view w v))]> (hp w)))
    (S (next_loc w)) (hst w)
    (delivered w ++
       [mkDelivery (consumer_id (Config.processData (config (st w))))
                   (next_loc w) (Some (flushed_view w v))])
    (uncaught w).

(** The cells a result object is made of: the object, and everything its
    fields refer to. *)
Definition footprint (h : heap) (l : loc) : list loc :=
  match read_results h l with
  | None => [l]
  | Some r =>
      l :: Results.time r :: Results.clicks r ::
      match read_clicks h (Results.clicks r) with
      | Some c => [clickDetails c]
      | None => []
      end ++
      Results.mouseMovements r :: Results.mouseScroll r ::
      Results.keyboardActivities r :: Results.navigationHistory r ::
      Results.formInteractions r :: Results.touchEvents r ::
      Results.mediaInteractions r :: Results.windowSizes r ::
      Results.visibilityChanges r :: Results.customEvents r ::
      match Results.userInfo r with Some u => [u] | None => [] end ++ []
  end.

(** From a world in [P], [m] returns [a] in a world in [Q a] or throws in
    a world in [E]. *)
Definition hoare {A} (P : world → Prop) (m : M A) (Q : A → world → Prop)
    (E : world → Prop) : Prop :=
  ∀ w, P w → match m w with Ok a w' => Q a w' | Throw w' => E w' end.

(** [m] keeps [P], whether it returns or throws. *)
Definition preserves {A} (P : world → Prop) (m : M A) : Prop :=
  hoare P m (λ _, P) P.

(** One more error reported to the host. *)
Definition reported (w : world) : world :=
  mkWorld (st w) (hp w) (next_loc w) (hst w) (delivered w) (S (uncaught w)).

(** The user code a listener may run satisfies [ok]. *)
Definition handler_ok (ok : userHandler → Prop) (h : handler) : Prop :=
  match h_code h with
  | HCustom _ u => ok u
  | _ => True
  end.

Definition listeners_ok (ok : userHandler → Prop) (w : world) : Prop :=
  Forall (λ l, handler_ok ok (l_handler l)) (window_listeners (hst w)) ∧
  Forall (λ m, Forall (λ l, handler_ok ok l.2) (el_listeners m))
         (media (hst w)).

(** The part of [stop] from the stop time on. *)
Definition final_flush : M unit :=
  lr <- live;
  t <- load_time (Results.time lr.2);
  ts <- getTimestamp;
  run store (Results.time lr.2) (CTime (mkTime (startTime t) (currentTime t) ts));
  processResults.

(** Two worlds with the same buffer, configuration, clock and page: they
    differ at most in the registries, the listeners and the timers. *)
Definition same_core (w w' : world) : Prop :=
  hp w' = hp w ∧ next_loc w' = next_loc w ∧
  delivered w' = delivered w ∧ uncaught w' = uncaught w ∧
  config (st w') = config (st w) ∧
  results (st w') = results (st w) ∧
  mousePosition (st w') = mousePosition (st w) ∧
  originalHistoryMethods (st w') = originalHistoryMethods (st w) ∧
  now (hst w') = now (hst w) ∧ pg (hst w') = pg (hst w).

(** The engine's own code of a handler: anything but a wrapped user
    handler. *)
Definition engine_code (c : handler_code) : Prop :=
  match c with HCustom _ _ => False | _ => True end.

(** What subscribing listeners leaves alone; [ok] holds of the user code
    behind every listener. *)
Definition subscribing (w0 : world) (ok : userHandler → Prop) (w : world)
  : Prop :=
  same_core w0 w ∧ active (st w) = active (st w0) ∧
  timers (hst w) = timers (hst w0) ∧
  next_timer (hst w) = next_timer (hst w0) ∧
  intervals (st w) = intervals (st w0) ∧
  listeners_ok ok w.

(** The intervals [start] arms under [cfg] when the next timer id is
    [n]. *)
Definition sampler (cfg : Config.t) (n : nat) : list timer :=
  if Config.mouseMovement cfg
  then [mkTimer n SampleMouse (Config.mouseMovementInterval cfg * 1000)]
  else [].

Definition flusher (cfg : Config.t) (n : nat) : list timer :=
  if truthy_num (Config.processTime cfg)
  then [mkTimer n Flush (Config.processTime cfg * 1000)]
  else [].

Definition armed (cfg : Config.t) (n : nat) : list timer :=
  sampler cfg n ++ flusher cfg (n + length (sampler cfg n)).

(** The buffer right after [start]. *)
Definition started_view (w : world) : view :=
  with_time (mkTime (now (hst w)) 0 0)
    (empty_view (if Config.userInfo (config (st w))
                 then Some (fresh_userInfo (pg (hst w))) else None)).

(** Timer ids are handed out in increasing order. *)
Definition timers_ok (w : world) : Prop :=
  Forall (λ t, t_id t < next_timer (hst w)) (timers (hst w)).

(** The body of [start] after the start time is stamped, for the
    configuration read there. *)
Definition start_body (cfg : Config.t) : M unit :=
  run when (Config.mouseMovement cfg) (
    run addListener "mousemove" fn_handleMouseMove None;
    interval <- setInterval SampleMouse (Config.mouseMovementInterval cfg * 1000);
    intervals_add interval);
  run when (Config.clicks cfg) (addListener "click" fn_handleClick None);
  run when (Config.mouseScroll cfg) (
    h <- fresh_fn HScroll; addListener "scroll" h None);
  run when (Config.windowResize cfg) (
    h <- fresh_fn HResize; addListener "resize" h None);
  run when (Config.visibilitychange cfg) (
    h <- fresh_fn HVisibility; addListener "visibilitychange" h None);
  run when (Config.keyboardActivity cfg) (
    h <- fresh_fn HKeydown; addListener "keydown" h None);
  run when (Config.pageNavigation cfg) (
    run patchHistoryMethods;
    navHandler <- fresh_fn HNav;
    forEach ["popstate"; "pushstate"; "replacestate"; "locationchange"]%string
            (λ ev, addListener ev navHandler None));
  run when (Config.formInteractions cfg) (
    addListener "submit" fn_handleFormSubmit (Some true));
  run when (Config.touchEvents cfg) (
    h <- fresh_fn HTouchStart; addListener "touchstart" h None);
  run when (Config.audioVideoInteraction cfg) (
    m <- get (λ w, media (hst w));
    forEach (seq 0 (length m)) trackMediaElement);
  when (truthy_num (Config.processTime cfg)) (
    interval <- setInterval Flush (Config.processTime cfg * 1000);
    intervals_add interval).

(** What [stop] leaves of the host's timers, window listeners and media
    listeners. *)
Definition clear_all (ids : list nat) (ts : list timer) : list timer :=
  foldl (λ ts i, filter (λ t, t_id t ≠ i) ts) ts ids.

Definition detach_all (ls : list (nat * listenerRec)) (wl : list wlistener)
  : list wlistener :=
  foldl (λ wl kv,
           filter (λ l, same_listener (lr_type kv.2) (lr_handler kv.2)
                                      (capture_of (lr_options kv.2)) l = false)
                  wl)
        wl ls.

Definition detach_media (ms : list mediaRec) (m : list mediaEl) : list mediaEl :=
  foldl (λ m r, alter (el_remove (mr_event r) (mr_handler r)) (mr_element r) m)
        m ms.

(** The world [stop] reaches before it stamps the stop time. *)
Definition torn_down (w : world) : world :=
  mkWorld
    (mkState (config (st w)) false [] [] [] (results (st w))
             (mousePosition (st w)) (originalHistoryMethods (st w)))
    (hp w) (next_loc w)
    (mkHost (now (hst w))
            (detach_all (listeners (st w)) (window_listeners (hst w)))
            (clear_all (intervals (st w)) (timers (hst w)))
            (next_timer (hst w)) (next_fn (hst w))
            (originalHistoryMethods (st w)).1
            (originalHistoryMethods (st w)).2
            (detach_media (mediaElements (st w)) (media (hst w)))
            (pg (hst w)))
    (delivered w) (uncaught w).

(** Everything but the heap and the buffer reference is as in [w0]. *)
Definition same_registry (w0 w : world) : Prop :=
  hst w = hst w0 ∧ delivered w = delivered w0 ∧ uncaught w = uncaught w0 ∧
  config (st w) = config (st w0) ∧ active (st w) = active (st w0) ∧
  listeners (st w) = listeners (st w0) ∧ intervals (st w) = intervals (st w0) ∧
  mediaElements (st w) = mediaElements (st w0) ∧
  mousePosition (st w) = mousePosition (st w0) ∧
  originalHistoryMethods (st w) = originalHistoryMethods (st w0).

(** The view delivered by the flush of [stop]. *)
Definition final_view (w : world) (v : view) : view :=
  with_time (mkTime (startTime (v_time v)) (now (hst w)) (now (hst w))) v.

(** [P] does not look at the heap, the allocation pointer or the buffer
    reference. *)
Definition heap_blind (P : world → Prop) : Prop :=
  ∀ w h n r,
    P w → P (mkWorld (st_results r (st w)) h n (hst w) (delivered w) (uncaught w)).

(** ** Concrete worlds used to exercise the statements *)

Definition demo_page : page :=
  mkPage 800 600 0 0 "visible" "https://example.org/" "Mozilla" "Netscape"
         "Vendor" "Linux" "UA".

(** The script was just loaded at time 1000 on a page without media. *)
Definition demo_idle : world := initial_world 1000 [] demo_page.

(** ... and [start()] was called with the default configuration. *)
Definition demo_started : world := exec CallStart demo_idle.

Definition demo_click : event :=
  mkEvent "click" 10 20
    [mkElement "button" "btn primary" ["btn"; "primary"] "go";
     mkElement "div" "" [] "main";
     mkElement "body" "" [] "";
     mkElement "html" "" [] "";
     mkElement "" "" [] "";
     mkElement "" "" [] ""]
    "" "" [] JUndef.

(** [heap_ok], computed. *)
Definition heap_okb (w : world) : bool :=
  forallb (λ kv, kv.1 <? next_loc w) (map_to_list (hp w)).

(** A consumer that returns and writes nothing. *)
Definition quiet (c : consumer) : Prop :=
  ∀ l h, consumer_run c l h = CbReturn h.

(** ** Mouse sampling *)

(** Two samples with the same x and y. *)
Definition same_xy (p q : record) : Prop :=
  index p 0 = index q 0 ∧ index p 1 = index q 1.

Global Instance same_xy_dec p q : Decision (same_xy p q).
Proof. unfold same_xy. apply _. Defined.



(** The same for the flush callback. *)
Definition flusher_armed (i : nat) (w : world) : Prop :=
  ∃ t, find (λ t, bool_decide (t_id t = i)) (timers (hst w)) = Some t ∧
       t_task t = Flush.

(** A [mousemove] event at [(x, y)]. *)
Definition mousemove (x y : Z) : event :=
  mkEvent "mousemove" x y [] "" "" [] JUndef.

(** A session in which [(1, 1)] was sampled and recorded at the first
    tick. *)
Definition demo_sampled : world :=
  execs [Dispatch (mousemove 1 1); Fire 0] demo_started.

(** ** Sessions without an explicit flush *)

(** Inputs other than a call of [processResults()] or [stop()]. *)
Definition passive (i : input) : Prop :=
  i ≠ CallProcessResults ∧ i ≠ CallStop.

(** No armed interval runs the flush callback. *)
Definition no_flush_timer (w : world) : Prop :=
  Forall (λ t, t_task t ≠ Flush) (timers (hst w)).

(** An active session without flush timer in which the consumer was
    called as recorded in [D]. *)
Definition unflushed (D : list delivery) (w : world) : Prop :=
  active (st w) = true ∧ no_flush_timer w ∧ delivered w = D.

(** [config({ processTime: n })] *)
Definition only_processTime (n : Z) : Partial.t :=
  Partial.mk None None None None None None None (Some n) None None None None
             None None None None None.

(** A consumer other than [console.log]. *)
Definition other_consumer : consumer := mkConsumer 7 (λ _ h, CbReturn h).

(** [config({ clearAfterProcess: false, processData: other_consumer })] *)
Definition demo_reconfig : Partial.t :=
  Partial.mk None None None None None None (Some false) None None None None
             None None None None None (Some other_consumer).

(** ** Callbacks that raise *)

(** A consumer that throws and writes nothing. *)
Definition raising (c : consumer) : Prop :=
  ∀ l h, consumer_run c l h = CbThrow h.

Definition raising_consumer : consumer := mkConsumer 9 (λ _ h, CbThrow h).

(** [config({ processData: raising_consumer })] *)
Definition demo_raising_config : Partial.t :=
  Partial.mk None None None None None None None None None None None None
             None None None None (Some raising_consumer).

(** A session whose consumer raises. *)
Definition demo_raising : world :=
  execs [CallConfig demo_raising_config; CallStart] demo_idle.

(** A user handler that returns. *)
Definition quiet_handler : userHandler := mkUserHandler 5 (λ _ h, CbReturn h).

(** A custom event is registered before the first [start()]. *)
Definition demo_early_custom : world :=
  exec (CallRegisterCustomEvent "ping" quiet_handler) demo_idle.

(** ** Snapshots and the live buffer *)

(** [snapshot.mouseMovements.push(["forged"])] *)
Definition forge (snap : loc) (h : heap) : cb_result :=
  match read_results h snap with
  | Some r =>
      match read_array h (Results.mouseMovements r) with
      | Some a =>
          CbReturn (<[Results.mouseMovements r:=CArray (a ++ [[JStr "forged"]])]> h)
      | None => CbThrow h
      end
  | None => CbThrow h
  end.

(** A consumer that appends to a sequence of the snapshot it is given. *)
Definition forging_consumer : consumer := mkConsumer 11 forge.

(** [config({ clearAfterProcess: false })] *)
Definition demo_keep_config : Partial.t :=
  Partial.mk None None None None None None (Some false) None None None None
             None None None None None None.

(** [config({ clearAfterProcess: false, processData: forging_consumer })] *)
Definition demo_forging_config : Partial.t :=
  Partial.mk None None None None None None (Some false) None None None None
             None None None None None (Some forging_consumer).

(** A session that keeps its buffer over flushes, after one flush. *)
Definition demo_flushed : world :=
  execs [CallConfig demo_keep_config; CallStart; CallProcessResults] demo_idle.

(** The cells of the live buffer. *)
Definition live_footprint (w : world) : list loc :=
  match results (st w) with
  | Some l => footprint (hp w) l
  | None => []
  end.

(** ** Sessions with read-only callbacks and a clock that does not run
    backwards *)

(** User code that returns or throws without writing the heap. *)
Definition readonly_consumer (c : consumer) : Prop :=
  ∀ l h, consumer_run c l h = CbReturn h ∨ consumer_run c l h = CbThrow h.

Definition readonly_handler (u : userHandler) : Prop :=
  ∀ e h, uh_run u e h = CbReturn h ∨ uh_run u e h = CbThrow h.




(** A session with a flush in the middle. *)
Definition demo_session : list input :=
  [Dispatch (mousemove 3 4); Elapse 1000; Fire 0; CallProcessResults;
   Elapse 500; Dispatch demo_click].

(** * Observations used by the further properties *)

(** [config({})]: no key is given. *)
Definition no_keys : Partial.t :=
  Partial.mk None None None None None None None None None None None None
             None None None None None.

(** A tracker on which [start()] was never called: there is no buffer,
    nothing was allocated, the consumer was never called and no interval
    is armed. *)
Definition never_started (w : world) : Prop :=
  results (st w) = None ∧ active (st w) = false ∧ hp w = ∅ ∧
  delivered w = [] ∧ timers (hst w) = [] ∧ intervals (st w) = [].

(** The consumer was called as recorded in [D], or once more. *)
Definition at_most_one_more (D : list delivery) (w : world) : Prop :=
  delivered w = D ∨ ∃ d, delivered w = D ++ [d].

(** A user handler that writes the heap before it returns. *)
Definition scribbling_handler : userHandler :=
  mkUserHandler 6 (λ _ h, CbReturn (<[0:=CArray [[JStr "written"]]]> h)).

(** The armed intervals and the interval set of a running session. *)
Definition session_timers (ts : list timer) (ids : list nat) (w : world) : Prop :=
  active (st w) = true ∧ timers (hst w) = ts ∧ intervals (st w) = ids.

(** ** The parts of the buffer *)

(** The ten event sequences of the buffer. *)
Inductive seq_field :=
  | FMouseMovements
  | FMouseScroll
  | FKeyboardActivities
  | FNavigationHistory
  | FFormInteractions
  | FTouchEvents
  | FMediaInteractions
  | FWindowSizes
  | FVisibilityChanges
  | FCustomEvents.

Global Instance seq_field_eq_dec : EqDecision seq_field.
Proof. solve_decision. Defined.

Definition field_loc (k : seq_field) : Results.t → loc :=
  match k with
  | FMouseMovements => Results.mouseMovements
  | FMouseScroll => Results.mouseScroll
  | FKeyboardActivities => Results.keyboardActivities
  | FNavigationHistory => Results.navigationHistory
  | FFormInteractions => Results.formInteractions
  | FTouchEvents => Results.touchEvents
  | FMediaInteractions => Results.mediaInteractions
  | FWindowSizes => Results.windowSizes
  | FVisibilityChanges => Results.visibilityChanges
  | FCustomEvents => Results.customEvents
  end.

Definition field_view (k : seq_field) : view → list record :=
  match k with
  | FMouseMovements => v_mouseMovements
  | FMouseScroll => v_mouseScroll
  | FKeyboardActivities => v_keyboardActivities
  | FNavigationHistory => v_navigationHistory
  | FFormInteractions => v_formInteractions
  | FTouchEvents => v_touchEvents
  | FMediaInteractions => v_mediaInteractions
  | FWindowSizes => v_windowSizes
  | FVisibilityChanges => v_visibilityChanges
  | FCustomEvents => v_customEvents
  end.

Definition snoc_if (b : bool) (a : list record) (x : record) : list record :=
  if b then a ++ [x] else a.

(** The view [v] with [x] appended to the sequence [k] and nothing else
    changed. *)
Definition append_field (k : seq_field) (x : record) (v : view) : view :=
  mkView (v_userInfo v) (v_time v) (v_clickCount v) (v_clickDetails v)
    (snoc_if (bool_decide (k = FMouseMovements)) (v_mouseMovements v) x)
    (snoc_if (bool_decide (k = FMouseScroll)) (v_mouseScroll v) x)
    (snoc_if (bool_decide (k = FKeyboardActivities)) (v_keyboardActivities v) x)
    (snoc_if (bool_decide (k = FNavigationHistory)) (v_navigationHistory v) x)
    (snoc_if (bool_decide (k = FFormInteractions)) (v_formInteractions v) x)
    (snoc_if (bool_decide (k = FTouchEvents)) (v_touchEvents v) x)
    (snoc_if (bool_decide (k = FMediaInteractions)) (v_mediaInteractions v) x)
    (snoc_if (bool_decide (k = FWindowSizes)) (v_windowSizes v) x)
    (snoc_if (bool_decide (k = FVisibilityChanges)) (v_visibilityChanges v) x)
    (snoc_if (bool_decide (k = FCustomEvents)) (v_customEvents v) x).

(** The view [v] after one more click with the record [x]. *)
Definition click_view (x : record) (v : view) : view :=
  mkView (v_userInfo v) (v_time v) (v_clickCount v + 1) (v_clickDetails v ++ [x])
    (v_mouseMovements v) (v_mouseScroll v) (v_keyboardActivities v)
    (v_navigationHistory v) (v_formInteractions v) (v_touchEvents v)
    (v_mediaInteractions v) (v_windowSizes v) (v_visibilityChanges v)
    (v_customEvents v).

(** The live buffer is whole: it shows [v], and the objects and arrays it
    is made of are pairwise distinct. *)
Definition whole (w : world) (v : view) : Prop :=
  ∃ l, results (st w) = Some l ∧ read_view (hp w) l = Some v ∧
       NoDup (footprint (hp w) l).

(** [clickCount] counts the click records. *)
Definition count_ok (v : view) : Prop :=
  v_clickCount v = Z.of_nat (length (v_clickDetails v)).

(** What holds of the tracker whenever it is at rest between two inputs,
    as long as the callbacks it is given do not write the heap. *)
Definition tracker_ok (w : world) : Prop :=
  heap_ok w ∧
  readonly_consumer (Config.processData (config (st w))) ∧
  listeners_ok readonly_handler w ∧
  Forall (λ d, ∃ v, d_view d = Some v ∧ count_ok v) (delivered w) ∧
  match results (st w) with
  | None => active (st w) = false
  | Some _ =>
      ∃ v, whole w v ∧ count_ok v ∧
           (active (st w) = true → stopTime (v_time v) = 0%Z)
  end.

(** Inputs whose callbacks do not write the heap. *)
Definition input_wf (i : input) : Prop :=
  match i with
  | CallConfig p =>
      match Partial.processData p with
      | Some c => readonly_consumer c
      | None => True
      end
  | CallRegisterCustomEvent _ h => readonly_handler h
  | _ => True
  end.

(** The position of a sequence in the footprint of a readable buffer. *)
Definition field_index (k : seq_field) : nat :=
  match k with
  | FMouseMovements => 4
  | FMouseScroll => 5
  | FKeyboardActivities => 6
  | FNavigationHistory => 7
  | FFormInteractions => 8
  | FTouchEvents => 9
  | FMediaInteractions => 10
  | FWindowSizes => 11
  | FVisibilityChanges => 12
  | FCustomEvents => 13
  end.



(** ** The registries and the listeners *)

(** The listeners that [start] attaches with the three handlers of the
    module body. *)
Definition body_listener (l : wlistener) : Prop :=
  l = mkWL "mousemove" fn_handleMouseMove false ∨
  l = mkWL "click" fn_handleClick false ∨
  l = mkWL "submit" fn_handleFormSubmit true.

(** A navigation listener for one of the three event types whose entry
    in the listener registry is overwritten. *)
Definition stray_nav (l : wlistener) : Prop :=
  h_code (l_handler l) = HNav ∧
  l_type l ∈ ["popstate"; "pushstate"; "replacestate"]%string.

(** The listener registry holds an entry for [l]. *)
Definition registered (ls : list (nat * listenerRec)) (l : wlistener) : Prop :=
  ∃ kv, kv ∈ ls ∧
        same_listener (lr_type kv.2) (lr_handler kv.2)
                      (capture_of (lr_options kv.2)) l = true.

(** The media registry holds an entry for the listener [l] of the
    element [el]. *)
Definition media_registered (ms : list mediaRec) (el : nat)
    (l : string * handler) : Prop :=
  ∃ r, r ∈ ms ∧ mr_element r = el ∧
       same_el_listener (mr_event r) (mr_handler r) l = true.

(** How the registries follow the listeners: function identities are
    handed out in order; the registry is keyed by the identity of the
    handler; every window listener is in the registry, or is a stray
    navigation listener; every media listener is in the media registry. *)
Definition registry_ok (w : world) : Prop :=
  3 ≤ next_fn (hst w) ∧
  (∀ kv, kv ∈ listeners (st w) →
     kv.1 = h_id (lr_handler kv.2) ∧ kv.1 < next_fn (hst w)) ∧
  (∀ l, l ∈ window_listeners (hst w) →
     h_id (l_handler l) < next_fn (hst w) ∧
     (h_id (l_handler l) < 3 → body_listener l) ∧
     (stray_nav l ∨ registered (listeners (st w)) l)) ∧
  (∀ el x l, media (hst w) !! el = Some x → l ∈ el_listeners x →
     media_registered (mediaElements (st w)) el l).

(** A handler that the next [addListener] may attach for the type [t]
    with the options [o]. *)
Definition attachable (t : string) (h : handler) (o : option bool) (w : world)
  : Prop :=
  h_id h < next_fn (hst w) ∧
  (h_id h < 3 → body_listener (mkWL t h (capture_of o))) ∧
  (∀ l, l ∈ window_listeners (hst w) → h_id (l_handler l) = h_id h →
     stray_nav l ∨ (l_type l = t ∧ l_capture l = capture_of o)).

(** The cells of a result object that the tracker writes: the object
    itself, its time record, its click record and its arrays; not the
    [userInfo] record, which is only read. *)
Definition buffer_cells (h : heap) (l : loc) : list loc :=
  match read_results h l with
  | None => [l]
  | Some r =>
      l :: Results.time r :: Results.clicks r ::
      match read_clicks h (Results.clicks r) with
      | Some c => [clickDetails c]
      | None => []
      end ++
      [Results.mouseMovements r; Results.mouseScroll r;
       Results.keyboardActivities r; Results.navigationHistory r;
       Results.formInteractions r; Results.touchEvents r;
       Results.mediaInteractions r; Results.windowSizes r;
       Results.visibilityChanges r; Results.customEvents r]
  end.

Definition live_cells (w : world) : list loc :=
  match results (st w) with
  | Some l => buffer_cells (hp w) l
  | None => []
  end.

(** From [w] to [w'] the tracker wrote only cells of its live buffer and
    cells it allocated on the way: every other cell allocated in [w] is
    unchanged, and the live buffer of [w'] is made of cells of the live
    buffer of [w] and of new cells. *)
Definition writes_own (w w' : world) : Prop :=
  next_loc w ≤ next_loc w' ∧
  (∀ k, k < next_loc w → k ∉ live_cells w → hp w' !! k = hp w !! k) ∧
  (∀ k, k ∈ live_cells w' → k ∈ live_cells w ∨ next_loc w ≤ k).

(** What is carried through a run that started in [w0]. *)
Definition own_from (w0 w : world) : Prop := tracker_ok w ∧ writes_own w0 w.

(** ** The history entry points *)

Definition native_history : hist_fn * hist_fn :=
  (HistNative "pushState", HistNative "replaceState").

(** The proxies that [patchHistoryMethods] installs around the natives. *)
Definition patched_history : hist_fn * hist_fn :=
  (HistProxy (HistNative "pushState") "pushstate",
   HistProxy (HistNative "replaceState") "replacestate").

(** The saved entry points are the natives, the current ones are the
    natives or one proxy around each, and they are the natives while no
    session is running. *)
Definition history_ok (w : world) : Prop :=
  originalHistoryMethods (st w) = native_history ∧
  ((history_pushState (hst w), history_replaceState (hst w)) = native_history ∨
   (history_pushState (hst w), history_replaceState (hst w)) = patched_history) ∧
  (active (st w) = false →
   (history_pushState (hst w), history_replaceState (hst w)) = native_history).

(** The same during [start], when the session is marked as running. *)
Definition history_patching (w : world) : Prop :=
  originalHistoryMethods (st w) = native_history ∧
  ((history_pushState (hst w), history_replaceState (hst w)) = native_history ∨
   (history_pushState (hst w), history_replaceState (hst w)) = patched_history) ∧
  active (st w) = true.

(** A custom event [n] with the detail [d]. *)
Definition custom_event (n : string) (d : jsval) : event :=
  mkEvent n 0 0 [] "" "" [] d.

(** * Lemmas

    First the heap: what a read returns after a write, a push or an
    allocation.  Then the operations, each with the world it reaches.
    Then the invariants that hold over whole sessions. *)

Lemma read_fields_Some h r v :
  read_fields h r = Some v ↔
  read_userInfo h (Results.userInfo r) = Some (v_userInfo v) ∧
  read_time h (Results.time r) = Some (v_time v) ∧
  (∃ c, read_clicks h (Results.clicks r) = Some c ∧
        clickCount c = v_clickCount v ∧
        read_array h (clickDetails c) = Some (v_clickDetails v)) ∧
  read_array h (Results.mouseMovements r) = Some (v_mouseMovements v) ∧
  read_array h (Results.mouseScroll r) = Some (v_mouseScroll v) ∧
  read_array h (Results.keyboardActivities r) = Some (v_keyboardActivities v) ∧
  read_array h (Results.navigationHistory r) = Some (v_navigationHistory v) ∧
  read_array h (Results.formInteractions r) = Some (v_formInteractions v) ∧
  read_array h (Results.touchEvents r) = Some (v_touchEvents v) ∧
  read_array h (Results.mediaInteractions r) = Some (v_mediaInteractions v) ∧
  read_array h (Results.windowSizes r) = Some (v_windowSizes v) ∧
  read_array h (Results.visibilityChanges r) = Some (v_visibilityChanges v) ∧
  read_array h (Results.customEvents r) = Some (v_customEvents v).
Proof.
  unfold read_fields. split.
  - intros H. simplify_option_eq. simpl. repeat split; eauto.
  - intros (Hu & Ht & (c & Hc & Hn & Hd) & H1 & H2 & H3 & H4 & H5 & H6 & H7 & H8 & H9 & H10).
    rewrite Hu, Ht; simpl. rewrite Hc; simpl. rewrite Hd; simpl.
    rewrite H1, H2, H3, H4, H5, H6, H7, H8, H9, H10; simpl.
    rewrite Hn. by destruct v.
Qed.

Ltac store_cases l l' H :=
  destruct (decide (l = l')) as [<-|];
  [rewrite lookup_insert_eq, H | rewrite lookup_insert_ne by done; reflexivity].

(** Writing a cell over one of the same kind changes no read of another
    kind. *)
Lemma read_results_store h l c0 c l' :
  h !! l = Some c0 → kind c0 = kind c → kind c ≠ 0 →
  read_results (<[l:=c]> h) l' = read_results h l'.
Proof.
  intros H Hk Hn. unfold read_results. store_cases l l' H.
  by destruct c0, c.
Qed.

Lemma read_time_store h l c0 c l' :
  h !! l = Some c0 → kind c0 = kind c → kind c ≠ 1 →
  read_time (<[l:=c]> h) l' = read_time h l'.
Proof.
  intros H Hk Hn. unfold read_time. store_cases l l' H.
  by destruct c0, c.
Qed.

Lemma read_clicks_store h l c0 c l' :
  h !! l = Some c0 → kind c0 = kind c → kind c ≠ 2 →
  read_clicks (<[l:=c]> h) l' = read_clicks h l'.
Proof.
  intros H Hk Hn. unfold read_clicks. store_cases l l' H.
  by destruct c0, c.
Qed.

Lemma read_userInfo_store h l c0 c o :
  h !! l = Some c0 → kind c0 = kind c → kind c ≠ 3 →
  read_userInfo (<[l:=c]> h) o = read_userInfo h o.
Proof.
  intros H Hk Hn. unfold read_userInfo. destruct o as [l'|]; [|done].
  store_cases l l' H. by destruct c0, c.
Qed.

Lemma read_array_store h l c0 c l' :
  h !! l = Some c0 → kind c0 = kind c → kind c ≠ 4 →
  read_array (<[l:=c]> h) l' = read_array h l'.
Proof.
  intros H Hk Hn. unfold read_array. store_cases l l' H.
  by destruct c0, c.
Qed.

Lemma read_array_store_eq h l a : read_array (<[l:=CArray a]> h) l = Some a.
Proof. unfold read_array. by rewrite lookup_insert_eq. Qed.

Lemma read_array_store_ne h l c l' :
  l ≠ l' → read_array (<[l:=c]> h) l' = read_array h l'.
Proof. intros. unfold read_array. by rewrite lookup_insert_ne. Qed.

Lemma read_array_lookup h l a : read_array h l = Some a → h !! l = Some (CArray a).
Proof. unfold read_array. destruct (h !! l) as [[]|]; naive_solver. Qed.

Lemma read_time_lookup h l t : read_time h l = Some t → h !! l = Some (CTime t).
Proof. unfold read_time. destruct (h !! l) as [[]|]; naive_solver. Qed.

Lemma read_clicks_lookup h l c : read_clicks h l = Some c → h !! l = Some (CClicks c).
Proof. unfold read_clicks. destruct (h !! l) as [[]|]; naive_solver. Qed.

Lemma read_results_lookup h l r :
  read_results h l = Some r → h !! l = Some (CResults r).
Proof. unfold read_results. destruct (h !! l) as [[]|]; naive_solver. Qed.

(** Pushing onto an array: the arrays read after the push. *)
Lemma read_array_push h l a x l' b :
  read_array h l = Some a → read_array h l' = Some b →
  read_array (<[l:=CArray (a ++ [x])]> h) l' =
  Some (if decide (l = l') then b ++ [x] else b).
Proof.
  intros Ha Hb. case_decide as Hl.
  - subst. rewrite read_array_store_eq. congruence.
  - by rewrite read_array_store_ne.
Qed.

(** ** The click path *)

Lemma click_loop_spec els n i path :
  click_loop n i els path =
  path ++ map node_of (take (Z.to_nat (n - 2 - i)) els).
Proof.
  revert i path. induction els as [|el rest IH]; intros i path; simpl.
  - rewrite take_nil. simpl. by rewrite app_nil_r.
  - destruct (Z.geb_spec i (n - 2)) as [Hge|Hlt].
    + rewrite IH. replace (Z.to_nat (n - 2 - i)) with 0 by lia.
      replace (Z.to_nat (n - 2 - (i + 1))) with 0 by lia.
      by rewrite take_0.
    + rewrite IH.
      replace (Z.to_nat (n - 2 - i)) with (S (Z.to_nat (n - 2 - (i + 1)))) by lia.
      simpl. by rewrite <- app_assoc.
Qed.

Lemma click_path_spec e :
  click_path e =
  map node_of (take (length (composedPath e) - 2) (composedPath e)).
Proof.
  unfold click_path. rewrite click_loop_spec. simpl. do 2 f_equal. lia.
Qed.

Lemma read_fields_push h r v l a x c :
  read_fields h r = Some v →
  read_clicks h (Results.clicks r) = Some c →
  read_array h l = Some a →
  read_fields (<[l:=CArray (a ++ [x])]> h) r =
  Some (push_view l x r (clickDetails c) v).
Proof.
  intros H Hc Ha.
  apply read_fields_Some in H
    as (Hu & Ht & (c' & Hc' & Hn & Hd) & H1 & H2 & H3 & H4 & H5 & H6 & H7 & H8 & H9 & H10).
  assert (c' = c) as -> by congruence.
  pose proof (read_array_lookup _ _ _ Ha) as Hl.
  apply read_fields_Some. simpl.
  rewrite (read_userInfo_store _ _ _ _ _ Hl), (read_time_store _ _ _ _ _ Hl),
    (read_clicks_store _ _ _ _ _ Hl) by done.
  unfold pushed.
  repeat split; try done; [exists c; repeat split; try done|..];
    by apply read_array_push.
Qed.

Lemma pushed_same l x b : pushed l x l b = b ++ [x].
Proof. unfold pushed. by rewrite decide_True. Qed.

(** ** Monad steps *)

Lemma live_ok w l r :
  results (st w) = Some l → read_results (hp w) l = Some r →
  live w = Ok (l, r) w.
Proof. intros Hl Hr. unfold live. by rewrite Hl, Hr. Qed.

Lemma push_ok l x w a :
  read_array (hp w) l = Some a →
  push l x w = Ok tt (set_hp (λ h, <[l:=CArray (a ++ [x])]> h) w).
Proof. intros Ha. unfold push, bind, load_array. by rewrite Ha. Qed.

Lemma push_field_ok f x w l r a :
  results (st w) = Some l → read_results (hp w) l = Some r →
  read_array (hp w) (f r) = Some a →
  push_field f x w = Ok tt (set_hp (λ h, <[f r:=CArray (a ++ [x])]> h) w).
Proof.
  intros Hl Hr Ha. unfold push_field, bind. rewrite (live_ok _ _ _ Hl Hr).
  simpl. by apply push_ok.
Qed.

Lemma read_live_Some w v :
  read_live w = Some v ↔
  ∃ l r, results (st w) = Some l ∧ read_results (hp w) l = Some r ∧
         read_fields (hp w) r = Some v.
Proof.
  unfold read_live, read_view. split.
  - intros H. destruct (results (st w)) as [l|]; [|done]. simpl in H.
    destruct (read_results (hp w) l) as [r|] eqn:Hr; [|done]. eauto.
  - intros (l & r & -> & Hr & Hf). simpl. by rewrite Hr.
Qed.

Ltac msimpl :=
  cbn [bind get alloc modify ret when throw store getTimestamp
       set_st set_hp set_hst
       st_config st_active st_listeners st_intervals st_mediaElements
       st_results st_mousePosition
       h_now h_window_listeners h_timers h_next_fn h_history h_media h_page
       st hp next_loc hst delivered uncaught
       config active listeners intervals mediaElements results mousePosition
       originalHistoryMethods
       now window_listeners timers next_timer next_fn history_pushState
       history_replaceState media pg fst snd].

Ltac lookups :=
  repeat first [rewrite lookup_insert_eq | rewrite lookup_insert_ne by lia].

(** What [resetResults] builds: a buffer at a fresh reference whose
    sequences are empty, next to an untouched old heap. *)
Lemma resetResults_spec w :
  ∃ l r h' n',
    resetResults w =
      Ok tt (mkWorld (st_results (Some l) (st w)) h' n' (hst w)
                     (delivered w) (uncaught w)) ∧
    next_loc w ≤ l ∧ l < n' ∧
    (∀ k, k < next_loc w → h' !! k = hp w !! k) ∧
    (∀ k, n' ≤ k → h' !! k = hp w !! k) ∧
    h' !! l = Some (CResults r) ∧
    read_userInfo h' (Results.userInfo r) =
      Some (if Config.userInfo (config (st w))
            then Some (fresh_userInfo (pg (hst w))) else None) ∧
    (∀ uo x, read_userInfo h' uo = Some x →
       read_fields h' (Results.with_userInfo uo r) = Some (empty_view x)).
Proof.
  unfold resetResults. msimpl.
  destruct (Config.userInfo (config (st w))); msimpl;
    (eexists _, _, _, _; split; [reflexivity|]);
    (split; [lia|]); (split; [lia|]);
    (split; [intros k Hk; by lookups|]);
    (split; [intros k Hk; by lookups|]);
    (split; [by lookups|]);
    (split; [unfold read_userInfo; cbn [Results.userInfo]; by lookups|]);
    intros uo x Hx; apply read_fields_Some;
    unfold read_time, read_clicks, read_array; cbn [Results.with_userInfo
      Results.userInfo Results.time Results.clicks Results.mouseMovements
      Results.mouseScroll Results.keyboardActivities Results.navigationHistory
      Results.formInteractions Results.touchEvents Results.mediaInteractions
      Results.windowSizes Results.visibilityChanges Results.customEvents
      empty_view v_userInfo v_time v_clickCount v_clickDetails v_mouseMovements
      v_mouseScroll v_keyboardActivities v_navigationHistory v_formInteractions
      v_touchEvents v_mediaInteractions v_windowSizes v_visibilityChanges
      v_customEvents];
    lookups; repeat split; try done;
    (eexists; lookups; split; [reflexivity|]; split; [reflexivity|];
     cbn [clickDetails]; by lookups).
Qed.

Lemma read_userInfo_frame (h h' : heap) n o x :
  (∀ k, n ≤ k → h !! k = None) →
  (∀ k, k < n → h' !! k = h !! k) →
  read_userInfo h o = Some x → read_userInfo h' o = Some x.
Proof.
  intros Hok Hfr. unfold read_userInfo. destruct o as [u|]; [|done].
  destruct (decide (u < n)) as [Hlt|Hge].
  - by rewrite Hfr.
  - by rewrite Hok by lia.
Qed.

(** Rebinding the [userInfo] field of the buffer object, as
    [Object.assign] does, changes no read below it. *)
Lemma read_fields_store_results h l r0 r1 r :
  h !! l = Some (CResults r0) →
  read_fields (<[l:=CResults r1]> h) r = read_fields h r.
Proof.
  intros Hl. unfold read_fields.
  rewrite (read_userInfo_store _ _ _ _ _ Hl), (read_time_store _ _ _ _ _ Hl),
    (read_clicks_store _ _ _ _ _ Hl) by done.
  destruct (read_userInfo h _); [|done]. simpl.
  destruct (read_time h _); [|done]. simpl.
  destruct (read_clicks h _); [|done]. simpl.
  by rewrite !(read_array_store _ _ _ _ _ Hl) by done.
Qed.

Lemma clear_step_keep w :
  Config.clearAfterProcess (config (st w)) = false → clear_step w = Ok tt w.
Proof. intros H. unfold clear_step. msimpl. by rewrite H. Qed.

Lemma clear_step_clear w v :
  heap_ok w → read_live w = Some v →
  Config.clearAfterProcess (config (st w)) = true →
  ∃ l' h' n',
    let w' := mkWorld (st_results (Some l') (st w)) h' n' (hst w)
                      (delivered w) (uncaught w) in
    clear_step w = Ok tt w' ∧
    heap_ok w' ∧
    next_loc w ≤ l' ∧
    (∀ k, k < next_loc w → h' !! k = hp w !! k) ∧
    read_live w' =
      Some (empty_view (if Config.userInfo (config (st w))
                        then v_userInfo v else None)).
Proof.
  intros Hok Hv Hc. apply read_live_Some in Hv as (l & r & Hl & Hr & Hf).
  destruct (resetResults_spec w)
    as (l' & r' & h' & n' & Hreset & Hle & Hlt & Hlow & Hhigh & Hl' & Hui & Hfields).
  pose proof Hf as Hf0. apply read_fields_Some in Hf as (Hu & _).
  unfold clear_step. msimpl. rewrite Hc.
  destruct (Config.userInfo (config (st w))) eqn:Hcu.
  - exists l', (<[l':=CResults (Results.with_userInfo (Results.userInfo r) r')]> h'), n'.
    cbn zeta. split; [|split; [|split; [|split]]].
    + unfold bind. rewrite (live_ok _ _ _ Hl Hr). msimpl. rewrite Hreset.
      unfold live. msimpl. unfold read_results. by rewrite Hl'.
    + intros k Hk. cbn [hp next_loc] in *.
      rewrite lookup_insert_ne by lia. rewrite Hhigh by done. apply Hok. lia.
    + done.
    + intros k Hk. cbn [hp]. rewrite lookup_insert_ne by lia. by apply Hlow.
    + apply read_live_Some. exists l', (Results.with_userInfo (Results.userInfo r) r').
      cbn [st hp results st_results].
      split; [done|]. split; [unfold read_results; by rewrite lookup_insert_eq|].
      rewrite (read_fields_store_results _ _ _ _ _ Hl').
      apply Hfields. by eapply read_userInfo_frame.
  - exists l', h', n'. cbn zeta. split; [|split; [|split; [|split]]].
    + unfold bind. msimpl. by rewrite Hreset.
    + intros k Hk. cbn [hp next_loc] in *. rewrite Hhigh by done. apply Hok. lia.
    + done.
    + done.
    + apply read_live_Some. exists l', r'. cbn [st hp results st_results].
      split; [done|]. split; [unfold read_results; by rewrite Hl'|].
      specialize (Hfields (Results.userInfo r') None Hui).
      by destruct r'.
Qed.

(** ** Allocation leaves what was readable readable *)

Ltac fresh_cases n l Hn :=
  destruct (decide (n = l)) as [<-|];
  [rewrite Hn; done | rewrite lookup_insert_ne by done; done].

Lemma read_results_fresh h n c l r :
  h !! n = None → read_results h l = Some r →
  read_results (<[n:=c]> h) l = Some r.
Proof. unfold read_results. intros Hn. fresh_cases n l Hn. Qed.

Lemma read_time_fresh h n c l t :
  h !! n = None → read_time h l = Some t → read_time (<[n:=c]> h) l = Some t.
Proof. unfold read_time. intros Hn. fresh_cases n l Hn. Qed.

Lemma read_clicks_fresh h n c l x :
  h !! n = None → read_clicks h l = Some x →
  read_clicks (<[n:=c]> h) l = Some x.
Proof. unfold read_clicks. intros Hn. fresh_cases n l Hn. Qed.

Lemma read_array_fresh h n c l a :
  h !! n = None → read_array h l = Some a → read_array (<[n:=c]> h) l = Some a.
Proof. unfold read_array. intros Hn. fresh_cases n l Hn. Qed.

Lemma read_userInfo_fresh h n c o x :
  h !! n = None → read_userInfo h o = Some x →
  read_userInfo (<[n:=c]> h) o = Some x.
Proof.
  unfold read_userInfo. intros Hn. destruct o as [l|]; [|done].
  fresh_cases n l Hn.
Qed.

Lemma read_fields_fresh h n c r v :
  h !! n = None → read_fields h r = Some v →
  read_fields (<[n:=c]> h) r = Some v.
Proof.
  intros Hn H. apply read_fields_Some in H
    as (Hu & Ht & (x & Hc & Hk & Hd) & H1 & H2 & H3 & H4 & H5 & H6 & H7 & H8 & H9 & H10).
  apply read_fields_Some.
  repeat split; try (by apply read_array_fresh);
    [by apply read_userInfo_fresh | by apply read_time_fresh |].
  exists x. repeat split; [by apply read_clicks_fresh | done |].
  by apply read_array_fresh.
Qed.

Lemma read_fields_store_time h r v t :
  read_fields h r = Some v →
  read_fields (<[Results.time r:=CTime t]> h) r = Some (with_time t v).
Proof.
  intros H. apply read_fields_Some in H
    as (Hu & Ht & (x & Hc & Hk & Hd) & H1 & H2 & H3 & H4 & H5 & H6 & H7 & H8 & H9 & H10).
  pose proof (read_time_lookup _ _ _ Ht) as Hl.
  apply read_fields_Some. cbn [with_time v_userInfo v_time v_clickCount
    v_clickDetails v_mouseMovements v_mouseScroll v_keyboardActivities
    v_navigationHistory v_formInteractions v_touchEvents v_mediaInteractions
    v_windowSizes v_visibilityChanges v_customEvents].
  rewrite (read_userInfo_store _ _ _ _ _ Hl), (read_clicks_store _ _ _ _ _ Hl),
    !(read_array_store _ _ _ _ _ Hl) by done.
  repeat split; try done.
  - unfold read_time. by rewrite lookup_insert_eq.
  - exists x. by rewrite (read_array_store _ _ _ _ _ Hl).
Qed.

Lemma processResults_prefix w l r v :
  heap_ok w →
  results (st w) = Some l → read_results (hp w) l = Some r →
  read_fields (hp w) r = Some v →
  let w2 := at_consumer w r v in
  heap_ok w2 ∧
  read_results (hp w2) l = Some r ∧
  read_fields (hp w2) r = Some (flushed_view w v) ∧
  processResults w =
    match consumer_run (Config.processData (config (st w))) (next_loc w) (hp w2)
    with
    | CbReturn h3 => clear_step (set_hp (λ _, h3) w2)
    | CbThrow h3 => Throw (set_hp (λ _, h3) w2)
    end.
Proof.
  intros Hok Hl Hr Hf. cbn zeta.
  pose proof Hf as Hf0. apply read_fields_Some in Hf as (_ & Ht & _).
  pose proof (read_time_lookup _ _ _ Ht) as Htl.
  assert (hp w !! next_loc w = None) as Hfresh by (apply Hok; lia).
  set (t1 := stamp_current (now (hst w)) (v_time v)).
  assert (read_results (<[Results.time r:=CTime t1]> (hp w)) l = Some r) as Hr1.
  { by rewrite (read_results_store _ _ _ _ _ Htl). }
  assert (<[Results.time r:=CTime t1]> (hp w) !! next_loc w = None) as Hfresh1.
  { rewrite lookup_insert_ne; [done|]. intros Heq. rewrite Heq in Htl. congruence. }
  pose proof (read_fields_store_time _ _ _ t1 Hf0) as Hf1.
  split; [|split; [|split]].
  - intros k Hk. cbn [at_consumer hp next_loc] in *.
    rewrite lookup_insert_ne by lia. rewrite lookup_insert_ne.
    + apply Hok. lia.
    + intros Heq. rewrite Heq, Hok in Htl by lia. done.
  - cbn [at_consumer hp]. by apply read_results_fresh.
  - cbn [at_consumer hp]. by apply read_fields_fresh.
  - unfold processResults at 1. unfold bind at 1.
    rewrite (live_ok _ _ _ Hl Hr). cbn [snd].
    unfold bind at 1. unfold load_time. rewrite Ht.
    unfold bind at 1. msimpl.
    unfold bind at 1. msimpl.
    unfold bind at 1.
    rewrite (live_ok _ l r) by done. cbn [snd].
    unfold bind at 1. msimpl.
    unfold bind at 1. msimpl.
    unfold bind at 1. unfold call_consumer at 1. unfold log_delivery, at_consumer.
    msimpl. fold t1. fold t1 in Hf1.
    unfold read_view, read_results. rewrite lookup_insert_eq. cbn [mbind option_bind].
    rewrite (read_fields_fresh _ _ _ _ _ Hfresh1 Hf1).
    unfold flushed_view. fold t1.
    destruct (consumer_run _ _ _); reflexivity.
Qed.

(** ** Reads in a heap that only grew above the allocation pointer *)

Ltac ext_cases Hok Hfr l n :=
  destruct (decide (l < n)) as [?|?];
  [by rewrite Hfr | by rewrite Hok by lia].

Section Ext.
Context (h h' : heap) (n : nat).
Hypothesis Hok : ∀ k, n ≤ k → h !! k = None.
Hypothesis Hfr : ∀ k, k < n → h' !! k = h !! k.

Lemma read_results_ext l r :
  read_results h l = Some r → read_results h' l = Some r.
Proof using Hok Hfr. unfold read_results. ext_cases Hok Hfr l n. Qed.

Lemma read_time_ext l t : read_time h l = Some t → read_time h' l = Some t.
Proof using Hok Hfr. unfold read_time. ext_cases Hok Hfr l n. Qed.

Lemma read_clicks_ext l c :
  read_clicks h l = Some c → read_clicks h' l = Some c.
Proof using Hok Hfr. unfold read_clicks. ext_cases Hok Hfr l n. Qed.

Lemma read_array_ext l a : read_array h l = Some a → read_array h' l = Some a.
Proof using Hok Hfr. unfold read_array. ext_cases Hok Hfr l n. Qed.

Lemma read_fields_ext r v : read_fields h r = Some v → read_fields h' r = Some v.
Proof using Hok Hfr.
  intros H. apply read_fields_Some in H
    as (Hu & Ht & (x & Hc & Hk & Hd) & H1 & H2 & H3 & H4 & H5 & H6 & H7 & H8 & H9 & H10).
  apply read_fields_Some.
  repeat split; try (by apply read_array_ext);
    [by eapply read_userInfo_frame | by apply read_time_ext |].
  exists x. repeat split; [by apply read_clicks_ext | done |].
  by apply read_array_ext.
Qed.
End Ext.

Lemma clone_array_ok w l a :
  read_array (hp w) l = Some a →
  clone_array l w =
    Ok (next_loc w)
       (mkWorld (st w) (<[next_loc w:=CArray a]> (hp w)) (S (next_loc w))
                (hst w) (delivered w) (uncaught w)).
Proof. intros H. unfold clone_array, bind, load_array. by rewrite H. Qed.

Lemma load_time_ok w l t : read_time (hp w) l = Some t → load_time l w = Ok t w.
Proof. intros H. unfold load_time. by rewrite H. Qed.

Lemma load_clicks_ok w l c :
  read_clicks (hp w) l = Some c → load_clicks l w = Ok c w.
Proof. intros H. unfold load_clicks. by rewrite H. Qed.

Lemma clone_userInfo_ok w o x :
  read_userInfo (hp w) o = Some x →
  ∃ o' h' n',
    clone_userInfo o w =
      Ok o' (mkWorld (st w) h' n' (hst w) (delivered w) (uncaught w)) ∧
    next_loc w ≤ n' ∧
    (∀ k, k < next_loc w → h' !! k = hp w !! k) ∧
    (∀ k, n' ≤ k → h' !! k = hp w !! k) ∧
    read_userInfo h' o' = Some x ∧
    (∀ u, o' = Some u → next_loc w ≤ u < n').
Proof.
  unfold read_userInfo, clone_userInfo. destruct o as [u|].
  - destruct (hp w !! u) as [[]|] eqn:Hu; try done. intros [= <-].
    unfold bind, load_userInfo. rewrite Hu. msimpl.
    eexists _, _, _. split; [reflexivity|].
    split; [lia|]. split; [intros; by lookups|]. split; [intros; by lookups|].
    split; [by lookups|]. intros ? [= <-]. lia.
  - intros [= <-]. exists None, (hp w), (next_loc w). destruct w. by repeat split.
Qed.

Ltac ext_read Hok :=
  first [eapply read_array_ext | eapply read_time_ext | eapply read_clicks_ext];
  [exact Hok | intros; cbn [hp]; by lookups | eassumption].

(** [getResults] on a readable buffer: a copy made of new cells only,
    showing what the live buffer shows. *)
Lemma getResults_spec w v :
  heap_ok w → read_live w = Some v →
  ∃ s r' h' n',
    let w' := mkWorld (st w) h' n' (hst w) (delivered w) (uncaught w) in
    getResults w = Ok (Some s) w' ∧
    heap_ok w' ∧
    next_loc w ≤ n' ∧
    (∀ k, k < next_loc w → h' !! k = hp w !! k) ∧
    read_results h' s = Some r' ∧
    read_fields h' r' = Some v ∧
    read_live w' = Some v ∧
    Forall (λ k, next_loc w ≤ k) (footprint h' s).
Proof.
  intros Hok Hv. apply read_live_Some in Hv as (l & r & Hl & Hr & Hf).
  pose proof Hf as Hf0. apply read_fields_Some in Hf
      as (Hu & Ht & (x & Hc & Hk & Hd) & H1 & H2 & H3 & H4 & H5 & H6 & H7 & H8 & H9 & H10).
  destruct (clone_userInfo_ok w _ _ Hu)
    as (o' & h0 & n0 & Hcu & Hn0 & Hlow & Hhigh & Hu' & Hfresh).
  assert (Hok0 : ∀ k, n0 ≤ k → h0 !! k = None).
  { intros k Hge. rewrite Hhigh by done. apply Hok. lia. }
  pose proof (read_fields_ext (hp w) h0 (next_loc w) Hok Hlow r v Hf0) as Hf1.
  apply read_fields_Some in Hf1
      as (_ & Ht' & (x' & Hc' & Hk' & Hd') & H1' & H2' & H3' & H4' & H5' & H6' & H7' & H8' & H9' & H10').
  unfold getResults. unfold bind at 1. msimpl. rewrite Hl.
  unfold bind at 1.
  unfold structuredClone. unfold bind at 1. unfold load_results. rewrite Hr.
  unfold bind at 1. rewrite Hcu.
  unfold bind at 1. erewrite load_time_ok by (cbn [hp]; eassumption).
  unfold bind at 1. msimpl.
  unfold bind at 1. erewrite load_clicks_ok by (cbn [hp]; ext_read Hok0).
  unfold bind at 1. erewrite clone_array_ok by (cbn [hp]; ext_read Hok0).
  unfold bind at 1. msimpl.
  do 10 (unfold bind at 1; erewrite clone_array_ok by (cbn [hp]; ext_read Hok0);
         msimpl).
  eexists _, _, _, _. cbn zeta. split; [reflexivity|].
  split; [|split; [|split; [|split; [|split; [|split]]]]].
  - intros k Hge. cbn [hp next_loc] in *. lookups. apply Hok0. lia.
  - lia.
  - intros k Hlt. lookups. by apply Hlow.
  - unfold read_results. by lookups.
  - apply read_fields_Some.
    unfold read_time, read_clicks, read_array.
    cbn [Results.userInfo Results.time Results.clicks Results.mouseMovements
      Results.mouseScroll Results.keyboardActivities Results.navigationHistory
      Results.formInteractions Results.touchEvents Results.mediaInteractions
      Results.windowSizes Results.visibilityChanges Results.customEvents].
    lookups. split.
    { destruct o' as [u|]; [|done]. specialize (Hfresh u eq_refl).
      unfold read_userInfo in *. by lookups. }
    repeat split; try done.
    eexists; lookups; split; [reflexivity|]; split; [done|].
    cbn [clickDetails]; by lookups.
  - apply read_live_Some. exists l, r. cbn [st hp]. split; [done|].
    split.
    + eapply read_results_ext; [exact Hok| |exact Hr]. intros; lookups. by apply Hlow.
    + eapply read_fields_ext; [exact Hok| |exact Hf0]. intros; lookups. by apply Hlow.
  - unfold footprint, read_results, read_clicks. lookups.
    cbn [Results.userInfo Results.time Results.clicks Results.mouseMovements
      Results.mouseScroll Results.keyboardActivities Results.navigationHistory
      Results.formInteractions Results.touchEvents Results.mediaInteractions
      Results.windowSizes Results.visibilityChanges Results.customEvents].
    lookups. cbn [clickDetails].
    repeat (apply Forall_cons; split; [lia|]).
    apply Forall_app. split.
    + destruct o' as [u|]; [|by apply Forall_nil].
      apply Forall_cons. split; [|by apply Forall_nil].
      specialize (Hfresh u eq_refl). lia.
    + apply Forall_nil.
  Unshelve. all: exact I.
Qed.

(** ** Keeping an invariant through monadic code *)

Lemma hoare_bind {A B} P (m : M A) Q (k : A → M B) R E :
  hoare P m Q E → (∀ a, hoare (Q a) (k a) R E) → hoare P (bind m k) R E.
Proof.
  intros Hm Hk w Hw. unfold bind. specialize (Hm w Hw).
  destruct (m w) as [a w'|w']; [by apply Hk|done].
Qed.

Lemma hoare_weaken {A} (P P' : world → Prop) (m : M A) Q E :
  (∀ w, P' w → P w) → hoare P m Q E → hoare P' m Q E.
Proof. intros HP Hm w Hw. apply Hm. by apply HP. Qed.

Lemma preserves_after {A} P (m : M A) w : preserves P m → P w → P (after (m w)).
Proof. intros Hm Hw. specialize (Hm w Hw). by destruct (m w). Qed.

Lemma preserves_bind {A B} P (m : M A) (k : A → M B) :
  preserves P m → (∀ a, preserves P (k a)) → preserves P (bind m k).
Proof. intros Hm Hk. by eapply hoare_bind. Qed.

Lemma preserves_ret {A} P (a : A) : preserves P (ret a).
Proof. by intros w Hw. Qed.

Lemma preserves_get {A} P (f : world → A) : preserves P (get f).
Proof. by intros w Hw. Qed.

Lemma preserves_throw {A} P : preserves P (@throw A).
Proof. by intros w Hw. Qed.

Lemma preserves_modify P f : (∀ w, P w → P (f w)) → preserves P (modify f).
Proof. intros Hf w Hw. by apply Hf. Qed.

Lemma preserves_forEach {A} P (l : list A) (f : A → M unit) :
  (∀ a, a ∈ l → preserves P (f a)) → preserves P (forEach l f).
Proof.
  induction l as [|a l IH]; intros Hf; cbn [forEach].
  - apply preserves_ret.
  - apply preserves_bind.
    + apply Hf. by left.
    + intros _. apply IH. intros b Hb. apply Hf. by right.
Qed.

Lemma preserves_host_call P m :
  (∀ w, P w → P (reported w)) → preserves P m → preserves P (host_call m).
Proof.
  intros Hr Hm w Hw. unfold host_call. specialize (Hm w Hw).
  destruct (m w) as [a w'|w']; [done|by apply Hr].
Qed.

Lemma preserves_live P : preserves P live.
Proof.
  intros w Hw. unfold live. destruct (results (st w)) as [l|]; [|done].
  by destruct (read_results (hp w) l).
Qed.

Lemma hoare_load_clicks P l :
  hoare P (load_clicks l) (λ c w, P w ∧ read_clicks (hp w) l = Some c) P.
Proof.
  intros w Hw. unfold load_clicks.
  destruct (read_clicks (hp w) l) eqn:H; [by split|done].
Qed.

Lemma hoare_load_time P l :
  hoare P (load_time l) (λ t w, P w ∧ read_time (hp w) l = Some t) P.
Proof.
  intros w Hw. unfold load_time.
  destruct (read_time (hp w) l) eqn:H; [by split|done].
Qed.

Lemma hoare_load_array P l :
  hoare P (load_array l) (λ a w, P w ∧ read_array (hp w) l = Some a) P.
Proof.
  intros w Hw. unfold load_array.
  destruct (read_array (hp w) l) eqn:H; [by split|done].
Qed.

(** ** The handlers keep every invariant that is stable under what
    handlers do *)

Section Handlers.
Variable P : world → Prop.
Variable ok : userHandler → Prop.

Hypothesis P_mouse : ∀ w p, P w → P (set_st (st_mousePosition p) w).
Hypothesis P_reported : ∀ w, P w → P (reported w).
Hypothesis P_push : ∀ w l a x,
  P w → read_array (hp w) l = Some a →
  P (set_hp (λ h, <[l:=CArray (a ++ [x])]> h) w).
Hypothesis P_count : ∀ w l c n,
  P w → read_clicks (hp w) l = Some c →
  P (set_hp (λ h, <[l:=CClicks (mkClicks n (clickDetails c))]> h) w).
Hypothesis P_user : ∀ w u e, P w → ok u → P (after (call_userHandler u e w)).
Hypothesis P_listeners : ∀ w, P w → listeners_ok ok w.

Lemma preserves_push l x : preserves P (push l x).
Proof using P_push.
  eapply hoare_bind; [apply hoare_load_array|].
  intros a w [Hw Ha]. by apply P_push.
Qed.

Lemma preserves_push_field f x : preserves P (push_field f x).
Proof using P_push.
  apply preserves_bind; [apply preserves_live|].
  intros a. apply preserves_push.
Qed.

Lemma preserves_handleClick e : preserves P (handleClick e).
Proof using P_push P_count.
  apply preserves_bind; [apply preserves_live|]. intros lr.
  eapply hoare_bind; [apply hoare_load_clicks|]. intros c.
  eapply hoare_bind with (Q := λ _, P).
  { intros w [Hw Hc]. by apply P_count. }
  intros _. apply preserves_bind; [apply preserves_get|].
  intros ts. apply preserves_push.
Qed.

Lemma preserves_handleMouseMove e : preserves P (handleMouseMove e).
Proof using P_mouse.
  apply preserves_bind; [apply preserves_get|]. intros ts.
  apply preserves_modify. intros w. apply P_mouse.
Qed.

Lemma preserves_call_userHandler u e :
  ok u → preserves P (call_userHandler u e).
Proof using P_user.
  intros Hu w Hw. specialize (P_user w u e Hw Hu).
  by destruct (call_userHandler u e w).
Qed.

Lemma preserves_run_handler h e :
  handler_ok ok h → preserves P (run_handler h e).
Proof using P_mouse P_push P_count P_user.
  unfold handler_ok, run_handler. intros Hh.
  destruct (h_code h) as [| | | | | | | | |el|name u].
  - apply preserves_handleMouseMove.
  - apply preserves_handleClick.
  - do 2 (apply preserves_bind; [apply preserves_get|]; intros ?).
    apply preserves_push_field.
  - do 2 (apply preserves_bind; [apply preserves_get|]; intros ?).
    apply preserves_push_field.
  - do 2 (apply preserves_bind; [apply preserves_get|]; intros ?).
    apply preserves_push_field.
  - apply preserves_bind; [apply preserves_get|]; intros ?.
    apply preserves_push_field.
  - do 2 (apply preserves_bind; [apply preserves_get|]; intros ?).
    apply preserves_push_field.
  - apply preserves_bind; [apply preserves_get|]; intros ?.
    apply preserves_push_field.
  - destruct (touches e) as [|[x y] ?]; [apply preserves_throw|].
    apply preserves_bind; [apply preserves_get|]; intros ?.
    apply preserves_push_field.
  - apply preserves_bind; [apply preserves_get|]; intros m.
    destruct (m !! el); [|apply preserves_throw].
    apply preserves_bind; [apply preserves_get|]; intros ?.
    apply preserves_push_field.
  - apply preserves_bind; [apply preserves_get|]; intros ?.
    apply preserves_bind; [apply preserves_push_field|]. intros _.
    by apply preserves_call_userHandler.
Qed.

Lemma preserves_dispatchEvent e : preserves P (dispatchEvent e).
Proof using All.
  eapply hoare_bind with
    (Q := λ ls w, P w ∧ Forall (λ l, handler_ok ok (l_handler l)) ls).
  { intros w Hw. split; [done|]. by apply P_listeners. }
  intros ls. intros w [Hw Hls]. revert w Hw.
  apply preserves_forEach. intros l Hl.
  apply preserves_host_call; [done|]. apply preserves_run_handler.
  apply list_elem_of_filter in Hl as [_ Hl].
  by eapply Forall_forall in Hls.
Qed.

Lemma preserves_dispatchMedia el e : preserves P (dispatchMedia el e).
Proof using All.
  eapply hoare_bind with
    (Q := λ m w, P w ∧
            Forall (λ x, Forall (λ l, handler_ok ok l.2) (el_listeners x)) m).
  { intros w Hw. split; [done|]. by apply P_listeners. }
  intros m w [Hw Hm]. revert w Hw.
  destruct (m !! el) as [x|] eqn:Hx; [|apply preserves_ret].
  apply preserves_forEach. intros l Hl.
  apply preserves_host_call; [done|]. apply preserves_run_handler.
  apply list_elem_of_filter in Hl as [_ Hl].
  eapply Forall_lookup in Hm; [|exact Hx].
  by eapply Forall_forall in Hm.
Qed.

Lemma preserves_call_history f : preserves P (call_history f).
Proof using All.
  induction f as [name|target IH ev]; cbn [call_history].
  - apply preserves_ret.
  - apply preserves_bind; [done|]. intros _.
    apply preserves_bind; [apply preserves_dispatchEvent|]. intros _.
    apply preserves_dispatchEvent.
Qed.

Lemma preserves_sampleMouse : preserves P sampleMouse.
Proof using P_push.
  apply preserves_bind; [apply preserves_get|]. intros [p|]; [|apply preserves_ret].
  apply preserves_bind; [apply preserves_live|]. intros lr.
  eapply hoare_bind; [apply hoare_load_array|]. intros a.
  eapply hoare_weaken with (P := P); [by intros ? []|].
  destruct (_ || _); [apply preserves_push_field|apply preserves_ret].
Qed.
End Handlers.

(** ** Code that cannot throw *)

Lemma total_ret {A} (P : world → Prop) (a : A) E : hoare P (ret a) (λ _, P) E.
Proof. by intros w Hw. Qed.

Lemma total_get {A} (P : world → Prop) (f : world → A) E :
  hoare P (get f) (λ a w, P w ∧ a = f w) E.
Proof. by intros w Hw. Qed.

Lemma total_modify (P Q : world → Prop) f E :
  (∀ w, P w → Q (f w)) → hoare P (modify f) (λ _, Q) E.
Proof. intros Hf w Hw. by apply Hf. Qed.

Lemma total_when (P : world → Prop) b m E :
  hoare P m (λ _, P) E → hoare P (when b m) (λ _, P) E.
Proof. destruct b; [done|]. intros _. apply total_ret. Qed.

Lemma total_forEach {A} (P E : world → Prop) (l : list A) (f : A → M unit) :
  (∀ a, a ∈ l → hoare P (f a) (λ _, P) E) → hoare P (forEach l f) (λ _, P) E.
Proof.
  induction l as [|a l IH]; intros Hf; cbn [forEach].
  - apply total_ret.
  - eapply hoare_bind.
    + apply Hf. by left.
    + intros ?. apply IH. intros b Hb. apply Hf. by right.
Qed.

Lemma same_core_refl w : same_core w w.
Proof. by repeat split. Qed.

Lemma same_core_trans w1 w2 w3 :
  same_core w1 w2 → same_core w2 w3 → same_core w1 w3.
Proof. unfold same_core. intros ? ?. intuition congruence. Qed.

Section Subscribing.
Variable w0 : world.
Variable ok : userHandler → Prop.
Local Abbreviation S := (subscribing w0 ok).
Local Abbreviation E := (λ _ : world, False).

Lemma handler_ok_engine h : engine_code (h_code h) → handler_ok ok h.
Proof. unfold handler_ok, engine_code. by destruct (h_code h). Qed.

Lemma sub_fresh_fn c :
  hoare S (fresh_fn c) (λ h w, S w ∧ h_code h = c) E.
Proof. intros w Hw. unfold fresh_fn. split; [|done]. exact Hw. Qed.

Lemma sub_addEventListener t h o :
  handler_ok ok h → hoare S (addEventListener t h o) (λ _, S) E.
Proof.
  intros Hh. apply total_modify. intros w Hw.
  destruct Hw as (Hc & Ha & Ht & Hn & Hi & Hl & Hm).
  unfold set_hst. destruct (existsb _ _);
    (repeat split; try apply Hc; try done).
  cbn. apply Forall_app. split; [done|]. by apply Forall_singleton.
Qed.

Lemma sub_listeners_set h v : hoare S (listeners_set h v) (λ _, S) E.
Proof.
  apply total_modify. intros w (Hc & Ha & Ht & Hn & Hi & Hl & Hm).
  repeat split; try apply Hc; done.
Qed.

Lemma sub_addListener t h o :
  handler_ok ok h → hoare S (addListener t h o) (λ _, S) E.
Proof.
  intros Hh. eapply hoare_bind; [by apply sub_addEventListener|].
  intros ?. apply sub_listeners_set.
Qed.

Lemma sub_fresh_addListener c t o :
  engine_code c →
  hoare S (h <- fresh_fn c; addListener t h o) (λ _, S) E.
Proof.
  intros Hc. eapply hoare_bind; [apply sub_fresh_fn|].
  intros h w [Hw Hh]. revert w Hw. apply sub_addListener.
  apply handler_ok_engine. by rewrite Hh.
Qed.

Lemma sub_patchHistoryMethods : hoare S patchHistoryMethods (λ _, S) E.
Proof.
  eapply hoare_bind; [apply total_get|]. intros o w [Hw _]. revert w Hw.
  apply total_modify. intros w (Hc & Ha & Ht & Hn & Hi & Hl & Hm).
  repeat split; try apply Hc; done.
Qed.

Lemma sub_trackMediaElement el : hoare S (trackMediaElement el) (λ _, S) E.
Proof.
  eapply hoare_bind; [apply sub_fresh_fn|]. intros h w [Hw Hh]. revert w Hw.
  apply total_forEach. intros ev _.
  eapply hoare_bind with (Q := λ _, S).
  - apply total_modify. intros w (Hc & Ha & Ht & Hn & Hi & Hl & Hm).
    repeat split; try apply Hc; try done.
    cbn. apply Forall_alter; [done|]. intros x Hx HPx.
    unfold el_add. destruct (existsb _ _); [done|]. cbn.
    apply Forall_app. split; [done|]. apply Forall_singleton.
    apply handler_ok_engine. cbn [snd]. by rewrite Hh.
  - intros ?. apply total_modify. intros w (Hc & Ha & Ht & Hn & Hi & Hl & Hm).
    repeat split; try apply Hc; done.
Qed.
End Subscribing.

Ltac mred :=
  cbn [get alloc modify ret throw store getTimestamp
       set_st set_hp set_hst
       st_config st_active st_listeners st_intervals st_mediaElements
       st_results st_mousePosition
       h_now h_window_listeners h_timers h_next_fn h_history h_media h_page
       st hp next_loc hst delivered uncaught
       config active listeners intervals mediaElements results mousePosition
       originalHistoryMethods
       now window_listeners timers next_timer next_fn history_pushState
       history_replaceState media pg fst snd].

Ltac msimpl_in H :=
  cbn [bind get alloc modify ret when throw store getTimestamp
       set_st set_hp set_hst
       st_config st_active st_listeners st_intervals st_mediaElements
       st_results st_mousePosition
       h_now h_window_listeners h_timers h_next_fn h_history h_media h_page
       st hp next_loc hst delivered uncaught
       config active listeners intervals mediaElements results mousePosition
       originalHistoryMethods
       now window_listeners timers next_timer next_fn history_pushState
       history_replaceState media pg fst snd] in H.

Lemma hoare_run {A} (P : world → Prop) (m : M A) Q w :
  hoare P m Q (λ _, False) → P w → ∃ a w', m w = Ok a w' ∧ Q a w'.
Proof. intros Hm Hw. specialize (Hm w Hw). destruct (m w); [eauto|done]. Qed.

Lemma hoare_post {A} (P : world → Prop) (m : M A) (Q Q' : A → world → Prop) E :
  (∀ a w, Q a w → Q' a w) → hoare P m Q E → hoare P m Q' E.
Proof.
  intros HQ Hm w Hw. specialize (Hm w Hw). destruct (m w); [by apply HQ|done].
Qed.

Lemma subscribing_refl ok w : listeners_ok ok w → subscribing w ok w.
Proof. intros []. split; [apply same_core_refl|]. by repeat split. Qed.

(** The three blocks of [start] after the start time is stamped. *)
Lemma start_mouse_block ok cfg w :
  listeners_ok ok w →
  hoare (eq w)
    (when (Config.mouseMovement cfg) (
       run addListener "mousemove" fn_handleMouseMove None;
       interval <- setInterval SampleMouse
                     (Config.mouseMovementInterval cfg * 1000);
       intervals_add interval))
    (λ _ w', same_core w w' ∧ active (st w') = active (st w) ∧
             listeners_ok ok w' ∧
             timers (hst w') = timers (hst w) ++ sampler cfg (next_timer (hst w)) ∧
             next_timer (hst w') =
               next_timer (hst w) + length (sampler cfg (next_timer (hst w))) ∧
             intervals (st w') =
               foldl (λ s t, set_add (t_id t) s) (intervals (st w))
                     (sampler cfg (next_timer (hst w))))
    (λ _, False).
Proof.
  intros [Hl Hm] w' <-. unfold sampler.
  destruct (Config.mouseMovement cfg); cbn [when ret length foldl].
  - unfold addListener, addEventListener, listeners_set, setInterval,
      intervals_add. cbn [bind modify]. unfold set_hst, set_st.
    unfold same_core, listeners_ok.
    destruct (existsb _ _); cbn; (repeat split; try done; try lia).
    apply Forall_app. split; [done|]. by apply Forall_singleton.
  - rewrite app_nil_r, Nat.add_0_r. split; [apply same_core_refl|].
    by repeat split.
Qed.

Lemma start_flush_block ok cfg w0 :
  hoare (subscribing w0 ok)
    (when (truthy_num (Config.processTime cfg)) (
       interval <- setInterval Flush (Config.processTime cfg * 1000);
       intervals_add interval))
    (λ _ w', same_core w0 w' ∧ active (st w') = active (st w0) ∧
             listeners_ok ok w' ∧
             timers (hst w') = timers (hst w0) ++ flusher cfg (next_timer (hst w0)) ∧
             next_timer (hst w') =
               next_timer (hst w0) + length (flusher cfg (next_timer (hst w0))) ∧
             intervals (st w') =
               foldl (λ s t, set_add (t_id t) s) (intervals (st w0))
                     (flusher cfg (next_timer (hst w0))))
    (λ _, False).
Proof.
  intros w (Hc & Ha & Ht & Hn & Hi & Hl). unfold flusher.
  destruct (truthy_num (Config.processTime cfg)); cbn [when ret length foldl].
  - unfold setInterval, intervals_add. cbn [bind modify]. unfold set_hst, set_st.
    cbn. rewrite Ht, Hn, Hi. repeat split; try apply Hc; try apply Hl; try done; lia.
  - rewrite app_nil_r, Nat.add_0_r. by repeat split; try apply Hc; try apply Hl.
Qed.

Lemma start_tail ok cfg w0 :
  hoare (subscribing w0 ok)
    (run when (Config.clicks cfg) (addListener "click" fn_handleClick None);
     run when (Config.mouseScroll cfg) (
       h <- fresh_fn HScroll; addListener "scroll" h None);
     run when (Config.windowResize cfg) (
       h <- fresh_fn HResize; addListener "resize" h None);
     run when (Config.visibilitychange cfg) (
       h <- fresh_fn HVisibility; addListener "visibilitychange" h None);
     run when (Config.keyboardActivity cfg) (
       h <- fresh_fn HKeydown; addListener "keydown" h None);
     run when (Config.pageNavigation cfg) (
       run patchHistoryMethods;
       navHandler <- fresh_fn HNav;
       forEach ["popstate"; "pushstate"; "replacestate"; "locationchange"]%string
               (λ ev, addListener ev navHandler None));
     run when (Config.formInteractions cfg) (
       addListener "submit" fn_handleFormSubmit (Some true));
     run when (Config.touchEvents cfg) (
       h <- fresh_fn HTouchStart; addListener "touchstart" h None);
     run when (Config.audioVideoInteraction cfg) (
       m <- get (λ w, media (hst w));
       forEach (seq 0 (length m)) trackMediaElement);
     when (truthy_num (Config.processTime cfg)) (
       interval <- setInterval Flush (Config.processTime cfg * 1000);
       intervals_add interval))
    (λ _ w', same_core w0 w' ∧ active (st w') = active (st w0) ∧
             listeners_ok ok w' ∧
             timers (hst w') = timers (hst w0) ++ flusher cfg (next_timer (hst w0)) ∧
             next_timer (hst w') =
               next_timer (hst w0) + length (flusher cfg (next_timer (hst w0))) ∧
             intervals (st w') =
               foldl (λ s t, set_add (t_id t) s) (intervals (st w0))
                     (flusher cfg (next_timer (hst w0))))
    (λ _, False).
Proof.
  eapply hoare_bind.
  { apply total_when. by apply sub_addListener. }
  intros ?. eapply hoare_bind.
  { apply total_when. by apply sub_fresh_addListener. }
  intros ?. eapply hoare_bind.
  { apply total_when. by apply sub_fresh_addListener. }
  intros ?. eapply hoare_bind.
  { apply total_when. by apply sub_fresh_addListener. }
  intros ?. eapply hoare_bind.
  { apply total_when. by apply sub_fresh_addListener. }
  intros ?. eapply hoare_bind.
  { apply total_when. eapply hoare_bind; [apply sub_patchHistoryMethods|].
    intros ?. eapply hoare_bind; [apply sub_fresh_fn|].
    intros h w [Hw Hh]. revert w Hw. apply total_forEach. intros ev _.
    apply sub_addListener. apply handler_ok_engine. by rewrite Hh. }
  intros ?. eapply hoare_bind.
  { apply total_when. by apply sub_addListener. }
  intros ?. eapply hoare_bind.
  { apply total_when. by apply sub_fresh_addListener. }
  intros ?. eapply hoare_bind.
  { apply total_when.
    eapply hoare_bind; [apply total_get|]. intros m w [Hw _]. revert w Hw.
    apply total_forEach. intros el _. apply sub_trackMediaElement. }
  intros ?. apply start_flush_block.
Qed.

Lemma with_userInfo_id r : Results.with_userInfo (Results.userInfo r) r = r.
Proof. by destruct r. Qed.

Lemma start_body_spec ok cfg w :
  listeners_ok ok w →
  ∃ w',
    start_body cfg w = Ok tt w' ∧
    same_core w w' ∧ active (st w') = active (st w) ∧ listeners_ok ok w' ∧
    timers (hst w') = timers (hst w) ++ armed cfg (next_timer (hst w)) ∧
    next_timer (hst w') =
      next_timer (hst w) + length (armed cfg (next_timer (hst w))) ∧
    intervals (st w') =
      foldl (λ s t, set_add (t_id t) s) (intervals (st w))
            (armed cfg (next_timer (hst w))).
Proof.
  intros Hl.
  assert (hoare (eq w) (start_body cfg)
            (λ _ w', same_core w w' ∧ active (st w') = active (st w) ∧
               listeners_ok ok w' ∧
               timers (hst w') = timers (hst w) ++ armed cfg (next_timer (hst w)) ∧
               next_timer (hst w') =
                 next_timer (hst w) + length (armed cfg (next_timer (hst w))) ∧
               intervals (st w') =
                 foldl (λ s t, set_add (t_id t) s) (intervals (st w))
                       (armed cfg (next_timer (hst w))))
            (λ _, False)) as Htot.
  { eapply hoare_bind; [by apply (start_mouse_block ok)|].
    intros ? w2 (Hc2 & Ha2 & Hl2 & Ht2 & Hn2 & Hi2).
    pose proof (start_tail ok cfg w2 w2 (subscribing_refl ok w2 Hl2)) as Htail.
    destruct (bind _ _ w2) as [? w3|]; [|done].
    destruct Htail as (Hc3 & Ha3 & Hl3 & Ht3 & Hn3 & Hi3).
    split; [by eapply same_core_trans|].
    unfold armed. rewrite Ht3, Hn3, Hi3, Ht2, Hn2, Hi2, Ha3, Ha2.
    rewrite foldl_app, length_app, app_assoc.
    repeat split; try done; try apply Hl3; lia. }
  destruct (hoare_run _ _ _ w Htot eq_refl) as ([] & w' & Hrun & Hpost).
  by exists w'.
Qed.

Lemma start_spec ok w :
  active (st w) = false → listeners_ok ok w →
  ∃ w',
    start w = Ok tt w' ∧
    active (st w') = true ∧ (heap_ok w → heap_ok w') ∧ listeners_ok ok w' ∧
    config (st w') = config (st w) ∧
    mousePosition (st w') = mousePosition (st w) ∧
    originalHistoryMethods (st w') = originalHistoryMethods (st w) ∧
    now (hst w') = now (hst w) ∧ pg (hst w') = pg (hst w) ∧
    delivered w' = delivered w ∧ uncaught w' = uncaught w ∧
    read_live w' = Some (started_view w) ∧
    timers (hst w') =
      timers (hst w) ++ armed (config (st w)) (next_timer (hst w)) ∧
    next_timer (hst w') =
      next_timer (hst w) + length (armed (config (st w)) (next_timer (hst w))) ∧
    intervals (st w') =
      foldl (λ s t, set_add (t_id t) s) (intervals (st w))
            (armed (config (st w)) (next_timer (hst w))).
Proof.
  intros Ha Hl.
  unfold start. unfold bind at 1. mred. rewrite Ha.
  unfold bind at 1. mred. unfold bind at 1.
  match goal with |- context [resetResults ?wa] =>
    destruct (resetResults_spec wa)
      as (l' & r' & h' & n' & Hreset & Hle & Hlt & Hlow & Hhigh & Hl' & Hui & Hfields)
  end.
  msimpl_in Hreset. msimpl_in Hle. msimpl_in Hlow. msimpl_in Hhigh. msimpl_in Hui.
  pose proof (Hfields _ _ Hui) as Hf. rewrite with_userInfo_id in Hf.
  pose proof Hf as Hf0. apply read_fields_Some in Hf as (_ & Ht & _).
  pose proof (read_fields_store_time _ _ _ (mkTime (now (hst w)) 0 0) Hf0) as Hf1.
  rewrite Hreset.
  unfold bind at 1. unfold live. mred. unfold read_results. rewrite Hl'.
  mred. unfold bind at 1. unfold load_time. mred. rewrite Ht.
  unfold bind at 1. mred. unfold bind at 1. mred. unfold bind at 1. mred.
  cbn [empty_view v_time currentTime stopTime].
  match goal with |- context [bind _ _ ?x] => set (w1 := x) end.
  destruct (start_body_spec ok (config (st w)) w1 Hl)
    as (w' & Hrun & Hc & Ha' & Hl1 & Ht1 & Hn1 & Hi1).
  exists w'. split; [exact Hrun|].
  destruct Hc as (Hhp & Hnl & Hd & Hu & Hcfg & Hres & Hmp & Horig & Hnow & Hpg).
  cbn [w1 hp next_loc delivered uncaught st hst config results mousePosition
       originalHistoryMethods active] in *.
  repeat split; try done.
  - intros Hok k Hk. rewrite Hhp, Hnl in *.
    assert (h' !! k = None) as Hnone.
    { rewrite Hhigh by done. apply Hok. lia. }
    rewrite lookup_insert_ne; [done|]. intros Heq.
    apply read_time_lookup in Ht. rewrite Heq in Ht.
    congruence.
  - apply Hl1.
  - apply Hl1.
  - apply read_live_Some. exists l', r'. rewrite Hres, Hhp. split; [done|].
    split.
    + rewrite (read_results_store _ _ (CTime (mkTime 0 0 0))); try done.
      * unfold read_results. by rewrite Hl'.
      * by apply read_time_lookup.
    + exact Hf1.
Qed.

(** ** [stop]: tearing down *)

Lemma forEach_modify {A} (l : list A) (f : A → world → world) w :
  forEach l (λ a, modify (f a)) w = Ok tt (foldl (λ w a, f a w) w l).
Proof.
  revert w. induction l as [|a l IH]; intros w; cbn [forEach foldl]; [done|].
  unfold bind. cbn [modify]. apply IH.
Qed.

Lemma foldl_clearInterval ids w :
  foldl (λ w i, set_hst (λ hs, h_timers (filter (λ t, t_id t ≠ i) (timers hs))
                                        (next_timer hs) hs) w) w ids =
  set_hst (λ hs, h_timers (clear_all ids (timers hs)) (next_timer hs) hs) w.
Proof.
  revert w. induction ids as [|i ids IH]; intros w; cbn [foldl].
  - by destruct w as [? ? ? [] ? ?].
  - rewrite IH. by destruct w as [? ? ? [] ? ?].
Qed.

Lemma foldl_removeEventListener ls w :
  foldl (λ w kv,
           set_hst (λ hs, h_window_listeners
              (filter (λ l, same_listener (lr_type kv.2) (lr_handler kv.2)
                              (capture_of (lr_options kv.2)) l = false)
                      (window_listeners hs)) hs) w) w ls =
  set_hst (λ hs, h_window_listeners (detach_all ls (window_listeners hs)) hs) w.
Proof.
  revert w. induction ls as [|kv ls IH]; intros w; cbn [foldl].
  - by destruct w as [? ? ? [] ? ?].
  - rewrite IH. by destruct w as [? ? ? [] ? ?].
Qed.

Lemma foldl_el_removeEventListener ms w :
  foldl (λ w r,
           set_hst (λ hs, h_media
              (alter (el_remove (mr_event r) (mr_handler r)) (mr_element r)
                     (media hs)) hs) w) w ms =
  set_hst (λ hs, h_media (detach_media ms (media hs)) hs) w.
Proof.
  revert w. induction ms as [|r ms IH]; intros w; cbn [foldl].
  - by destruct w as [? ? ? [] ? ?].
  - rewrite IH. by destruct w as [? ? ? [] ? ?].
Qed.

Lemma stop_idle w : active (st w) = false → stop w = Ok tt w.
Proof. intros H. unfold stop, bind. mred. by rewrite H. Qed.

Lemma stop_active w :
  active (st w) = true → stop w = final_flush (torn_down w).
Proof.
  intros H. unfold stop.
  unfold bind at 1. mred. rewrite H. cbn [negb].
  unfold bind at 1. mred.
  unfold bind at 1. mred. unfold bind at 1.
  unfold clearInterval. rewrite forEach_modify, foldl_clearInterval.
  unfold bind at 1. mred. unfold bind at 1. mred. unfold bind at 1.
  unfold removeEventListener. rewrite forEach_modify, foldl_removeEventListener.
  unfold bind at 1. mred. unfold bind at 1. mred. unfold bind at 1.
  unfold el_removeEventListener.
  rewrite forEach_modify, foldl_el_removeEventListener.
  unfold bind at 1. mred. unfold bind at 1. mred. unfold bind at 1. mred.
  reflexivity.
Qed.

(** ** Heap-blind invariants *)

Section HeapBlind.
Variable P : world → Prop.
Hypothesis P_blind : heap_blind P.

Lemma blind_set_hp w f : P w → P (set_hp f w).
Proof using P_blind.
  intros Hw. pose proof (P_blind w (f (hp w)) (next_loc w) (results (st w)) Hw) as H.
  by destruct w as [[] ? ? ? ? ?].
Qed.

Lemma preserves_store l c : preserves P (store l c).
Proof using P_blind. intros w Hw. by apply blind_set_hp. Qed.

Lemma preserves_alloc c : preserves P (alloc c).
Proof using P_blind.
  intros w Hw. cbn [alloc].
  pose proof (P_blind w (<[next_loc w:=c]> (hp w)) (S (next_loc w))
                (results (st w)) Hw) as H.
  by destruct w as [[] ? ? ? ? ?].
Qed.

Lemma preserves_resetResults : preserves P resetResults.
Proof using P_blind.
  intros w Hw.
  destruct (resetResults_spec w) as (l & r & h & n & -> & _).
  by apply P_blind.
Qed.

Lemma preserves_clear_step : preserves P clear_step.
Proof using P_blind.
  unfold clear_step. apply preserves_bind; [apply preserves_get|].
  intros cfg. destruct (Config.clearAfterProcess cfg); [|apply preserves_ret].
  apply preserves_bind.
  { destruct (Config.userInfo cfg); [|apply preserves_ret].
    apply preserves_bind; [apply preserves_live|]. intros ?. apply preserves_ret. }
  intros o. apply preserves_bind; [apply preserves_resetResults|]. intros ?.
  destruct o; [|apply preserves_ret].
  apply preserves_bind; [apply preserves_live|]. intros ?.
  apply preserves_store.
Qed.
End HeapBlind.

Lemma same_registry_blind w0 : heap_blind (same_registry w0).
Proof. intros w h n r H. exact H. Qed.

Lemma same_registry_refl w : same_registry w w.
Proof. by repeat split. Qed.

(** ** [stop]: the final flush *)

Lemma final_flush_stamp w l r v :
  results (st w) = Some l → read_results (hp w) l = Some r →
  read_fields (hp w) r = Some v →
  let ws := set_hp (λ h, <[Results.time r:=CTime (mkTime (startTime (v_time v))
                            (currentTime (v_time v)) (now (hst w)))]> h) w in
  final_flush w = processResults ws ∧
  read_results (hp ws) l = Some r ∧
  read_fields (hp ws) r =
    Some (with_time (mkTime (startTime (v_time v)) (currentTime (v_time v))
                            (now (hst w))) v) ∧
  (heap_ok w → heap_ok ws).
Proof.
  intros Hl Hr Hf. cbn zeta.
  pose proof Hf as Hf0. apply read_fields_Some in Hf as (_ & Ht & _).
  pose proof (read_time_lookup _ _ _ Ht) as Htl.
  split; [|split; [|split]].
  - unfold final_flush. unfold bind at 1. rewrite (live_ok _ _ _ Hl Hr).
    cbn [snd]. unfold bind at 1. unfold load_time. rewrite Ht.
    unfold bind at 1. mred. unfold bind at 1. mred. reflexivity.
  - cbn [set_hp hp]. by rewrite (read_results_store _ _ _ _ _ Htl).
  - cbn [set_hp hp]. by apply read_fields_store_time.
  - intros Hok k Hk. cbn [set_hp hp next_loc] in *.
    rewrite lookup_insert_ne; [by apply Hok|].
    intros Heq. rewrite Heq, Hok in Htl by done. done.
Qed.

(** What a flush leaves of everything but the heap, whatever the consumer
    does. *)
Lemma processResults_registry w v :
  heap_ok w → read_live w = Some v →
  let w' := after (processResults w) in
  hst w' = hst w ∧
  delivered w' =
    delivered w ++
      [mkDelivery (consumer_id (Config.processData (config (st w))))
                  (next_loc w) (Some (flushed_view w v))] ∧
  uncaught w' = uncaught w ∧
  config (st w') = config (st w) ∧ active (st w') = active (st w) ∧
  listeners (st w') = listeners (st w) ∧ intervals (st w') = intervals (st w) ∧
  mediaElements (st w') = mediaElements (st w) ∧
  mousePosition (st w') = mousePosition (st w) ∧
  originalHistoryMethods (st w') = originalHistoryMethods (st w).
Proof.
  intros Hok Hv. apply read_live_Some in Hv as (l & r & Hl & Hr & Hf).
  destruct (processResults_prefix w l r v Hok Hl Hr Hf) as (_ & _ & _ & ->).
  cbn zeta.
  destruct (consumer_run _ _ _) as [h3|h3].
  - pose proof (preserves_after _ clear_step
      (set_hp (λ _, h3) (at_consumer w r v))
      (preserves_clear_step _ (same_registry_blind _))
      (same_registry_refl _)) as H.
    exact H.
  - cbn [after]. by repeat split.
Qed.

Lemma stop_registry w v :
  active (st w) = true → heap_ok w → read_live w = Some v →
  let w' := after (stop w) in
  hst w' = hst (torn_down w) ∧
  delivered w' =
    delivered w ++
      [mkDelivery (consumer_id (Config.processData (config (st w))))
                  (next_loc w) (Some (final_view w v))] ∧
  uncaught w' = uncaught w ∧
  config (st w') = config (st w) ∧ active (st w') = false ∧
  listeners (st w') = [] ∧ intervals (st w') = [] ∧
  mediaElements (st w') = [] ∧
  mousePosition (st w') = mousePosition (st w) ∧
  originalHistoryMethods (st w') = originalHistoryMethods (st w).
Proof.
  intros Ha Hok Hv. apply read_live_Some in Hv as (l & r & Hl & Hr & Hf).
  rewrite (stop_active _ Ha).
  destruct (final_flush_stamp (torn_down w) l r v Hl Hr Hf)
    as (-> & Hr' & Hf' & Hok').
  match goal with |- context [processResults ?x] => set (ws := x) in * end.
  assert (read_live ws = Some (with_time (mkTime (startTime (v_time v))
            (currentTime (v_time v)) (now (hst w))) v)) as Hv'.
  { apply read_live_Some. by exists l, r. }
  pose proof (processResults_registry ws _ (Hok' Hok) Hv') as H.
  exact H.
Qed.

Lemma heap_okb_sound w : heap_okb w = true → heap_ok w.
Proof.
  unfold heap_okb. intros H l Hl.
  destruct (hp w !! l) as [c|] eqn:E; [|done].
  apply elem_of_map_to_list in E.
  rewrite forallb_forall in H. apply list_elem_of_In in E.
  specialize (H _ E). cbn [fst] in H. apply Nat.ltb_lt in H. lia.
Qed.

Lemma set_hp_same w : set_hp (λ _, hp w) w = w.
Proof. by destruct w. Qed.

(** A flush with a quiet consumer and [clearAfterProcess]. *)
Lemma processResults_clear w v :
  heap_ok w → read_live w = Some v →
  Config.clearAfterProcess (config (st w)) = true →
  quiet (Config.processData (config (st w))) →
  ∃ w',
    processResults w = Ok tt w' ∧ heap_ok w' ∧
    read_live w' =
      Some (empty_view (if Config.userInfo (config (st w))
                        then v_userInfo v else None)).
Proof.
  intros Hok Hv Hc Hq. apply read_live_Some in Hv as (l & r & Hl & Hr & Hf).
  destruct (processResults_prefix w l r v Hok Hl Hr Hf) as (Hok2 & Hr2 & Hf2 & ->).
  cbn zeta. rewrite Hq.
  rewrite set_hp_same.
  assert (read_live (at_consumer w r v) = Some (flushed_view w v)) as Hv2.
  { apply read_live_Some. by exists l, r. }
  destruct (clear_step_clear _ _ Hok2 Hv2 Hc) as (l' & h' & n' & Hcs & Hok' & _ & _ & Hv').
  eexists. split; [exact Hcs|]. split; [exact Hok'|exact Hv'].
Qed.

(** A flush with a quiet consumer and without [clearAfterProcess]. *)
Lemma processResults_keep w v :
  heap_ok w → read_live w = Some v →
  Config.clearAfterProcess (config (st w)) = false →
  quiet (Config.processData (config (st w))) →
  ∃ r, processResults w = Ok tt (at_consumer w r v) ∧
       heap_ok (at_consumer w r v) ∧
       read_live (at_consumer w r v) = Some (flushed_view w v).
Proof.
  intros Hok Hv Hc Hq. apply read_live_Some in Hv as (l & r & Hl & Hr & Hf).
  destruct (processResults_prefix w l r v Hok Hl Hr Hf) as (Hok2 & Hr2 & Hf2 & ->).
  cbn zeta. rewrite Hq, set_hp_same. exists r.
  split; [by apply clear_step_keep|]. split; [done|].
  apply read_live_Some. by exists l, r.
Qed.

(** ** The sampling callback *)


Lemma world_eta w :
  mkWorld (st w) (hp w) (next_loc w) (hst w) (delivered w) (uncaught w) = w.
Proof. by destruct w. Qed.





(** ** More code that keeps heap-blind invariants *)

Section HeapBlindClone.
Variable P : world → Prop.
Hypothesis P_blind : heap_blind P.

Lemma preserves_load_results l : preserves P (load_results l).
Proof. intros w Hw. unfold load_results. by destruct (read_results (hp w) l). Qed.

Lemma preserves_clone_array l : preserves P (clone_array l).
Proof using P_blind.
  apply preserves_bind.
  - eapply hoare_post; [|apply hoare_load_array]. by intros ? ? [].
  - intros a. by apply preserves_alloc.
Qed.

Lemma preserves_clone_userInfo o : preserves P (clone_userInfo o).
Proof using P_blind.
  destruct o as [u|]; [|apply preserves_ret].
  apply preserves_bind.
  - intros w Hw. unfold load_userInfo. by destruct (hp w !! u) as [[]|].
  - intros x. apply preserves_bind; [by apply preserves_alloc|].
    intros ?. apply preserves_ret.
Qed.

Lemma preserves_structuredClone l : preserves P (structuredClone l).
Proof using P_blind.
  unfold structuredClone.
  apply preserves_bind; [apply preserves_load_results|]. intros r.
  apply preserves_bind; [apply preserves_clone_userInfo|]. intros ui.
  apply preserves_bind.
  { eapply hoare_post; [|apply hoare_load_time]. by intros ? ? []. }
  intros t. apply preserves_bind; [by apply preserves_alloc|]. intros t'.
  apply preserves_bind.
  { eapply hoare_post; [|apply hoare_load_clicks]. by intros ? ? []. }
  intros c. apply preserves_bind; [apply preserves_clone_array|]. intros cd.
  apply preserves_bind; [by apply preserves_alloc|]. intros c'.
  do 10 (apply preserves_bind; [apply preserves_clone_array|]; intros ?).
  by apply preserves_alloc.
Qed.

Lemma preserves_getResults : preserves P getResults.
Proof using P_blind.
  apply preserves_bind; [apply preserves_get|]. intros [l|].
  - apply preserves_bind; [apply preserves_structuredClone|].
    intros ?. apply preserves_ret.
  - apply preserves_ret.
Qed.
End HeapBlindClone.

Lemma listeners_ok_True w : listeners_ok (λ _, True) w.
Proof.
  split; apply Forall_forall; intros x _.
  - unfold handler_ok. by destruct (h_code _).
  - apply Forall_forall. intros l _. unfold handler_ok. by destruct (h_code _).
Qed.

Lemma start_active w : active (st w) = true → start w = Ok tt w.
Proof. intros H. unfold start, bind. mred. by rewrite H. Qed.

(** ** Sessions without flush timer *)

Section Unflushed.
Variable D : list delivery.
Local Abbreviation J := (unflushed D).

Lemma unflushed_blind : heap_blind J.
Proof. intros w h n r H. exact H. Qed.

Lemma unflushed_user w u e : J w → J (after (call_userHandler u e w)).
Proof.
  intros H. unfold call_userHandler. by destruct (uh_run u e (hp w)).
Qed.

Lemma unflushed_registerCustomEvent n h : preserves J (registerCustomEvent n h).
Proof.
  intros w Hw. unfold registerCustomEvent, bind. mred.
  destruct (negb _); [done|]. unfold fresh_fn, addEventListener, listeners_set.
  mred. by destruct (existsb _ _).
Qed.

Lemma unflushed_fire i : preserves J (fire i).
Proof.
  apply hoare_bind with (Q := λ ts w, J w ∧ ts = timers (hst w)).
  { by intros w Hw. }
  intros ts w [Hw ->].
  destruct (find _ _) as [t|] eqn:Hfind; [|done].
  revert w Hw Hfind. intros w Hw Hfind.
  assert (t_task t = SampleMouse) as ->.
  { apply find_some in Hfind as [Hin _].
    destruct Hw as (_ & Hnf & _). unfold no_flush_timer in Hnf.
    rewrite Forall_forall in Hnf. apply list_elem_of_In in Hin.
    specialize (Hnf _ Hin). by destruct (t_task t). }
  cbn [run_task].
  pose proof (preserves_host_call J sampleMouse) as Hh.
  apply Hh; [by intros ? ?| |done].
  apply preserves_sampleMouse. by intros ? ? ? ? ?.
Qed.

Lemma unflushed_step i : passive i → preserves J (step i).
Proof.
  intros [Hp Hs]. destruct i; cbn [step]; try done.
  - by intros w Hw.
  - by intros w Hw.
  - apply (preserves_dispatchEvent J (λ _, True));
      intros; first [assumption | by apply unflushed_user
                    | apply listeners_ok_True].
  - apply (preserves_dispatchMedia J (λ _, True));
      intros; first [assumption | by apply unflushed_user
                    | apply listeners_ok_True].
  - apply unflushed_fire.
  - apply preserves_bind; [apply preserves_get|]. intros f.
    apply (preserves_call_history J (λ _, True));
      intros; first [assumption | by apply unflushed_user
                    | apply listeners_ok_True].
  - apply preserves_bind; [apply preserves_get|]. intros f.
    apply (preserves_call_history J (λ _, True));
      intros; first [assumption | by apply unflushed_user
                    | apply listeners_ok_True].
  - by intros w Hw.
  - intros w Hw. rewrite start_active; [done|apply Hw].
  - apply preserves_bind; [|intros ?; apply preserves_ret].
    apply preserves_getResults. apply unflushed_blind.
  - apply preserves_bind; [apply preserves_get|intros ?; apply preserves_ret].
  - apply unflushed_registerCustomEvent.
Qed.

Lemma unflushed_execs tr w : Forall passive tr → J w → J (execs tr w).
Proof.
  unfold execs. revert w. induction tr as [|i tr IH]; intros w Htr Hw; [done|].
  apply Forall_cons in Htr as [Hi Htr]. cbn [foldl]. apply IH; [done|].
  unfold exec. by apply preserves_after; [apply unflushed_step|].
Qed.
End Unflushed.


(** ** Timer identities *)



Lemma fire_flusher i w :
  flusher_armed i w → fire i w = host_call processResults w.
Proof.
  intros (t & Hfind & Ht). unfold fire, bind. mred. rewrite Hfind.
  by rewrite Ht.
Qed.

(** A flush whose consumer raises. *)
Lemma processResults_raise w v :
  heap_ok w → read_live w = Some v →
  raising (Config.processData (config (st w))) →
  ∃ r, processResults w = Throw (at_consumer w r v) ∧
       heap_ok (at_consumer w r v) ∧
       read_live (at_consumer w r v) = Some (flushed_view w v).
Proof.
  intros Hok Hv Hq. apply read_live_Some in Hv as (l & r & Hl & Hr & Hf).
  destruct (processResults_prefix w l r v Hok Hl Hr Hf) as (Hok2 & Hr2 & Hf2 & ->).
  cbn zeta. rewrite Hq, set_hp_same. exists r.
  split; [done|]. split; [done|].
  apply read_live_Some. by exists l, r.
Qed.

(** ** What [stop] removes *)

Lemma clear_all_elem ids ts t :
  t ∈ clear_all ids ts ↔ t ∈ ts ∧ t_id t ∉ ids.
Proof.
  unfold clear_all. revert ts. induction ids as [|i ids IH]; intros ts; cbn [foldl].
  - split; [intros H; split; [done|by apply not_elem_of_nil]|by intros []].
  - rewrite IH, list_elem_of_filter, not_elem_of_cons. tauto.
Qed.

Lemma detach_all_elem ls wl l :
  l ∈ detach_all ls wl ↔
  l ∈ wl ∧ ∀ kv, kv ∈ ls →
    same_listener (lr_type kv.2) (lr_handler kv.2)
                  (capture_of (lr_options kv.2)) l = false.
Proof.
  unfold detach_all. revert wl. induction ls as [|kv ls IH]; intros wl; cbn [foldl].
  - split; [intros H; split; [done|]|by intros []].
    intros kv Hkv. by apply elem_of_nil in Hkv.
  - rewrite IH, list_elem_of_filter. split.
    + intros [[Hs Hl] Hall]. split; [done|]. intros kv' Hkv'.
      apply elem_of_cons in Hkv' as [->|Hkv']; [done|by apply Hall].
    + intros [Hl Hall]. split; [split; [|done]|].
      * apply Hall. by left.
      * intros kv' Hkv'. apply Hall. by right.
Qed.

(** ** A view depends on the footprint only *)

Lemma read_view_agree (h h' : heap) l :
  (∀ k, k ∈ footprint h l → h' !! k = h !! k) →
  read_view h' l = read_view h l.
Proof.
  intros H. unfold read_view.
  assert (read_results h' l = read_results h l) as Hrr.
  { unfold read_results. rewrite H; [done|].
    unfold footprint. destruct (read_results h l); set_solver. }
  rewrite Hrr. destruct (read_results h l) as [r|] eqn:Hr; [|done].
  cbn [mbind option_bind].
  assert (∀ k, k ∈ footprint h l → h' !! k = h !! k) as H' by done.
  unfold footprint in H. rewrite Hr in H.
  assert (read_clicks h' (Results.clicks r) = read_clicks h (Results.clicks r))
    as Hc.
  { unfold read_clicks. rewrite H; [done|set_solver]. }
  unfold read_fields. rewrite Hc.
  assert (read_userInfo h' (Results.userInfo r) =
          read_userInfo h (Results.userInfo r)) as ->.
  { unfold read_userInfo. destruct (Results.userInfo r) as [u|]; [|done].
    rewrite H; [done|set_solver]. }
  assert (read_time h' (Results.time r) = read_time h (Results.time r)) as ->.
  { unfold read_time. rewrite H; [done|set_solver]. }
  destruct (read_userInfo h _); [|done]. cbn [mbind option_bind].
  destruct (read_time h _); [|done]. cbn [mbind option_bind].
  destruct (read_clicks h (Results.clicks r)) as [c|] eqn:Hrc; [|done].
  cbn [mbind option_bind].
  assert (∀ k, k ∈ [clickDetails c; Results.mouseMovements r;
                     Results.mouseScroll r; Results.keyboardActivities r;
                     Results.navigationHistory r; Results.formInteractions r;
                     Results.touchEvents r; Results.mediaInteractions r;
                     Results.windowSizes r; Results.visibilityChanges r;
                     Results.customEvents r] →
               read_array h' k = read_array h k) as Ha.
  { intros k Hk. unfold read_array. rewrite H; [done|]. set_solver. }
  rewrite !Ha by set_solver. done.
Qed.

Lemma footprint_below w l v :
  heap_ok w → read_view (hp w) l = Some v →
  Forall (λ k, k < next_loc w) (footprint (hp w) l).
Proof.
  intros Hok Hv. unfold read_view in Hv.
  destruct (read_results (hp w) l) as [r|] eqn:Hr; [|done].
  cbn [mbind option_bind] in Hv.
  apply read_fields_Some in Hv
    as (Hu & Ht & (c & Hc & _ & Hd) & H1 & H2 & H3 & H4 & H5 & H6 & H7 & H8 & H9 & H10).
  assert (∀ k, is_Some (hp w !! k) → k < next_loc w) as Hlt.
  { intros k [x Hx]. destruct (decide (k < next_loc w)); [done|].
    rewrite Hok in Hx by lia. done. }
  unfold footprint. rewrite Hr, Hc.
  repeat (apply Forall_cons; split;
    [apply Hlt;
     first [ erewrite read_results_lookup by eassumption
           | erewrite read_time_lookup by eassumption
           | erewrite read_clicks_lookup by eassumption
           | erewrite read_array_lookup by eassumption ]; done|]).
  cbn [app].
  repeat (apply Forall_cons; split;
    [apply Hlt;
     first [ erewrite read_results_lookup by eassumption
           | erewrite read_time_lookup by eassumption
           | erewrite read_clicks_lookup by eassumption
           | erewrite read_array_lookup by eassumption ]; done|]).
  rewrite app_nil_r. unfold read_userInfo in Hu.
  destruct (Results.userInfo r) as [u|]; [|by apply Forall_nil].
  apply Forall_singleton. apply Hlt.
  destruct (hp w !! u); [done|done].
Qed.

(** ** Sessions with read-only callbacks *)

Lemma heap_ok_store w l c :
  heap_ok w → is_Some (hp w !! l) → heap_ok (set_hp (λ h, <[l:=c]> h) w).
Proof.
  intros Hok [x Hx] k Hk. cbn [set_hp hp next_loc] in *.
  rewrite lookup_insert_ne; [by apply Hok|].
  intros ->. rewrite Hok in Hx by done. done.
Qed.














Lemma readonly_console_log : readonly_consumer console_log.
Proof. intros l h. by left. Qed.





Lemma detach_media_lookup ms m i x :
  detach_media ms m !! i = Some x →
  ∃ x0, m !! i = Some x0 ∧
        ∀ l, l ∈ el_listeners x ↔
             l ∈ el_listeners x0 ∧
             ∀ r, r ∈ ms → mr_element r = i →
                  same_el_listener (mr_event r) (mr_handler r) l = false.
Proof.
  unfold detach_media. revert m. induction ms as [|r ms IH]; intros m Hx;
    cbn [foldl] in Hx.
  - exists x. split; [done|]. intros l. split; [|by intros []].
    intros Hl. split; [done|]. intros r Hr. by apply elem_of_nil in Hr.
  - destruct (IH _ Hx) as (x1 & Hx1 & Hl1).
    destruct (decide (mr_element r = i)) as [Heq|Hne].
    + rewrite Heq, list_lookup_alter_eq in Hx1.
      destruct (m !! i) as [x0|] eqn:Hx0; [|done].
      injection Hx1 as <-. exists x0. split; [done|]. intros l.
      rewrite Hl1. cbn [el_remove el_listeners]. rewrite list_elem_of_filter.
      split.
      * intros [[Hs Hl] Hall]. split; [done|]. intros r' Hr' Hi.
        apply elem_of_cons in Hr' as [->|Hr']; [done|by apply Hall].
      * intros [Hl Hall]. split; [split; [|done]|].
        -- apply Hall; [by left|done].
        -- intros r' Hr' Hi. apply Hall; [by right|done].
    + rewrite list_lookup_alter_ne in Hx1 by done.
      exists x1. split; [done|]. intros l. rewrite Hl1. split.
      * intros [Hl Hall]. split; [done|]. intros r' Hr' Hi.
        apply elem_of_cons in Hr' as [->|Hr']; [done|by apply Hall].
      * intros [Hl Hall]. split; [done|]. intros r' Hr' Hi.
        apply Hall; [by right|done].
Qed.

(** * Properties that do not look at the heap *)

Lemma hoare_conseq {A} (P P' : world → Prop) (m : M A)
    (Q Q' : A → world → Prop) (E E' : world → Prop) :
  (∀ w, P' w → P w) → (∀ a w, Q a w → Q' a w) → (∀ w, E w → E' w) →
  hoare P m Q E → hoare P' m Q' E'.
Proof.
  intros HP HQ HE H w Hw. specialize (H w (HP w Hw)).
  destruct (m w); auto.
Qed.

Lemma preserves_when P b m : preserves P m → preserves P (when b m).
Proof. intros H. destruct b; [exact H|apply preserves_ret]. Qed.

(** [P] looks neither at the heap nor at the record of deliveries, the
    errors reported or the cached mouse sample. *)
Section Blind.
Variable P : world → Prop.
Hypothesis P_blind : heap_blind P.
Hypothesis P_delivered : ∀ w D,
  P w → P (mkWorld (st w) (hp w) (next_loc w) (hst w) D (uncaught w)).
Hypothesis P_reported : ∀ w, P w → P (reported w).
Hypothesis P_mouse : ∀ w p, P w → P (set_st (st_mousePosition p) w).

Lemma blind_call_consumer c s : preserves P (call_consumer c s).
Proof using P_blind P_delivered.
  intros w Hw. unfold call_consumer.
  pose proof (P_delivered w
    (delivered w ++ [mkDelivery (consumer_id c) s (read_view (hp w) s)]) Hw) as H.
  destruct (consumer_run c s (hp w)) as [h|h]; cbn [log_delivery];
    by apply (blind_set_hp P P_blind _ (λ _, h)) in H.
Qed.

Lemma blind_processResults : preserves P processResults.
Proof using P_blind P_delivered.
  unfold processResults.
  apply preserves_bind; [apply preserves_live|]. intros lr.
  apply preserves_bind.
  { eapply hoare_post; [|apply hoare_load_time]. by intros ? ? []. }
  intros t. apply preserves_bind; [apply preserves_get|]. intros ts.
  apply preserves_bind; [by apply preserves_store|]. intros _.
  apply preserves_bind; [apply preserves_live|]. intros lr'.
  apply preserves_bind; [by apply preserves_alloc|]. intros snap.
  apply preserves_bind; [apply preserves_get|]. intros cfg.
  apply preserves_bind; [apply blind_call_consumer|]. intros _.
  exact (preserves_clear_step P P_blind).
Qed.

Lemma blind_final_flush : preserves P final_flush.
Proof using P_blind P_delivered.
  unfold final_flush.
  apply preserves_bind; [apply preserves_live|]. intros lr.
  apply preserves_bind.
  { eapply hoare_post; [|apply hoare_load_time]. by intros ? ? []. }
  intros t. apply preserves_bind; [apply preserves_get|]. intros ts.
  apply preserves_bind; [by apply preserves_store|]. intros _.
  apply blind_processResults.
Qed.

Lemma blind_user w u e : P w → P (after (call_userHandler u e w)).
Proof using P_blind.
  intros Hw. unfold call_userHandler.
  destruct (uh_run u e (hp w)) as [h|h]; cbn [after];
    by apply (blind_set_hp P P_blind _ (λ _, h)).
Qed.

Lemma blind_push w l a x :
  P w → read_array (hp w) l = Some a →
  P (set_hp (λ h, <[l:=CArray (a ++ [x])]> h) w).
Proof using P_blind. intros Hw _. by apply blind_set_hp. Qed.

Lemma blind_count w l c n :
  P w → read_clicks (hp w) l = Some c →
  P (set_hp (λ h, <[l:=CClicks (mkClicks n (clickDetails c))]> h) w).
Proof using P_blind. intros Hw _. by apply blind_set_hp. Qed.

Lemma blind_dispatchEvent e : preserves P (dispatchEvent e).
Proof using All.
  apply (preserves_dispatchEvent P (λ _, True));
    first [ exact P_mouse | exact P_reported | exact blind_push
          | exact blind_count | by intros; apply blind_user
          | intros; apply listeners_ok_True ].
Qed.

Lemma blind_dispatchMedia el e : preserves P (dispatchMedia el e).
Proof using All.
  apply (preserves_dispatchMedia P (λ _, True));
    first [ exact P_mouse | exact P_reported | exact blind_push
          | exact blind_count | by intros; apply blind_user
          | intros; apply listeners_ok_True ].
Qed.

Lemma blind_call_history f : preserves P (call_history f).
Proof using All.
  apply (preserves_call_history P (λ _, True));
    first [ exact P_mouse | exact P_reported | exact blind_push
          | exact blind_count | by intros; apply blind_user
          | intros; apply listeners_ok_True ].
Qed.

Lemma blind_fire i : preserves P (fire i).
Proof using All.
  apply preserves_bind; [apply preserves_get|]. intros ts.
  destruct (find _ ts) as [t|]; [|apply preserves_ret].
  apply preserves_host_call; [exact P_reported|].
  destruct (t_task t); cbn [run_task].
  - apply preserves_sampleMouse. exact blind_push.
  - apply blind_processResults.
Qed.

(** The inputs that run the tracker's handlers, its timers, a flush or
    a read keep [P]; for the others it is asked. *)
Lemma blind_step i :
  match i with
  | Elapse _ | SetPage _ | CallConfig _ | CallStart | CallStop
  | CallRegisterCustomEvent _ _ => preserves P (step i)
  | _ => True
  end →
  preserves P (step i).
Proof using All.
  destruct i; cbn [step]; intros Hi; try exact Hi.
  - apply blind_dispatchEvent.
  - apply blind_dispatchMedia.
  - apply blind_fire.
  - apply preserves_bind; [apply preserves_get|]. intros f.
    apply blind_call_history.
  - apply preserves_bind; [apply preserves_get|]. intros f.
    apply blind_call_history.
  - apply blind_processResults.
  - apply preserves_bind; [|intros ?; apply preserves_ret].
    by apply preserves_getResults.
  - apply preserves_bind; [apply preserves_get|intros ?; apply preserves_ret].
Qed.
End Blind.

(** ** The life cycle *)

Lemma start_sets_active w : active (st (exec CallStart w)) = true.
Proof.
  unfold exec. cbn [step]. destruct (active (st w)) eqn:Ha.
  - by rewrite start_active.
  - destruct (start_spec (λ _, True) w Ha (listeners_ok_True w))
      as (w' & -> & Ha' & _). exact Ha'.
Qed.

Lemma stop_clears_active w : active (st (exec CallStop w)) = false.
Proof.
  unfold exec. cbn [step]. destruct (active (st w)) eqn:Ha.
  - rewrite stop_active by done.
    apply (preserves_after (λ w, active (st w) = false) final_flush).
    + apply blind_final_flush; by intros ? ?.
    + reflexivity.
  - by rewrite stop_idle.
Qed.

(** A flush calls the consumer at most once. *)
Lemma delivered_blind D : heap_blind (λ w, delivered w = D).
Proof. by intros w h n r H. Qed.

Lemma one_more_blind D : heap_blind (λ w, ∃ d, delivered w = D ++ [d]).
Proof. by intros w h n r H. Qed.

Lemma processResults_at_most_once D :
  hoare (λ w, delivered w = D) processResults
        (λ _, at_most_one_more D) (at_most_one_more D).
Proof.
  pose proof (delivered_blind D) as Hb.
  assert (∀ A (m : M A), preserves (λ w, delivered w = D) m →
            hoare (λ w, delivered w = D) m (λ _ w, delivered w = D)
                  (at_most_one_more D)) as Hpre.
  { intros A m Hm. eapply hoare_conseq; [| |intros w H; left; exact H|exact Hm];
      by intros. }
  unfold processResults.
  eapply hoare_bind; [apply Hpre, preserves_live|]. intros lr.
  eapply hoare_bind.
  { apply Hpre. eapply hoare_post; [|apply hoare_load_time]. by intros ? ? []. }
  intros t. eapply hoare_bind; [apply Hpre, preserves_get|]. intros ts.
  eapply hoare_bind; [apply Hpre; by apply preserves_store|]. intros ?.
  eapply hoare_bind; [apply Hpre, preserves_live|]. intros lr'.
  eapply hoare_bind; [apply Hpre; by apply preserves_alloc|]. intros snap.
  eapply hoare_bind; [apply Hpre, preserves_get|]. intros cfg.
  eapply hoare_bind with (Q := λ _ w, ∃ d, delivered w = D ++ [d]).
  { intros w Hw. unfold call_consumer.
    destruct (consumer_run _ _ _); cbn; [|right]; rewrite Hw; by eexists. }
  intros ?.
  eapply hoare_conseq;
    [| | |exact (preserves_clear_step _ (one_more_blind D))]; cbn beta.
  - by intros.
  - intros _ w H. by right.
  - intros w H. by right.
Qed.

Lemma final_flush_at_most_once D :
  hoare (λ w, delivered w = D) final_flush
        (λ _, at_most_one_more D) (at_most_one_more D).
Proof.
  pose proof (delivered_blind D) as Hb.
  assert (∀ A (m : M A), preserves (λ w, delivered w = D) m →
            hoare (λ w, delivered w = D) m (λ _ w, delivered w = D)
                  (at_most_one_more D)) as Hpre.
  { intros A m Hm. eapply hoare_conseq; [| |intros w H; left; exact H|exact Hm];
      by intros. }
  unfold final_flush.
  eapply hoare_bind; [apply Hpre, preserves_live|]. intros lr.
  eapply hoare_bind.
  { apply Hpre. eapply hoare_post; [|apply hoare_load_time]. by intros ? ? []. }
  intros t. eapply hoare_bind; [apply Hpre, preserves_get|]. intros ts.
  eapply hoare_bind; [apply Hpre; by apply preserves_store|]. intros ?.
  apply processResults_at_most_once.
Qed.

Lemma stop_at_most_once w : at_most_one_more (delivered w) (exec CallStop w).
Proof.
  unfold exec. cbn [step]. destruct (active (st w)) eqn:Ha.
  - rewrite stop_active by done.
    pose proof (final_flush_at_most_once (delivered w) (torn_down w) eq_refl) as H.
    by destruct (final_flush (torn_down w)).
  - rewrite stop_idle by done. by left.
Qed.

(** Whether a session is running changes only in [start] and [stop]. *)
Lemma active_step (b : bool) i :
  (if b then i ≠ CallStop else i ≠ CallStart) →
  preserves (λ w, active (st w) = b) (step i).
Proof.
  intros Hi.
  apply blind_step; try by intros ? ?.
  destruct i; try done; try by intros ? ?.
  - destruct b; [|done]. intros w Hw. cbn [step]. by rewrite start_active.
  - destruct b; [done|]. intros w Hw. cbn [step]. by rewrite stop_idle.
  - intros w Hw. cbn [step]. unfold registerCustomEvent, bind. mred.
    destruct (negb _); [done|]. unfold fresh_fn, addEventListener, listeners_set.
    mred. exact Hw.
Qed.

Lemma active_execs (b : bool) tr w :
  Forall (λ i, if b then i ≠ CallStop else i ≠ CallStart) tr →
  active (st w) = b → active (st (execs tr w)) = b.
Proof.
  unfold execs. revert w. induction tr as [|i tr IH]; intros w Htr Hw; [done|].
  apply Forall_cons in Htr as [Hi Htr]. cbn [foldl]. apply IH; [done|].
  unfold exec.
  by apply (preserves_after (λ w, active (st w) = b)); [apply active_step|].
Qed.

(** ** A tracker that was never started *)

Lemma never_started_live {A} (k : loc * Results.t → M A) :
  hoare never_started (bind live k) (λ _ _, False) never_started.
Proof.
  intros w Hw. unfold bind, live. pose proof Hw as (Hr & _). by rewrite Hr.
Qed.

Lemma never_started_push_field f x :
  hoare never_started (push_field f x) (λ _ _, False) never_started.
Proof. apply never_started_live. Qed.

Lemma hoare_false {A} (m : M A) (Q : A → world → Prop) E :
  hoare (λ _, False) m Q E.
Proof. by intros w []. Qed.

Lemma never_started_run_handler h e :
  preserves never_started (run_handler h e).
Proof.
  assert (∀ f x, preserves never_started (push_field f x)) as Hpf.
  { intros f x. eapply hoare_post; [|apply never_started_push_field]. done. }
  unfold run_handler. destruct (h_code h) as [| | | | | | | | |el|name u].
  - apply preserves_bind; [apply preserves_get|]. intros ts.
    apply preserves_modify. by intros w (? & ? & ? & ? & ? & ?).
  - eapply hoare_post; [|apply never_started_live]. done.
  - do 2 (apply preserves_bind; [apply preserves_get|]; intros ?). apply Hpf.
  - do 2 (apply preserves_bind; [apply preserves_get|]; intros ?). apply Hpf.
  - do 2 (apply preserves_bind; [apply preserves_get|]; intros ?). apply Hpf.
  - apply preserves_bind; [apply preserves_get|]; intros ?. apply Hpf.
  - do 2 (apply preserves_bind; [apply preserves_get|]; intros ?). apply Hpf.
  - apply preserves_bind; [apply preserves_get|]; intros ?. apply Hpf.
  - destruct (touches e) as [|[x y] ?]; [apply preserves_throw|].
    apply preserves_bind; [apply preserves_get|]; intros ?. apply Hpf.
  - apply preserves_bind; [apply preserves_get|]; intros m.
    destruct (m !! el); [|apply preserves_throw].
    apply preserves_bind; [apply preserves_get|]; intros ?. apply Hpf.
  - apply preserves_bind; [apply preserves_get|]; intros ?.
    eapply hoare_bind; [apply never_started_push_field|].
    intros ?. apply hoare_false.
Qed.

Lemma never_started_dispatchEvent e : preserves never_started (dispatchEvent e).
Proof.
  apply preserves_bind; [apply preserves_get|]. intros ls.
  apply preserves_forEach. intros l _.
  apply preserves_host_call; [by intros w H|]. apply never_started_run_handler.
Qed.

Lemma never_started_call_history f : preserves never_started (call_history f).
Proof.
  induction f as [name|target IH ev]; cbn [call_history].
  - apply preserves_ret.
  - apply preserves_bind; [done|]. intros ?.
    apply preserves_bind; [apply never_started_dispatchEvent|]. intros ?.
    apply never_started_dispatchEvent.
Qed.

Lemma never_started_step i :
  i ≠ CallStart → preserves never_started (step i).
Proof.
  intros Hi. destruct i; cbn [step]; try done.
  - by intros w H.
  - by intros w H.
  - apply never_started_dispatchEvent.
  - apply preserves_bind; [apply preserves_get|]. intros m.
    destruct (m !! el); [|apply preserves_ret].
    apply preserves_forEach. intros l _.
    apply preserves_host_call; [by intros w H|]. apply never_started_run_handler.
  - intros w Hw. unfold fire, bind. mred.
    destruct Hw as (? & ? & ? & ? & Ht & ?). rewrite Ht. cbn. by repeat split.
  - apply preserves_bind; [apply preserves_get|]. intros f.
    apply never_started_call_history.
  - apply preserves_bind; [apply preserves_get|]. intros f.
    apply never_started_call_history.
  - by intros w H.
  - intros w Hw. rewrite stop_idle; [done|apply Hw].
  - eapply hoare_post; [|apply never_started_live]. done.
  - intros w Hw. unfold drop, getResults, bind. mred.
    destruct Hw as (Hr & ?). rewrite Hr. cbn. by split.
  - by intros w H.
  - intros w Hw. unfold registerCustomEvent, bind. mred.
    destruct (negb _); [done|]. unfold fresh_fn, addEventListener, listeners_set.
    mred. destruct Hw as (? & ? & ? & ? & ? & ?).
    by destruct (existsb _ _).
Qed.

Lemma never_started_execs tr w :
  Forall (λ i, i ≠ CallStart) tr → never_started w → never_started (execs tr w).
Proof.
  unfold execs. revert w. induction tr as [|i tr IH]; intros w Htr Hw; [done|].
  apply Forall_cons in Htr as [Hi Htr]. cbn [foldl]. apply IH; [done|].
  unfold exec. by apply preserves_after; [apply never_started_step|].
Qed.

(** ** The intervals of a session *)

Lemma elem_of_fold_set_add (l : list timer) (s : list nat) (i : nat) :
  i ∈ foldl (λ s t, set_add (t_id t) s) s l ↔ i ∈ s ∨ i ∈ t_id <$> l.
Proof.
  revert s. induction l as [|t l IH]; intros s; cbn [foldl fmap list_fmap].
  - set_solver.
  - rewrite IH. unfold set_add. case_bool_decide; set_solver.
Qed.

Lemma clear_all_filter ids ts :
  clear_all ids ts = filter (λ t, t_id t ∉ ids) ts.
Proof.
  unfold clear_all. revert ts. induction ids as [|i ids IH]; intros ts; cbn [foldl].
  - induction ts as [|t ts IHts]; [done|].
    rewrite filter_cons_True by set_solver. by f_equal.
  - rewrite IH. induction ts as [|t ts IHts]; [done|].
    destruct (decide (t_id t = i)) as [He|He].
    + rewrite (filter_cons_False _ t ts) by (intros H; by apply H).
      rewrite (filter_cons_False _ t ts) by set_solver. exact IHts.
    + rewrite (filter_cons_True (λ t, t_id t ≠ i) t ts) by done.
      destruct (decide (t_id t ∈ ids)) as [Hin|Hin].
      * rewrite !filter_cons_False by set_solver. exact IHts.
      * rewrite !filter_cons_True by set_solver. by f_equal.
Qed.

Lemma armed_ids cfg n t : t ∈ armed cfg n → n ≤ t_id t.
Proof.
  unfold armed, sampler, flusher.
  destruct (Config.mouseMovement cfg), (truthy_num (Config.processTime cfg));
    cbn [app length]; intros H; set_unfold; destruct_or?; subst; cbn; try lia; done.
Qed.

Lemma filter_all {A} (P : A → Prop) `{!∀ x, Decision (P x)} (l : list A) :
  Forall P l → filter P l = l.
Proof.
  induction 1 as [|x l Hx _ IH]; [done|].
  rewrite filter_cons_True by done. by f_equal.
Qed.

Lemma filter_none {A} (P : A → Prop) `{!∀ x, Decision (P x)} (l : list A) :
  Forall (λ x, ¬ P x) l → filter P l = [].
Proof.
  induction 1 as [|x l Hx _ IH]; [done|].
  by rewrite filter_cons_False.
Qed.

(** Cancelling the intervals that [start] armed leaves the timers that
    were there before. *)
Lemma clear_armed cfg n ts :
  Forall (λ t, t_id t < n) ts →
  clear_all (foldl (λ s t, set_add (t_id t) s) [] (armed cfg n))
            (ts ++ armed cfg n) = ts.
Proof.
  intros Hts. rewrite clear_all_filter, filter_app.
  rewrite filter_all, filter_none; [by rewrite app_nil_r| |].
  - apply Forall_forall. intros t Ht Hn. apply Hn.
    apply elem_of_fold_set_add. right. by apply list_elem_of_fmap_2.
  - apply Forall_forall. intros t Ht Hin.
    apply elem_of_fold_set_add in Hin as [Hin|Hin]; [set_solver|].
    apply list_elem_of_fmap in Hin as (t' & Heq & Ht').
    apply armed_ids in Ht'. rewrite Forall_forall in Hts.
    specialize (Hts t Ht). lia.
Qed.

Lemma session_timers_step ts ids i :
  i ≠ CallStop → preserves (session_timers ts ids) (step i).
Proof.
  intros Hi.
  apply blind_step; try by intros ? ?.
  destruct i; try done; try by intros ? ?.
  - intros w Hw. cbn [step]. rewrite start_active; [done|apply Hw].
  - intros w Hw. cbn [step]. unfold registerCustomEvent, bind. mred.
    destruct (negb _); [done|]. unfold fresh_fn, addEventListener, listeners_set.
    mred. destruct Hw as (? & ? & ?). by destruct (existsb _ _).
Qed.

Lemma session_timers_execs ts ids tr w :
  Forall (λ i, i ≠ CallStop) tr →
  session_timers ts ids w → session_timers ts ids (execs tr w).
Proof.
  unfold execs. revert w. induction tr as [|i tr IH]; intros w Htr Hw; [done|].
  apply Forall_cons in Htr as [Hi Htr]. cbn [foldl]. apply IH; [done|].
  unfold exec. by apply preserves_after; [apply session_timers_step|].
Qed.

(** ** The buffer that [stop] leaves *)

Lemma stop_quiet w v :
  active (st w) = true → heap_ok w → read_live w = Some v →
  quiet (Config.processData (config (st w))) →
  let w' := exec CallStop w in
  stop w = Ok tt w' ∧ heap_ok w' ∧
  read_live w' =
    Some (if Config.clearAfterProcess (config (st w))
          then empty_view (if Config.userInfo (config (st w))
                           then v_userInfo v else None)
          else final_view w v).
Proof.
  intros Ha Hok Hv Hq. unfold exec. cbn [step].
  apply read_live_Some in Hv as (l & r & Hl & Hr & Hf).
  rewrite (stop_active _ Ha).
  destruct (final_flush_stamp (torn_down w) l r v Hl Hr Hf)
    as (-> & Hr' & Hf' & Hok').
  match goal with |- context [processResults ?x] => set (ws := x) in * end.
  assert (read_live ws = Some (with_time (mkTime (startTime (v_time v))
            (currentTime (v_time v)) (now (hst w))) v)) as Hv'.
  { apply read_live_Some. by exists l, r. }
  specialize (Hok' Hok).
  destruct (Config.clearAfterProcess (config (st w))) eqn:Hc.
  - destruct (processResults_clear ws _ Hok' Hv' Hc Hq) as (w' & -> & Hok2 & Hv2).
    cbn [after]. done.
  - destruct (processResults_keep ws _ Hok' Hv' Hc Hq) as (r2 & -> & Hok2 & Hv2).
    cbn [after]. done.
Qed.

Ltac nodup_lia :=
  repeat (apply NoDup_cons; split;
          [rewrite ?not_elem_of_cons; repeat split;
           first [lia | apply not_elem_of_nil]|]);
  apply NoDup_nil_2.

Ltac reset_fields :=
  cbn [Results.with_userInfo
      Results.userInfo Results.time Results.clicks Results.mouseMovements
      Results.mouseScroll Results.keyboardActivities Results.navigationHistory
      Results.formInteractions Results.touchEvents Results.mediaInteractions
      Results.windowSizes Results.visibilityChanges Results.customEvents].

Lemma resetResults_whole w :
  ∃ l r h' n',
    resetResults w =
      Ok tt (mkWorld (st_results (Some l) (st w)) h' n' (hst w)
                     (delivered w) (uncaught w)) ∧
    next_loc w ≤ l ∧ l < n' ∧
    (∀ k, k < next_loc w → h' !! k = hp w !! k) ∧
    (∀ k, n' ≤ k → h' !! k = hp w !! k) ∧
    h' !! l = Some (CResults r) ∧
    read_userInfo h' (Results.userInfo r) =
      Some (if Config.userInfo (config (st w))
            then Some (fresh_userInfo (pg (hst w))) else None) ∧
    (∀ uo x, read_userInfo h' uo = Some x →
       (uo = Results.userInfo r ∨ ∀ u, uo = Some u → u < next_loc w) →
       read_fields h' (Results.with_userInfo uo r) = Some (empty_view x) ∧
       NoDup (footprint (<[l:=CResults (Results.with_userInfo uo r)]> h') l)) ∧
    (∀ uo, Forall (λ k, next_loc w ≤ k)
             (buffer_cells (<[l:=CResults (Results.with_userInfo uo r)]> h') l)).
Proof.
  unfold resetResults. msimpl.
  destruct (Config.userInfo (config (st w))); msimpl;
    (eexists _, _, _, _; split; [reflexivity|]);
    (split; [lia|]); (split; [lia|]);
    (split; [intros k Hk; by lookups|]);
    (split; [intros k Hk; by lookups|]);
    (split; [by lookups|]);
    (split; [unfold read_userInfo; cbn [Results.userInfo]; by lookups|]);
    (split; [intros uo x Hx Huo; split|intros uo]).
  1,4: apply read_fields_Some;
    unfold read_time, read_clicks, read_array; reset_fields;
    cbn [empty_view v_userInfo v_time v_clickCount v_clickDetails v_mouseMovements
      v_mouseScroll v_keyboardActivities v_navigationHistory v_formInteractions
      v_touchEvents v_mediaInteractions v_windowSizes v_visibilityChanges
      v_customEvents];
    lookups; repeat split; try done;
    (eexists; lookups; split; [reflexivity|]; split; [reflexivity|];
     cbn [clickDetails]; by lookups).
  1,3: unfold footprint, read_results; rewrite lookup_insert_eq;
    unfold read_clicks; reset_fields; lookups; cbn [clickDetails app];
    (destruct Huo as [->|Huo];
       [|destruct uo as [u|]; [specialize (Huo u eq_refl)|]]);
    cbn [Results.userInfo app]; nodup_lia.
  all: unfold buffer_cells, read_results; rewrite lookup_insert_eq;
    unfold read_clicks; reset_fields; lookups; cbn [clickDetails app];
    repeat (apply Forall_cons; split; [lia|]); apply Forall_nil_2.
Qed.

(** ** Whole buffers *)

Lemma footprint_eq h l r c :
  read_results h l = Some r → read_clicks h (Results.clicks r) = Some c →
  footprint h l =
    l :: Results.time r :: Results.clicks r :: clickDetails c ::
    Results.mouseMovements r :: Results.mouseScroll r ::
    Results.keyboardActivities r :: Results.navigationHistory r ::
    Results.formInteractions r :: Results.touchEvents r ::
    Results.mediaInteractions r :: Results.windowSizes r ::
    Results.visibilityChanges r :: Results.customEvents r ::
    match Results.userInfo r with Some u => [u] | None => [] end.
Proof.
  intros Hr Hc. unfold footprint. rewrite Hr, Hc. cbn [app].
  by rewrite app_nil_r.
Qed.

Lemma footprint_same h h' l r c c' :
  read_results h l = Some r → read_clicks h (Results.clicks r) = Some c →
  read_results h' l = Some r → read_clicks h' (Results.clicks r) = Some c' →
  clickDetails c' = clickDetails c →
  footprint h' l = footprint h l.
Proof.
  intros Hr Hc Hr' Hc' Hd.
  by rewrite (footprint_eq _ _ _ _ Hr Hc), (footprint_eq _ _ _ _ Hr' Hc'), Hd.
Qed.

Lemma field_index_inj k k' : field_index k = field_index k' → k = k'.
Proof. destruct k, k'; cbn; intros; by try discriminate. Qed.

Lemma footprint_field h l r c k :
  read_results h l = Some r → read_clicks h (Results.clicks r) = Some c →
  footprint h l !! field_index k = Some (field_loc k r).
Proof.
  intros Hr Hc. rewrite (footprint_eq _ _ _ _ Hr Hc). by destruct k.
Qed.

(** The sequences of a whole buffer are distinct arrays, and none of them
    is the array of click records. *)
Lemma whole_separate h l r c :
  read_results h l = Some r → read_clicks h (Results.clicks r) = Some c →
  NoDup (footprint h l) →
  (∀ k, field_loc k r ≠ clickDetails c) ∧
  (∀ k k', field_loc k r = field_loc k' r → k = k').
Proof.
  intros Hr Hc Hnd. split.
  - intros k e.
    assert (field_index k = 3) as Hk.
    { eapply NoDup_lookup; [exact Hnd|by eapply footprint_field|].
      rewrite e, (footprint_eq _ _ _ _ Hr Hc). done. }
    by destruct k.
  - intros k k' e. apply field_index_inj.
    eapply NoDup_lookup; [exact Hnd|by eapply footprint_field|].
    rewrite e. by eapply footprint_field.
Qed.

Lemma field_view_read h r v k :
  read_fields h r = Some v → read_array h (field_loc k r) = Some (field_view k v).
Proof.
  intros H. apply read_fields_Some in H
    as (Hu & Ht & Hc & H1 & H2 & H3 & H4 & H5 & H6 & H7 & H8 & H9 & H10).
  by destruct k.
Qed.

Lemma field_view_append k k' x v :
  field_view k' (append_field k x v) =
  if decide (k' = k) then field_view k' v ++ [x] else field_view k' v.
Proof. by destruct k, k'. Qed.

Lemma push_view_append h l r c k x v :
  read_results h l = Some r → read_clicks h (Results.clicks r) = Some c →
  NoDup (footprint h l) →
  push_view (field_loc k r) x r (clickDetails c) v = append_field k x v.
Proof.
  intros Hr Hc Hnd.
  destruct (whole_separate _ _ _ _ Hr Hc Hnd) as [H1 H2].
  assert (∀ k' b, pushed (field_loc k r) x (field_loc k' r) b =
                  snoc_if (bool_decide (k = k')) b x) as Hp.
  { intros k' b. unfold pushed, snoc_if.
    destruct (decide (k = k')) as [->|Hne].
    - by rewrite decide_True, bool_decide_true.
    - rewrite decide_False, bool_decide_false; [done..|].
      intros e. by apply Hne, H2. }
  unfold push_view, append_field.
  f_equal;
    [ unfold pushed; by rewrite decide_False
    | exact (Hp FMouseMovements _) | exact (Hp FMouseScroll _)
    | exact (Hp FKeyboardActivities _) | exact (Hp FNavigationHistory _)
    | exact (Hp FFormInteractions _) | exact (Hp FTouchEvents _)
    | exact (Hp FMediaInteractions _) | exact (Hp FWindowSizes _)
    | exact (Hp FVisibilityChanges _) | exact (Hp FCustomEvents _) ].
Qed.

(** A handler's push onto one of the sequences of a whole buffer. *)
Lemma push_field_whole w l r c v k x :
  results (st w) = Some l → read_results (hp w) l = Some r →
  read_clicks (hp w) (Results.clicks r) = Some c →
  read_fields (hp w) r = Some v → NoDup (footprint (hp w) l) →
  let w' := set_hp (λ h, <[field_loc k r:=CArray (field_view k v ++ [x])]> h) w in
  push_field (field_loc k) x w = Ok tt w' ∧
  read_results (hp w') l = Some r ∧
  read_clicks (hp w') (Results.clicks r) = Some c ∧
  read_fields (hp w') r = Some (append_field k x v) ∧
  footprint (hp w') l = footprint (hp w) l.
Proof.
  intros Hl Hr Hc Hf Hnd w'.
  pose proof (field_view_read _ _ _ k Hf) as Ha.
  pose proof (read_array_lookup _ _ _ Ha) as Hlk.
  assert (read_results (hp w') l = Some r) as Hr'.
  { unfold w'. cbn [set_hp hp].
    by rewrite (read_results_store _ _ _ _ _ Hlk). }
  assert (read_clicks (hp w') (Results.clicks r) = Some c) as Hc'.
  { unfold w'. cbn [set_hp hp].
    by rewrite (read_clicks_store _ _ _ _ _ Hlk). }
  split; [by apply (push_field_ok _ _ _ _ _ _ Hl Hr Ha)|].
  split; [exact Hr'|]. split; [exact Hc'|]. split.
  - unfold w'. cbn [set_hp hp].
    rewrite (read_fields_push _ _ _ _ _ _ _ Hf Hc Ha).
    f_equal. exact (push_view_append _ _ _ _ _ _ _ Hr Hc Hnd).
  - exact (footprint_same _ _ _ _ _ _ Hr Hc Hr' Hc' eq_refl).
Qed.

Lemma read_fields_set_count h r v c n :
  read_fields h r = Some v → read_clicks h (Results.clicks r) = Some c →
  read_fields (<[Results.clicks r:=CClicks (mkClicks n (clickDetails c))]> h) r =
  Some (mkView (v_userInfo v) (v_time v) n (v_clickDetails v)
          (v_mouseMovements v) (v_mouseScroll v) (v_keyboardActivities v)
          (v_navigationHistory v) (v_formInteractions v) (v_touchEvents v)
          (v_mediaInteractions v) (v_windowSizes v) (v_visibilityChanges v)
          (v_customEvents v)).
Proof.
  intros H Hc.
  apply read_fields_Some in H
    as (Hu & Ht & (c' & Hc' & Hn & Hd) & H1 & H2 & H3 & H4 & H5 & H6 & H7 & H8 & H9 & H10).
  assert (c' = c) as -> by congruence.
  pose proof (read_clicks_lookup _ _ _ Hc) as Hl.
  apply read_fields_Some. cbn.
  rewrite (read_userInfo_store _ _ _ _ _ Hl), (read_time_store _ _ _ _ _ Hl),
    !(read_array_store _ _ _ _ _ Hl) by done.
  repeat split; try done.
  exists (mkClicks n (clickDetails c)). split; [|split; [done|]].
  - unfold read_clicks. by rewrite lookup_insert_eq.
  - cbn [clickDetails]. by rewrite (read_array_store _ _ _ _ _ Hl).
Qed.

(** A click on a whole buffer. *)
Lemma handleClick_whole w l r c v e :
  results (st w) = Some l → read_results (hp w) l = Some r →
  read_clicks (hp w) (Results.clicks r) = Some c →
  read_fields (hp w) r = Some v → NoDup (footprint (hp w) l) →
  let x := [JNum (clientX e); JNum (clientY e);
            JStr (path_string (click_path e)); JNum (now (hst w))] in
  let c' := mkClicks (clickCount c + 1) (clickDetails c) in
  let w' := set_hp (λ h, <[clickDetails c:=CArray (v_clickDetails v ++ [x])]>
                           (<[Results.clicks r:=CClicks c']> h)) w in
  handleClick e w = Ok tt w' ∧
  read_results (hp w') l = Some r ∧
  read_clicks (hp w') (Results.clicks r) = Some c' ∧
  read_fields (hp w') r = Some (click_view x v) ∧
  footprint (hp w') l = footprint (hp w) l.
Proof.
  intros Hl Hr Hc Hf Hnd x c' w'.
  destruct (whole_separate _ _ _ _ Hr Hc Hnd) as [Hsep _].
  pose proof (read_clicks_lookup _ _ _ Hc) as Hlc.
  pose proof (read_fields_set_count _ _ _ _ (clickCount c + 1) Hf Hc) as Hf1.
  pose proof Hf as Hf0.
  apply read_fields_Some in Hf0 as (_ & _ & (c0 & Hc0 & Hn0 & Hd0) & _).
  assert (c0 = c) as -> by congruence.
  set (h1 := <[Results.clicks r:=CClicks c']> (hp w)) in *.
  assert (read_array h1 (clickDetails c) = Some (v_clickDetails v)) as Hd1.
  { unfold h1. by rewrite (read_array_store _ _ _ _ _ Hlc). }
  assert (read_clicks h1 (Results.clicks r) = Some c') as Hc1.
  { unfold h1, read_clicks. by rewrite lookup_insert_eq. }
  assert (read_results h1 l = Some r) as Hr1.
  { unfold h1. by rewrite (read_results_store _ _ _ _ _ Hlc). }
  pose proof (read_array_lookup _ _ _ Hd1) as Hld.
  assert (read_results (hp w') l = Some r) as Hr'.
  { unfold w'. cbn [set_hp hp]. fold h1.
    by rewrite (read_results_store _ _ _ _ _ Hld). }
  assert (read_clicks (hp w') (Results.clicks r) = Some c') as Hc'.
  { unfold w'. cbn [set_hp hp]. fold h1.
    by rewrite (read_clicks_store _ _ _ _ _ Hld). }
  split.
  { unfold handleClick, bind. rewrite (live_ok _ _ _ Hl Hr). cbn [snd].
    rewrite (load_clicks_ok _ _ _ Hc). mred.
    erewrite push_ok; [reflexivity|]. exact Hd1. }
  split; [exact Hr'|]. split; [exact Hc'|]. split.
  - unfold w'. cbn [set_hp hp]. fold h1.
    rewrite (read_fields_push _ _ _ _ _ _ _ Hf1 Hc1 Hd1). f_equal.
    unfold push_view, click_view, pushed. cbn [clickDetails c' v_userInfo v_time
      v_clickCount v_clickDetails v_mouseMovements v_mouseScroll
      v_keyboardActivities v_navigationHistory v_formInteractions v_touchEvents
      v_mediaInteractions v_windowSizes v_visibilityChanges v_customEvents].
    rewrite Hn0. rewrite decide_True by done.
    pose proof (Hsep FMouseMovements). pose proof (Hsep FMouseScroll).
    pose proof (Hsep FKeyboardActivities). pose proof (Hsep FNavigationHistory).
    pose proof (Hsep FFormInteractions). pose proof (Hsep FTouchEvents).
    pose proof (Hsep FMediaInteractions). pose proof (Hsep FWindowSizes).
    pose proof (Hsep FVisibilityChanges). pose proof (Hsep FCustomEvents).
    cbn [field_loc] in *.
    by rewrite !decide_False by done.
  - exact (footprint_same _ _ _ _ _ _ Hr Hc Hr' Hc' eq_refl).
Qed.

(** ** Handlers, for a property kept by the handlers' own writes

    The listeners push onto the ten sequences of the live buffer, and the
    click handler counts and pushes a click record; a property need only
    be kept by these. *)
Section FieldHandlers.
Variable P : world → Prop.
Variable ok : userHandler → Prop.

Hypothesis P_mouse : ∀ w p, P w → P (set_st (st_mousePosition p) w).
Hypothesis P_reported : ∀ w, P w → P (reported w).
Hypothesis P_field : ∀ k x, preserves P (push_field (field_loc k) x).
Hypothesis P_click : ∀ e, preserves P (handleClick e).
Hypothesis P_user : ∀ w u e, P w → ok u → P (after (call_userHandler u e w)).
Hypothesis P_listeners : ∀ w, P w → listeners_ok ok w.

Lemma field_run_handler h e :
  handler_ok ok h → preserves P (run_handler h e).
Proof using P_mouse P_field P_click P_user.
  unfold handler_ok, run_handler. intros Hh.
  destruct (h_code h) as [| | | | | | | | |el|name u].
  - apply preserves_handleMouseMove. exact P_mouse.
  - apply P_click.
  - do 2 (apply preserves_bind; [apply preserves_get|]; intros ?).
    apply (P_field FMouseScroll).
  - do 2 (apply preserves_bind; [apply preserves_get|]; intros ?).
    apply (P_field FWindowSizes).
  - do 2 (apply preserves_bind; [apply preserves_get|]; intros ?).
    apply (P_field FVisibilityChanges).
  - apply preserves_bind; [apply preserves_get|]; intros ?.
    apply (P_field FKeyboardActivities).
  - do 2 (apply preserves_bind; [apply preserves_get|]; intros ?).
    apply (P_field FNavigationHistory).
  - apply preserves_bind; [apply preserves_get|]; intros ?.
    apply (P_field FFormInteractions).
  - destruct (touches e) as [|[x y] ?]; [apply preserves_throw|].
    apply preserves_bind; [apply preserves_get|]; intros ?.
    apply (P_field FTouchEvents).
  - apply preserves_bind; [apply preserves_get|]; intros m.
    destruct (m !! el); [|apply preserves_throw].
    apply preserves_bind; [apply preserves_get|]; intros ?.
    apply (P_field FMediaInteractions).
  - apply preserves_bind; [apply preserves_get|]; intros ?.
    apply preserves_bind; [apply (P_field FCustomEvents)|]. intros ?.
    intros w Hw. specialize (P_user w u e Hw Hh).
    by destruct (call_userHandler u e w).
Qed.

Lemma field_dispatchEvent e : preserves P (dispatchEvent e).
Proof using All.
  eapply hoare_bind with
    (Q := λ ls w, P w ∧ Forall (λ l, handler_ok ok (l_handler l)) ls).
  { intros w Hw. split; [done|]. by apply P_listeners. }
  intros ls. intros w [Hw Hls]. revert w Hw.
  apply preserves_forEach. intros l Hl.
  apply preserves_host_call; [done|]. apply field_run_handler.
  apply list_elem_of_filter in Hl as [_ Hl].
  by eapply Forall_forall in Hls.
Qed.

Lemma field_dispatchMedia el e : preserves P (dispatchMedia el e).
Proof using All.
  eapply hoare_bind with
    (Q := λ m w, P w ∧
            Forall (λ x, Forall (λ l, handler_ok ok l.2) (el_listeners x)) m).
  { intros w Hw. split; [done|]. by apply P_listeners. }
  intros m w [Hw Hm]. revert w Hw.
  destruct (m !! el) as [x|] eqn:Hx; [|apply preserves_ret].
  apply preserves_forEach. intros l Hl.
  apply preserves_host_call; [done|]. apply field_run_handler.
  apply list_elem_of_filter in Hl as [_ Hl].
  eapply Forall_lookup in Hm; [|exact Hx].
  by eapply Forall_forall in Hm.
Qed.

Lemma field_call_history f : preserves P (call_history f).
Proof using All.
  induction f as [name|target IH ev]; cbn [call_history].
  - apply preserves_ret.
  - apply preserves_bind; [done|]. intros ?.
    apply preserves_bind; [apply field_dispatchEvent|]. intros ?.
    apply field_dispatchEvent.
Qed.

Lemma field_sampleMouse : preserves P sampleMouse.
Proof using P_field.
  apply preserves_bind; [apply preserves_get|]. intros [p|]; [|apply preserves_ret].
  apply preserves_bind; [apply preserves_live|]. intros lr.
  eapply hoare_bind; [apply hoare_load_array|]. intros a.
  eapply hoare_weaken with (P := P); [by intros ? []|].
  destruct (_ || _); [apply (P_field FMouseMovements)|apply preserves_ret].
Qed.
End FieldHandlers.

(** ** [tracker_ok] is kept *)

Lemma tracker_ok_buffer w l :
  tracker_ok w → results (st w) = Some l →
  ∃ r c v,
    read_results (hp w) l = Some r ∧
    read_clicks (hp w) (Results.clicks r) = Some c ∧
    read_fields (hp w) r = Some v ∧ NoDup (footprint (hp w) l) ∧
    count_ok v ∧ (active (st w) = true → stopTime (v_time v) = 0%Z).
Proof.
  intros (_ & _ & _ & _ & Hb) Hl. rewrite Hl in Hb.
  destruct Hb as (v & (l' & Hl' & Hv & Hnd) & Hc & Ht).
  assert (l' = l) as -> by congruence.
  unfold read_view in Hv.
  destruct (read_results (hp w) l) as [r|] eqn:Hr; [|done].
  cbn [mbind option_bind] in Hv.
  pose proof Hv as Hv0.
  apply read_fields_Some in Hv0 as (_ & _ & (c & Hrc & _) & _).
  by exists r, c, v.
Qed.

Lemma tracker_ok_intro w l r v :
  heap_ok w →
  readonly_consumer (Config.processData (config (st w))) →
  listeners_ok readonly_handler w →
  Forall (λ d, ∃ v, d_view d = Some v ∧ count_ok v) (delivered w) →
  results (st w) = Some l → read_results (hp w) l = Some r →
  read_fields (hp w) r = Some v → NoDup (footprint (hp w) l) →
  count_ok v → (active (st w) = true → stopTime (v_time v) = 0%Z) →
  tracker_ok w.
Proof.
  intros Hok Hc Hl Hd Hres Hr Hf Hnd Hcnt Ht.
  split; [done|]. split; [done|]. split; [done|]. split; [done|].
  rewrite Hres. exists v. split; [|done]. exists l. split; [done|].
  split; [|done]. unfold read_view. by rewrite Hr.
Qed.

Lemma tracker_ok_mouse w p :
  tracker_ok w → tracker_ok (set_st (st_mousePosition p) w).
Proof. by intros H. Qed.

Lemma tracker_ok_reported w : tracker_ok w → tracker_ok (reported w).
Proof. by intros H. Qed.

Lemma tracker_ok_listeners w : tracker_ok w → listeners_ok readonly_handler w.
Proof. by intros (_ & _ & H & _). Qed.

Lemma tracker_ok_user w u e :
  tracker_ok w → readonly_handler u → tracker_ok (after (call_userHandler u e w)).
Proof.
  intros Hw Hu. unfold call_userHandler.
  destruct (Hu e (hp w)) as [-> | ->]; cbn [after]; by rewrite set_hp_same.
Qed.

Lemma tracker_ok_field k x : preserves tracker_ok (push_field (field_loc k) x).
Proof.
  intros w Hw. destruct (results (st w)) as [l|] eqn:Hl.
  - destruct (tracker_ok_buffer w l Hw Hl)
      as (r & c & v & Hr & Hc & Hf & Hnd & Hcnt & Ht).
    destruct (push_field_whole w l r c v k x Hl Hr Hc Hf Hnd)
      as (-> & Hr' & Hc' & Hf' & Hfp).
    destruct Hw as (Hok & Hcs & Hls & Hd & _).
    eapply tracker_ok_intro; try done.
    + apply heap_ok_store; [done|].
      pose proof (field_view_read _ _ _ k Hf) as Ha.
      apply read_array_lookup in Ha. by rewrite Ha.
    + by rewrite Hfp.
  - unfold push_field, bind, live. by rewrite Hl.
Qed.

Lemma tracker_ok_click e : preserves tracker_ok (handleClick e).
Proof.
  intros w Hw. destruct (results (st w)) as [l|] eqn:Hl.
  - destruct (tracker_ok_buffer w l Hw Hl)
      as (r & c & v & Hr & Hc & Hf & Hnd & Hcnt & Ht).
    destruct (handleClick_whole w l r c v e Hl Hr Hc Hf Hnd)
      as (-> & Hr' & Hc' & Hf' & Hfp).
    destruct Hw as (Hok & Hcs & Hls & Hd & _).
    eapply tracker_ok_intro; try done.
    + pose proof (read_clicks_lookup _ _ _ Hc) as Hlc.
      pose proof Hf as Hf0.
      apply read_fields_Some in Hf0 as (_ & _ & (c0 & Hc0 & _ & Hd0) & _).
      assert (c0 = c) as -> by congruence.
      apply read_array_lookup in Hd0.
      set (c' := mkClicks (clickCount c + 1) (clickDetails c)).
      set (w1 := set_hp (λ h, <[Results.clicks r:=CClicks c']> h) w).
      assert (heap_ok w1) as Hok1.
      { apply heap_ok_store; [done|]. by rewrite Hlc. }
      refine (heap_ok_store w1 (clickDetails c) _ Hok1 _).
      cbn [w1 set_hp hp]. rewrite lookup_insert_ne; [by rewrite Hd0|].
      intros e'. rewrite e' in Hlc. congruence.
    + by rewrite Hfp.
    + unfold count_ok, click_view in *. cbn. rewrite Hcnt, length_app. cbn. lia.
  - unfold handleClick, bind, live. by rewrite Hl.
Qed.

Lemma heap_ok_below w k x : heap_ok w → hp w !! k = Some x → k < next_loc w.
Proof.
  intros Hok Hx. destruct (decide (k < next_loc w)); [done|].
  rewrite Hok in Hx by lia. done.
Qed.

Lemma tracker_ok_clear_step : preserves tracker_ok clear_step.
Proof.
  intros w Hw. unfold clear_step. unfold bind at 1. mred.
  destruct (Config.clearAfterProcess (config (st w))) eqn:Hclear; [|exact Hw].
  destruct (resetResults_whole w)
    as (l' & r' & h' & n' & Hreset & Hle & Hlt & Hlow & Hhigh & Hl' & Hui & Hfields
        & Hcells).
  pose proof Hw as (Hok & Hcs & Hls & Hd & Hb).
  assert (∀ k, n' ≤ k → h' !! k = None) as Hok'.
  { intros k Hk. rewrite Hhigh by done. apply Hok. lia. }
  destruct (Config.userInfo (config (st w))) eqn:Hcu.
  - destruct (results (st w)) as [l|] eqn:Hl.
    + destruct (tracker_ok_buffer w l Hw Hl)
        as (r & c & v & Hr & Hc & Hf & Hnd & Hcnt & Ht).
      unfold bind at 1. unfold bind at 1. rewrite (live_ok _ _ _ Hl Hr). mred.
      unfold bind at 1. rewrite Hreset. unfold bind at 1.
      unfold live. mred. unfold read_results. rewrite Hl'. mred.
      pose proof Hf as Hf0. apply read_fields_Some in Hf0 as (Hu & _).
      assert (read_userInfo h' (Results.userInfo r) = Some (v_userInfo v)) as Hu'.
      { exact (read_userInfo_frame _ _ (next_loc w) _ _ Hok Hlow Hu). }
      destruct (Hfields (Results.userInfo r) (v_userInfo v) Hu') as [Hf' Hnd'].
      { right. intros u Hu0. rewrite Hu0 in Hu. unfold read_userInfo in Hu.
        destruct (hp w !! u) as [x|] eqn:Hx; [|done].
        by eapply heap_ok_below. }
      eapply (tracker_ok_intro _ l' (Results.with_userInfo (Results.userInfo r) r')
                (empty_view (v_userInfo v))); try done.
      * intros k Hk. cbn [hp next_loc] in *.
        rewrite lookup_insert_ne by lia. by apply Hok'.
      * cbn [hp]. unfold read_results. by rewrite lookup_insert_eq.
      * cbn [hp]. by rewrite (read_fields_store_results _ _ _ _ _ Hl').
    + unfold bind at 1. unfold bind at 1. unfold live. by rewrite Hl.
  - unfold bind at 1. mred. unfold bind at 1. rewrite Hreset. mred.
    destruct (Hfields (Results.userInfo r') _ Hui) as [Hf' Hnd']; [by left|].
    rewrite with_userInfo_id in Hf', Hnd'. rewrite insert_id in Hnd' by done.
    eapply (tracker_ok_intro _ l' r'); try done.
    cbn [hp]. unfold read_results. by rewrite Hl'.
Qed.

Lemma count_ok_flushed w v : count_ok v → count_ok (flushed_view w v).
Proof. done. Qed.

Lemma tracker_ok_processResults : preserves tracker_ok processResults.
Proof.
  intros w Hw. destruct (results (st w)) as [l|] eqn:Hl.
  - destruct (tracker_ok_buffer w l Hw Hl)
      as (r & c & v & Hr & Hc & Hf & Hnd & Hcnt & Ht).
    pose proof Hw as (Hok & Hcs & Hls & Hd & _).
    destruct (processResults_prefix w l r v Hok Hl Hr Hf) as (Hok2 & Hr2 & Hf2 & ->).
    set (w2 := at_consumer w r v) in *.
    assert (read_clicks (hp w2) (Results.clicks r) = Some c) as Hc2.
    { pose proof Hf as Hf0. apply read_fields_Some in Hf0 as (_ & Htm & _).
      apply read_time_lookup in Htm.
      unfold w2, at_consumer. cbn [hp].
      apply read_clicks_fresh.
      - rewrite lookup_insert_ne; [by apply Hok|].
        intros e. apply heap_ok_below in Htm; [lia|done].
      - by rewrite (read_clicks_store _ _ _ _ _ Htm). }
    assert (tracker_ok w2) as Hw2.
    { eapply (tracker_ok_intro _ l r (flushed_view w v)); try done.
      - unfold w2, at_consumer. cbn [delivered]. apply Forall_app. split; [done|].
        apply Forall_singleton. by exists (flushed_view w v).
      - by rewrite (footprint_same _ _ _ _ _ _ Hr Hc Hr2 Hc2 eq_refl). }
    destruct (Hcs (next_loc w) (hp w2)) as [-> | ->]; rewrite set_hp_same; [|done].
    apply tracker_ok_clear_step. exact Hw2.
  - unfold processResults, bind, live. by rewrite Hl.
Qed.

Lemma tracker_ok_getResults : preserves tracker_ok getResults.
Proof.
  intros w Hw. destruct (results (st w)) as [l|] eqn:Hl.
  - destruct (tracker_ok_buffer w l Hw Hl)
      as (r & c & v & Hr & Hc & Hf & Hnd & Hcnt & Ht).
    pose proof Hw as (Hok & Hcs & Hls & Hd & _).
    assert (read_live w = Some v) as Hv.
    { apply read_live_Some. by exists l, r. }
    destruct (getResults_spec w v Hok Hv)
      as (s & r' & h' & n' & -> & Hok' & _ & Hlow & _ & _ & Hv' & _).
    apply read_live_Some in Hv' as (l2 & r2 & Hl2 & Hr2 & Hf2).
    cbn [st hp] in Hl2, Hr2, Hf2.
    assert (l2 = l) as -> by congruence.
    assert (read_results h' l = Some r) as Hr'.
    { unfold read_results. rewrite Hlow.
      - by rewrite (read_results_lookup _ _ _ Hr).
      - eapply heap_ok_below; [done|]. by apply read_results_lookup. }
    assert (r2 = r) as -> by congruence.
    assert (read_clicks h' (Results.clicks r) = Some c) as Hc'.
    { unfold read_clicks. rewrite Hlow.
      - by rewrite (read_clicks_lookup _ _ _ Hc).
      - eapply heap_ok_below; [done|]. by apply read_clicks_lookup. }
    eapply (tracker_ok_intro _ l r v); try done.
    cbn [hp]. by rewrite (footprint_same _ _ _ _ _ _ Hr Hc Hr' Hc' eq_refl).
  - unfold getResults, bind. mred. by rewrite Hl.
Qed.

Lemma tracker_ok_registerCustomEvent n h :
  readonly_handler h → preserves tracker_ok (registerCustomEvent n h).
Proof.
  intros Hh w (Hok & Hc & [Hl Hm] & Hd & Hb). unfold registerCustomEvent, bind. mred.
  destruct (negb _); [done|]. unfold fresh_fn, addEventListener, listeners_set.
  mred. destruct (existsb _ _); (split; [exact Hok|]; split; [exact Hc|];
    split; [|split; [exact Hd|exact Hb]]); (split; [|exact Hm]); [exact Hl|].
  cbn. apply Forall_app. split; [exact Hl|]. by apply Forall_singleton.
Qed.

Lemma tracker_ok_fire i : preserves tracker_ok (fire i).
Proof.
  apply preserves_bind; [apply preserves_get|]. intros ts.
  destruct (find _ ts) as [t|]; [|apply preserves_ret].
  apply preserves_host_call; [apply tracker_ok_reported|].
  destruct (t_task t); cbn [run_task].
  - apply field_sampleMouse. apply tracker_ok_field.
  - apply tracker_ok_processResults.
Qed.

Lemma tracker_ok_start : preserves tracker_ok start.
Proof.
  intros w Hw. destruct (active (st w)) eqn:Ha; [by rewrite start_active|].
  pose proof Hw as (Hok & Hcs & Hls & Hd & _).
  unfold start. unfold bind at 1. mred. rewrite Ha.
  unfold bind at 1. mred. unfold bind at 1.
  match goal with |- context [resetResults ?wa] =>
    destruct (resetResults_whole wa)
      as (l' & r' & h' & n' & Hreset & Hle & Hlt & Hlow & Hhigh & Hl' & Hui & Hfields
          & Hcells)
  end.
  msimpl_in Hreset. msimpl_in Hle. msimpl_in Hlow. msimpl_in Hhigh. msimpl_in Hui.
  destruct (Hfields _ _ Hui) as [Hf Hnd]; [by left|].
  rewrite with_userInfo_id in Hf, Hnd. rewrite insert_id in Hnd by done.
  pose proof Hf as Hf0.
  apply read_fields_Some in Hf0 as (_ & Ht & (c & Hc & _) & _).
  pose proof (read_fields_store_time _ _ _ (mkTime (now (hst w)) 0 0) Hf) as Hf1.
  pose proof (read_time_lookup _ _ _ Ht) as Hlt'.
  assert (read_results h' l' = Some r') as Hr.
  { unfold read_results. by rewrite Hl'. }
  rewrite Hreset.
  unfold bind at 1. unfold live. mred. rewrite Hr.
  mred. unfold bind at 1. unfold load_time. mred. rewrite Ht.
  unfold bind at 1. mred. unfold bind at 1. mred. unfold bind at 1. mred.
  cbn [empty_view v_time currentTime stopTime].
  match goal with |- context [bind _ _ ?x] => set (w1 := x) end.
  destruct (start_body_spec readonly_handler (config (st w)) w1 Hls)
    as (w' & Hrun & Hcore & Ha' & Hl1 & _).
  match goal with |- match ?t with _ => _ end =>
    change t with (start_body (config (st w)) w1)
  end.
  rewrite Hrun.
  destruct Hcore as (Hhp & Hnl & Hd' & Hu & Hcfg & Hres & Hmp & Horig & Hnow & Hpg).
  cbn [w1 hp next_loc delivered uncaught st hst config results mousePosition
       originalHistoryMethods active] in *.
  set (h1 := <[Results.time r':=CTime (mkTime (now (hst w)) 0 0)]> h') in *.
  assert (read_results h1 l' = Some r') as Hr1.
  { unfold h1. by rewrite (read_results_store _ _ _ _ _ Hlt'). }
  assert (read_clicks h1 (Results.clicks r') = Some c) as Hc1.
  { unfold h1. by rewrite (read_clicks_store _ _ _ _ _ Hlt'). }
  eapply (tracker_ok_intro _ l' r'); rewrite ?Hhp, ?Hnl, ?Hd', ?Hcfg, ?Hres;
    try done.
  - intros k Hk. rewrite Hhp, Hnl in *.
    assert (h' !! k = None) as Hnone.
    { rewrite Hhigh by done. apply Hok. lia. }
    unfold h1. rewrite lookup_insert_ne; [done|]. intros Heq.
    rewrite Heq in Hlt'. congruence.
  - by rewrite (footprint_same _ _ _ _ _ _ Hr Hc Hr1 Hc1 eq_refl).
Qed.

Lemma detach_all_Forall (P : wlistener → Prop) ls wl :
  Forall P wl → Forall P (detach_all ls wl).
Proof.
  unfold detach_all. revert wl. induction ls as [|kv ls IH]; intros wl H; [done|].
  cbn [foldl]. apply IH. apply Forall_forall. intros l Hl.
  apply list_elem_of_filter in Hl as [_ Hl]. by eapply Forall_forall in H.
Qed.

Lemma detach_media_Forall (P : string * handler → Prop) ms m :
  Forall (λ x, Forall P (el_listeners x)) m →
  Forall (λ x, Forall P (el_listeners x)) (detach_media ms m).
Proof.
  unfold detach_media. revert m. induction ms as [|r ms IH]; intros m H; [done|].
  cbn [foldl]. apply IH. apply Forall_alter; [done|].
  intros x _ Hx. cbn [el_remove el_listeners].
  apply Forall_forall. intros l Hl.
  apply list_elem_of_filter in Hl as [_ Hl]. by eapply Forall_forall in Hx.
Qed.

Lemma tracker_ok_torn_down w : tracker_ok w → tracker_ok (torn_down w).
Proof.
  intros (Hok & Hc & [Hl Hm] & Hd & Hb).
  split; [exact Hok|]. split; [exact Hc|]. split; [|split; [exact Hd|]].
  - split; cbn [torn_down hst window_listeners media].
    + by apply detach_all_Forall.
    + by apply detach_media_Forall.
  - cbn [torn_down st results active hp]. destruct (results (st w)); [|done].
    destruct Hb as (v & Hv & Hcnt & _). exists v. by repeat split.
Qed.

Lemma tracker_ok_final_flush w :
  tracker_ok w → active (st w) = false → tracker_ok (after (final_flush w)).
Proof.
  intros Hw Ha. destruct (results (st w)) as [l|] eqn:Hl.
  - destruct (tracker_ok_buffer w l Hw Hl)
      as (r & c & v & Hr & Hc & Hf & Hnd & Hcnt & Ht).
    pose proof Hw as (Hok & Hcs & Hls & Hd & _).
    destruct (final_flush_stamp w l r v Hl Hr Hf) as (-> & Hr' & Hf' & Hok').
    match goal with |- context [processResults ?x] => set (ws := x) in * end.
    apply preserves_after; [apply tracker_ok_processResults|].
    pose proof Hf as Hf0. apply read_fields_Some in Hf0 as (_ & Htm & _).
    apply read_time_lookup in Htm.
    assert (read_clicks (hp ws) (Results.clicks r) = Some c) as Hc'.
    { unfold ws. cbn [set_hp hp]. by rewrite (read_clicks_store _ _ _ _ _ Htm). }
    eapply (tracker_ok_intro _ l r); try done.
    + by apply Hok'.
    + by rewrite (footprint_same _ _ _ _ _ _ Hr Hc Hr' Hc' eq_refl).
    + intros Ha'. cbn [ws set_hp st] in Ha'. congruence.
  - unfold final_flush, bind, live. by rewrite Hl.
Qed.

Lemma tracker_ok_stop : preserves tracker_ok stop.
Proof.
  intros w Hw. destruct (active (st w)) eqn:Ha; [|by rewrite stop_idle].
  rewrite stop_active by done.
  pose proof (tracker_ok_final_flush (torn_down w) (tracker_ok_torn_down w Hw)
                eq_refl) as H.
  by destruct (final_flush (torn_down w)).
Qed.

Lemma tracker_ok_step i : input_wf i → preserves tracker_ok (step i).
Proof.
  intros Hi. destruct i; cbn [step input_wf] in *.
  - by intros w Hw.
  - by intros w Hw.
  - apply (field_dispatchEvent tracker_ok readonly_handler);
      first [ exact tracker_ok_mouse | exact tracker_ok_reported
            | exact tracker_ok_field | exact tracker_ok_click
            | exact tracker_ok_user | exact tracker_ok_listeners ].
  - apply (field_dispatchMedia tracker_ok readonly_handler);
      first [ exact tracker_ok_mouse | exact tracker_ok_reported
            | exact tracker_ok_field | exact tracker_ok_click
            | exact tracker_ok_user | exact tracker_ok_listeners ].
  - apply tracker_ok_fire.
  - apply preserves_bind; [apply preserves_get|]. intros f.
    apply (field_call_history tracker_ok readonly_handler);
      first [ exact tracker_ok_mouse | exact tracker_ok_reported
            | exact tracker_ok_field | exact tracker_ok_click
            | exact tracker_ok_user | exact tracker_ok_listeners ].
  - apply preserves_bind; [apply preserves_get|]. intros f.
    apply (field_call_history tracker_ok readonly_handler);
      first [ exact tracker_ok_mouse | exact tracker_ok_reported
            | exact tracker_ok_field | exact tracker_ok_click
            | exact tracker_ok_user | exact tracker_ok_listeners ].
  - intros w (Hok & Hc & Hl & Hd & Hb).
    split; [exact Hok|]. split; [|by split].
    cbn. destruct (Partial.processData p); [exact Hi|apply readonly_console_log].
  - apply tracker_ok_start.
  - apply tracker_ok_stop.
  - apply tracker_ok_processResults.
  - apply preserves_bind; [apply tracker_ok_getResults|intros ?; apply preserves_ret].
  - apply preserves_bind; [apply preserves_get|intros ?; apply preserves_ret].
  - by apply tracker_ok_registerCustomEvent.
Qed.

Lemma tracker_ok_execs tr w :
  Forall input_wf tr → tracker_ok w → tracker_ok (execs tr w).
Proof.
  unfold execs. revert w. induction tr as [|i tr IH]; intros w Htr Hw; [done|].
  apply Forall_cons in Htr as [Hi Htr]. cbn [foldl]. apply IH; [done|].
  unfold exec. by apply preserves_after; [apply tracker_ok_step|].
Qed.

Lemma tracker_ok_initial t m p :
  Forall (λ x, Forall (λ l, handler_ok readonly_handler l.2) (el_listeners x)) m →
  tracker_ok (initial_world t m p).
Proof.
  intros Hm. split; [by intros k _|]. split; [apply readonly_console_log|].
  split; [by split|]. by split.
Qed.

Lemma whole_push_field w v k x :
  whole w v →
  ∃ w',
    push_field (field_loc k) x w = Ok tt w' ∧
    whole w' (append_field k x v) ∧ st w' = st w ∧ hst w' = hst w ∧
    delivered w' = delivered w ∧ uncaught w' = uncaught w.
Proof.
  intros (l & Hl & Hv & Hnd). unfold read_view in Hv.
  destruct (read_results (hp w) l) as [r|] eqn:Hr; [|done].
  cbn [mbind option_bind] in Hv.
  pose proof Hv as Hv0.
  apply read_fields_Some in Hv0 as (_ & _ & (c & Hc & _) & _).
  destruct (push_field_whole w l r c v k x Hl Hr Hc Hv Hnd)
    as (Hrun & Hr' & Hc' & Hf' & Hfp).
  eexists. split; [exact Hrun|]. split; [|done].
  exists l. split; [done|]. split; [|by rewrite Hfp].
  unfold read_view. by rewrite Hr'.
Qed.

(** ** The registries follow the listeners *)

Lemma map_set_elem k v m : (k, v) ∈ map_set k v m.
Proof.
  induction m as [|[k' v'] m IH]; cbn [map_set]; [set_solver|].
  destruct (decide (k = k')); set_solver.
Qed.

Lemma map_set_other k v m kv : kv ∈ m → kv.1 ≠ k → kv ∈ map_set k v m.
Proof.
  induction m as [|[k' v'] m IH]; cbn [map_set]; [set_solver|].
  intros Hin Hne. destruct (decide (k = k')) as [->|].
  - apply elem_of_cons in Hin as [->|Hin]; [done|set_solver].
  - set_solver.
Qed.

Lemma map_set_inv k v m kv : kv ∈ map_set k v m → kv = (k, v) ∨ kv ∈ m.
Proof.
  induction m as [|[k' v'] m IH]; cbn [map_set]; [set_solver|].
  destruct (decide (k = k')); set_solver.
Qed.

Lemma same_listener_true t h c l :
  same_listener t h c l = true ↔
  l_type l = t ∧ h_id (l_handler l) = h_id h ∧ l_capture l = c.
Proof.
  unfold same_listener. rewrite !andb_true_iff, !bool_decide_eq_true. tauto.
Qed.

Lemma registry_ok_blind : heap_blind registry_ok.
Proof. by intros w h n r H. Qed.

Lemma registry_ok_fresh_fn c :
  hoare registry_ok (fresh_fn c)
        (λ h w, registry_ok w ∧ h_code h = c ∧ 3 ≤ h_id h ∧
                h_id h < next_fn (hst w) ∧
                (∀ l, l ∈ window_listeners (hst w) → h_id (l_handler l) ≠ h_id h))
        (λ _, False).
Proof.
  intros w (H3 & Hk & Hl & Hm). unfold fresh_fn. mred. cbn [h_id h_code].
  split; [|split; [done|split; [done|split; [lia|]]]].
  - unfold registry_ok. mred. split; [lia|]. split; [|split; [|exact Hm]].
    + intros kv Hkv. destruct (Hk kv Hkv). split; [done|lia].
    + intros l Hin. destruct (Hl l Hin) as (? & ? & ?). split; [lia|done].
  - intros l Hin. destruct (Hl l Hin) as (? & _). lia.
Qed.

Lemma registry_ok_addListener t h o w :
  registry_ok w → attachable t h o w →
  ∃ w',
    addListener t h o w = Ok tt w' ∧ registry_ok w' ∧
    next_fn (hst w') = next_fn (hst w) ∧
    (∀ l, l ∈ window_listeners (hst w') →
          l ∈ window_listeners (hst w) ∨ l = mkWL t h (capture_of o)).
Proof.
  intros (H3 & Hk & Hl & Hm) (Hh & Hbody & Hsame).
  unfold addListener, addEventListener, listeners_set, bind. mred.
  assert (∀ l, l ∈ window_listeners (hst w) →
            stray_nav l ∨
            registered (map_set (h_id h) (mkLR t h o) (listeners (st w))) l) as Hold.
  { intros l Hin. destruct (Hl l Hin) as (_ & _ & [Hs|(kv & Hkv & Hsl)]); [by left|].
    destruct (decide (kv.1 = h_id h)) as [He|Hne].
    - destruct (Hk kv Hkv) as [Hkey _].
      apply same_listener_true in Hsl as (Ht & Hid & Hc).
      destruct (Hsame l Hin) as [Hs|[Ht' Hc']]; [congruence|by left|].
      right. exists (h_id h, mkLR t h o). split; [apply map_set_elem|].
      apply same_listener_true. cbn. split; [done|]. split; [congruence|done].
    - right. exists kv. split; [by apply map_set_other|done]. }
  assert (∀ kv, kv ∈ map_set (h_id h) (mkLR t h o) (listeners (st w)) →
            kv.1 = h_id (lr_handler kv.2) ∧ kv.1 < next_fn (hst w)) as Hk'.
  { intros kv Hkv. apply map_set_inv in Hkv as [->|Hkv]; [done|by apply Hk]. }
  eexists. split; [reflexivity|].
  destruct (existsb _ _); unfold registry_ok; mred.
  - split; [|split; [done|by left]].
    split; [done|]. split; [exact Hk'|]. split; [|exact Hm].
    intros l Hin. destruct (Hl l Hin) as (? & ? & _). auto.
  - split; [|split; [done|]].
    + split; [done|]. split; [exact Hk'|]. split; [|exact Hm].
      intros l Hin. apply elem_of_app in Hin as [Hin|Hin].
      * destruct (Hl l Hin) as (? & ? & _). auto.
      * apply list_elem_of_singleton in Hin as ->. cbn. split; [done|].
        split; [done|]. right.
        exists (h_id h, mkLR t h o). split; [apply map_set_elem|].
        by apply same_listener_true.
    + intros l Hin. apply elem_of_app in Hin as [Hin|Hin]; [by left|].
      apply list_elem_of_singleton in Hin. by right.
Qed.

Lemma attachable_body t h o w :
  registry_ok w → body_listener (mkWL t h (capture_of o)) → attachable t h o w.
Proof.
  intros (H3 & Hk & Hl & Hm) Hb.
  assert (h_id h < 3) as Hlt.
  { destruct Hb as [Hb|[Hb|Hb]]; injection Hb as Ht Hh Hc; rewrite Hh; cbn; lia. }
  split; [lia|]. split; [done|].
  intros l Hin Hid. right.
  destruct (Hl l Hin) as (_ & Hbl & _). specialize (Hbl ltac:(lia)).
  destruct Hb as [Hb|[Hb|Hb]]; injection Hb as Ht Hh Hc;
    destruct Hbl as [-> | [-> | ->]]; rewrite Hh in Hid; cbn in Hid;
    try discriminate; by rewrite Ht, Hc.
Qed.

Lemma attachable_fresh t h w :
  3 ≤ h_id h → h_id h < next_fn (hst w) →
  (∀ l, l ∈ window_listeners (hst w) → h_id (l_handler l) ≠ h_id h) →
  attachable t h None w.
Proof.
  intros H3 Hlt Hne. split; [done|]. split; [lia|].
  intros l Hin Hid. by destruct (Hne l Hin).
Qed.

Lemma registry_ok_fresh_addListener c t :
  preserves registry_ok (h <- fresh_fn c; addListener t h None).
Proof.
  eapply hoare_bind.
  { eapply hoare_conseq; [| | |apply registry_ok_fresh_fn]; cbn beta;
      [by intros|intros h w H; exact H|by intros]. }
  intros h w (Hw & _ & H3 & Hlt & Hne).
  destruct (registry_ok_addListener t h None w Hw (attachable_fresh _ _ _ H3 Hlt Hne))
    as (w' & -> & Hw' & _). exact Hw'.
Qed.

Lemma registry_ok_body_addListener t h o :
  body_listener (mkWL t h (capture_of o)) →
  preserves registry_ok (addListener t h o).
Proof.
  intros Hb w Hw.
  destruct (registry_ok_addListener t h o w Hw (attachable_body _ _ _ _ Hw Hb))
    as (w' & -> & Hw' & _). exact Hw'.
Qed.

(** The four registrations of the navigation handler: each overwrites
    the registry entry of the one before. *)
Lemma registry_ok_nav :
  preserves registry_ok
    (navHandler <- fresh_fn HNav;
     forEach ["popstate"; "pushstate"; "replacestate"; "locationchange"]%string
             (λ ev, addListener ev navHandler None)).
Proof.
  eapply hoare_bind.
  { eapply hoare_conseq; [| | |apply registry_ok_fresh_fn]; cbn beta;
      [by intros|intros h w H; exact H|by intros]. }
  intros h w (Hw & Hcode & H3 & Hlt & Hne).
  assert (∀ ts w, registry_ok w → h_id h < next_fn (hst w) →
            ts ⊆ ["popstate"; "pushstate"; "replacestate"]%string →
            (∀ l, l ∈ window_listeners (hst w) → h_id (l_handler l) = h_id h →
                  h_code (l_handler l) = HNav ∧ l_type l ∈ ts) →
            ∀ t, ∃ w',
              addListener t h None w = Ok tt w' ∧ registry_ok w' ∧
              h_id h < next_fn (hst w') ∧
              (∀ l, l ∈ window_listeners (hst w') → h_id (l_handler l) = h_id h →
                    h_code (l_handler l) = HNav ∧ l_type l ∈ ts ++ [t])) as Hstep.
  { intros ts w0 Hw0 Hlt0 Hts Hown t.
    destruct (registry_ok_addListener t h None w0 Hw0)
      as (w' & Hrun & Hw' & Hnf & Hwl).
    { split; [done|]. split; [lia|]. intros l Hin Hid. left.
      destruct (Hown l Hin Hid) as [Hc Ht]. split; [done|]. by apply Hts. }
    exists w'. split; [done|]. split; [done|]. split; [lia|].
    intros l Hin Hid. destruct (Hwl l Hin) as [Hold| ->].
    - destruct (Hown l Hold Hid). set_solver.
    - cbn. split; [done|]. set_solver. }
  cbn [forEach]. unfold bind.
  destruct (Hstep [] w Hw Hlt ltac:(set_solver)
              ltac:(by intros l Hin Hid; destruct (Hne l Hin)) "popstate"%string)
    as (w1 & -> & Hw1 & Hlt1 & Hown1).
  destruct (Hstep ["popstate"%string] w1 Hw1 Hlt1 ltac:(set_solver) Hown1
              "pushstate"%string)
    as (w2 & -> & Hw2 & Hlt2 & Hown2).
  destruct (Hstep ["popstate"; "pushstate"]%string w2 Hw2 Hlt2 ltac:(set_solver)
              Hown2 "replacestate"%string)
    as (w3 & -> & Hw3 & Hlt3 & Hown3).
  destruct (Hstep ["popstate"; "pushstate"; "replacestate"]%string w3 Hw3 Hlt3
              ltac:(set_solver) Hown3 "locationchange"%string)
    as (w4 & -> & Hw4 & _). exact Hw4.
Qed.

Lemma same_el_listener_true t h l :
  same_el_listener t h l = true ↔ l.1 = t ∧ h_id l.2 = h_id h.
Proof.
  unfold same_el_listener. rewrite andb_true_iff, !bool_decide_eq_true. tauto.
Qed.

Lemma registry_ok_media_listener el ev h :
  preserves registry_ok
    (run el_addEventListener el ev h; mediaElements_add (mkMR el ev h)).
Proof.
  intros w (H3 & Hk & Hl & Hm).
  unfold el_addEventListener, mediaElements_add, bind. mred.
  unfold registry_ok. mred.
  split; [done|]. split; [done|]. split; [done|].
  intros el' x l Hx Hin.
  assert (media_registered (mediaElements (st w)) el' l →
          media_registered (mediaElements (st w) ++ [mkMR el ev h]) el' l) as Hmono.
  { intros (r & Hr & ?). exists r. split; [set_solver|done]. }
  destruct (decide (el' = el)) as [->|Hne].
  - rewrite list_lookup_alter_eq in Hx.
    destruct (media (hst w) !! el) as [x0|] eqn:Hx0; [|done].
    cbn in Hx. injection Hx as <-. unfold el_add in Hin.
    destruct (existsb _ _); [by eapply Hmono, Hm|].
    cbn [el_listeners] in Hin. apply elem_of_app in Hin as [Hin|Hin].
    + by eapply Hmono, Hm.
    + apply list_elem_of_singleton in Hin as ->.
      exists (mkMR el ev h). split; [set_solver|]. split; [done|].
      by apply same_el_listener_true.
  - rewrite list_lookup_alter_ne in Hx by done. by eapply Hmono, Hm.
Qed.

Lemma registry_ok_trackMediaElement el :
  preserves registry_ok (trackMediaElement el).
Proof.
  eapply hoare_bind.
  { eapply hoare_conseq; [| | |apply registry_ok_fresh_fn]; cbn beta;
      [by intros|intros h w [H _]; exact H|by intros]. }
  intros h. apply preserves_forEach. intros ev _.
  apply registry_ok_media_listener.
Qed.

Lemma registry_ok_arm k delay :
  preserves registry_ok (interval <- setInterval k delay; intervals_add interval).
Proof. by intros w H. Qed.

Lemma registry_ok_start_body cfg : preserves registry_ok (start_body cfg).
Proof.
  unfold start_body.
  apply preserves_bind.
  { apply preserves_when. apply preserves_bind.
    - apply registry_ok_body_addListener. by left.
    - intros ?. apply registry_ok_arm. }
  intros ?. apply preserves_bind.
  { apply preserves_when. apply registry_ok_body_addListener. right. by left. }
  intros ?. apply preserves_bind.
  { apply preserves_when. apply registry_ok_fresh_addListener. }
  intros ?. apply preserves_bind.
  { apply preserves_when. apply registry_ok_fresh_addListener. }
  intros ?. apply preserves_bind.
  { apply preserves_when. apply registry_ok_fresh_addListener. }
  intros ?. apply preserves_bind.
  { apply preserves_when. apply registry_ok_fresh_addListener. }
  intros ?. apply preserves_bind.
  { apply preserves_when. apply preserves_bind; [by intros w H|].
    intros ?. apply registry_ok_nav. }
  intros ?. apply preserves_bind.
  { apply preserves_when. apply registry_ok_body_addListener. right. by right. }
  intros ?. apply preserves_bind.
  { apply preserves_when. apply registry_ok_fresh_addListener. }
  intros ?. apply preserves_bind.
  { apply preserves_when. apply preserves_bind; [apply preserves_get|].
    intros m. apply preserves_forEach. intros el _.
    apply registry_ok_trackMediaElement. }
  intros ?. apply preserves_when. apply registry_ok_arm.
Qed.

Lemma blind_start P :
  heap_blind P → (∀ w, P w → P (set_st (st_active true) w)) →
  (∀ cfg, preserves P (start_body cfg)) → preserves P start.
Proof.
  intros Hb Ha Hbody. unfold start.
  apply preserves_bind; [apply preserves_get|]. intros a.
  destruct a; [apply preserves_ret|].
  apply preserves_bind; [by apply preserves_modify|]. intros ?.
  apply preserves_bind; [by apply preserves_resetResults|]. intros ?.
  apply preserves_bind; [apply preserves_live|]. intros lr.
  apply preserves_bind.
  { eapply hoare_post; [|apply hoare_load_time]. by intros ? ? []. }
  intros t. apply preserves_bind; [apply preserves_get|]. intros ts.
  apply preserves_bind; [by apply preserves_store|]. intros ?.
  apply preserves_bind; [apply preserves_get|]. intros cfg.
  exact (Hbody cfg).
Qed.

Lemma blind_stop P :
  heap_blind P →
  (∀ w D, P w → P (mkWorld (st w) (hp w) (next_loc w) (hst w) D (uncaught w))) →
  (∀ w, P w → P (torn_down w)) → preserves P stop.
Proof.
  intros Hb Hd Ht w Hw. destruct (active (st w)) eqn:Ha.
  - rewrite stop_active by done.
    apply (blind_final_flush P Hb Hd). by apply Ht.
  - by rewrite stop_idle.
Qed.

Lemma registry_ok_torn_down w : registry_ok w → registry_ok (torn_down w).
Proof.
  intros (H3 & Hk & Hl & Hm). unfold registry_ok, torn_down. mred.
  split; [done|]. split; [by intros kv Hkv%elem_of_nil|]. split.
  - intros l Hin. apply detach_all_elem in Hin as [Hin Hno].
    destruct (Hl l Hin) as (? & ? & [Hs|(kv & Hkv & Hsl)]); [by auto|].
    rewrite (Hno kv Hkv) in Hsl. done.
  - intros el x l Hx Hin.
    apply detach_media_lookup in Hx as (x0 & Hx0 & Hiff).
    apply Hiff in Hin as [Hin Hno].
    destruct (Hm el x0 l Hx0 Hin) as (r & Hr & Hel & Hsl).
    rewrite (Hno r Hr Hel) in Hsl. done.
Qed.

Lemma registry_ok_registerCustomEvent n h :
  preserves registry_ok (registerCustomEvent n h).
Proof.
  unfold registerCustomEvent.
  apply preserves_bind; [apply preserves_get|]. intros cfg.
  destruct (negb _); [apply preserves_ret|].
  exact (registry_ok_fresh_addListener (HCustom n h) n).
Qed.

Lemma registry_ok_step i : preserves registry_ok (step i).
Proof.
  apply blind_step; try by intros ? ?.
  destruct i; try done; try by intros ? ?.
  - cbn [step]. apply blind_start; [exact registry_ok_blind|by intros ? ?|].
    apply registry_ok_start_body.
  - cbn [step]. apply blind_stop; [exact registry_ok_blind|by intros ? ? ?|].
    apply registry_ok_torn_down.
  - apply registry_ok_registerCustomEvent.
Qed.

Lemma registry_ok_execs tr w : registry_ok w → registry_ok (execs tr w).
Proof.
  unfold execs. revert w. induction tr as [|i tr IH]; intros w Hw; [done|].
  cbn [foldl]. apply IH. unfold exec.
  by apply preserves_after; [apply registry_ok_step|].
Qed.

Lemma registry_ok_initial t m p :
  Forall (λ x, el_listeners x = []) m → registry_ok (initial_world t m p).
Proof.
  intros Hm. split; [done|]. split; [by intros kv Hkv%elem_of_nil|].
  split; [by intros l Hl%elem_of_nil|].
  intros el x l Hx Hin. cbn in Hx.
  eapply Forall_lookup in Hm; [|exact Hx]. rewrite Hm in Hin.
  by apply elem_of_nil in Hin.
Qed.

Lemma stop_empties_registries w :
  let w' := exec CallStop w in
  active (st w) = true → listeners (st w') = [] ∧ mediaElements (st w') = [].
Proof.
  intros w' Ha. unfold w', exec. cbn [step]. rewrite stop_active by done.
  apply (preserves_after
           (λ x, listeners (st x) = [] ∧ mediaElements (st x) = []) final_flush).
  - apply blind_final_flush; by intros ? ?.
  - done.
Qed.

(** ** The tracker writes its own cells only *)

Lemma buffer_cells_eq h l r c :
  read_results h l = Some r → read_clicks h (Results.clicks r) = Some c →
  buffer_cells h l =
    [l; Results.time r; Results.clicks r; clickDetails c;
     Results.mouseMovements r; Results.mouseScroll r;
     Results.keyboardActivities r; Results.navigationHistory r;
     Results.formInteractions r; Results.touchEvents r;
     Results.mediaInteractions r; Results.windowSizes r;
     Results.visibilityChanges r; Results.customEvents r].
Proof. intros Hr Hc. unfold buffer_cells. by rewrite Hr, Hc. Qed.

Lemma buffer_cells_same h h' l r c c' :
  read_results h l = Some r → read_clicks h (Results.clicks r) = Some c →
  read_results h' l = Some r → read_clicks h' (Results.clicks r) = Some c' →
  clickDetails c' = clickDetails c →
  buffer_cells h' l = buffer_cells h l.
Proof.
  intros Hr Hc Hr' Hc' Hd.
  by rewrite (buffer_cells_eq _ _ _ _ Hr Hc), (buffer_cells_eq _ _ _ _ Hr' Hc'), Hd.
Qed.

Lemma buffer_cells_field h l r c k :
  read_results h l = Some r → read_clicks h (Results.clicks r) = Some c →
  field_loc k r ∈ buffer_cells h l.
Proof.
  intros Hr Hc. rewrite (buffer_cells_eq _ _ _ _ Hr Hc).
  destruct k; cbn [field_loc]; set_solver.
Qed.

Lemma writes_own_refl w : writes_own w w.
Proof. split; [done|]. split; [done|]. intros k Hk. by left. Qed.

Lemma writes_own_trans w1 w2 w3 :
  writes_own w1 w2 → writes_own w2 w3 → writes_own w1 w3.
Proof.
  intros (Hn1 & Hf1 & Hl1) (Hn2 & Hf2 & Hl2). split; [lia|]. split.
  - intros k Hk Hnl. rewrite Hf2; [by apply Hf1|lia|].
    intros Hin. destruct (Hl1 k Hin); [done|lia].
  - intros k Hin. destruct (Hl2 k Hin) as [Hin'|?]; [|right; lia].
    destruct (Hl1 k Hin'); [by left|by right].
Qed.

(** A step that leaves the heap and the buffer reference alone. *)
Lemma writes_own_same w w' :
  hp w' = hp w → next_loc w' = next_loc w → results (st w') = results (st w) →
  writes_own w w'.
Proof.
  intros Hh Hn Hr. unfold writes_own, live_cells. rewrite Hh, Hn, Hr.
  split; [done|]. split; [done|]. intros k Hk. by left.
Qed.

(** Writing a cell of the live buffer in place. *)
Lemma writes_own_store w l r c k x c' :
  results (st w) = Some l → read_results (hp w) l = Some r →
  read_clicks (hp w) (Results.clicks r) = Some c →
  k ∈ buffer_cells (hp w) l →
  read_results (<[k:=x]> (hp w)) l = Some r →
  read_clicks (<[k:=x]> (hp w)) (Results.clicks r) = Some c' →
  clickDetails c' = clickDetails c →
  writes_own w (set_hp (λ h, <[k:=x]> h) w).
Proof.
  intros Hl Hr Hc Hk Hr' Hc' Hd. unfold writes_own, live_cells.
  cbn [set_hp st hp next_loc]. rewrite Hl.
  rewrite (buffer_cells_same _ _ _ _ _ _ Hr Hc Hr' Hc' Hd).
  split; [done|]. split; [|by left].
  intros k' _ Hnot. rewrite lookup_insert_ne; [done|]. by intros ->.
Qed.

Lemma own_field w0 k x : preserves (own_from w0) (push_field (field_loc k) x).
Proof.
  intros w [Hw Hown].
  pose proof (tracker_ok_field k x w Hw) as Hok'.
  destruct (results (st w)) as [l|] eqn:Hl.
  - destruct (tracker_ok_buffer w l Hw Hl)
      as (r & c & v & Hr & Hc & Hf & Hnd & Hcnt & Ht).
    destruct (push_field_whole w l r c v k x Hl Hr Hc Hf Hnd)
      as (Hrun & Hr' & Hc' & Hf' & Hfp).
    rewrite Hrun in *. split; [exact Hok'|].
    eapply writes_own_trans; [exact Hown|].
    eapply (writes_own_store w l r c); try done.
    by eapply buffer_cells_field.
  - unfold push_field, bind, live in *. rewrite Hl in *. by split.
Qed.

Lemma own_click w0 e : preserves (own_from w0) (handleClick e).
Proof.
  intros w [Hw Hown].
  pose proof (tracker_ok_click e w Hw) as Hok'.
  destruct (results (st w)) as [l|] eqn:Hl.
  - destruct (tracker_ok_buffer w l Hw Hl)
      as (r & c & v & Hr & Hc & Hf & Hnd & Hcnt & Ht).
    destruct (handleClick_whole w l r c v e Hl Hr Hc Hf Hnd)
      as (Hrun & Hr' & Hc' & Hf' & Hfp).
    rewrite Hrun in *. split; [exact Hok'|].
    eapply writes_own_trans; [exact Hown|].
    set (c1 := mkClicks (clickCount c + 1) (clickDetails c)) in *.
    set (w1 := set_hp (λ h, <[Results.clicks r:=CClicks c1]> h) w).
    pose proof (read_clicks_lookup _ _ _ Hc) as Hlc.
    assert (read_results (hp w1) l = Some r) as Hr1.
    { cbn [w1 set_hp hp]. by rewrite (read_results_store _ _ _ _ _ Hlc). }
    assert (read_clicks (hp w1) (Results.clicks r) = Some c1) as Hc1.
    { cbn [w1 set_hp hp]. unfold read_clicks. by rewrite lookup_insert_eq. }
    apply (writes_own_trans _ w1).
    + eapply (writes_own_store w l r c); try done.
      rewrite (buffer_cells_eq _ _ _ _ Hr Hc). set_solver.
    + refine (writes_own_store w1 l r c1 (clickDetails c) _ c1 Hl Hr1 Hc1 _ Hr' Hc'
                eq_refl).
      rewrite (buffer_cells_eq _ _ _ _ Hr1 Hc1). set_solver.
  - unfold handleClick, bind, live in *. rewrite Hl in *. by split.
Qed.

Lemma own_user w0 w u e :
  own_from w0 w → readonly_handler u → own_from w0 (after (call_userHandler u e w)).
Proof.
  intros Hw Hu. unfold call_userHandler.
  destruct (Hu e (hp w)) as [-> | ->]; cbn [after]; by rewrite set_hp_same.
Qed.

(** Replacing the buffer by one made of new cells. *)
Lemma writes_own_reset w l' h' n' :
  next_loc w ≤ n' →
  (∀ k, k < next_loc w → h' !! k = hp w !! k) →
  Forall (λ k, next_loc w ≤ k) (buffer_cells h' l') →
  writes_own w (mkWorld (st_results (Some l') (st w)) h' n' (hst w)
                        (delivered w) (uncaught w)).
Proof.
  intros Hn Hlow Hcells. unfold writes_own, live_cells. cbn [st hp next_loc].
  cbn [st_results results]. split; [done|]. split; [by intros k Hk _; apply Hlow|].
  intros k Hk. right. by eapply Forall_forall in Hcells.
Qed.

Lemma own_from_step {A} (m : M A) w0 :
  preserves tracker_ok m → (∀ w, tracker_ok w → writes_own w (after (m w))) →
  preserves (own_from w0) m.
Proof.
  intros Hp Hw w [Hok Hown]. specialize (Hp w Hok). specialize (Hw w Hok).
  destruct (m w); cbn [after] in Hw; (split; [done|]);
    by eapply writes_own_trans.
Qed.

Lemma clear_step_writes w :
  tracker_ok w → writes_own w (after (clear_step w)).
Proof.
  intros Hw. unfold clear_step. unfold bind at 1. mred.
  destruct (Config.clearAfterProcess (config (st w))) eqn:Hclear;
    [|apply writes_own_refl].
  destruct (resetResults_whole w)
    as (l' & r' & h' & n' & Hreset & Hle & Hlt & Hlow & Hhigh & Hl' & Hui & Hfields
        & Hcells).
  destruct (Config.userInfo (config (st w))) eqn:Hcu.
  - destruct (results (st w)) as [l|] eqn:Hl.
    + destruct (tracker_ok_buffer w l Hw Hl)
        as (r & c & v & Hr & Hc & Hf & Hnd & Hcnt & Ht).
      unfold bind at 1. unfold bind at 1. rewrite (live_ok _ _ _ Hl Hr). mred.
      unfold bind at 1. rewrite Hreset. unfold bind at 1.
      unfold live. mred. unfold read_results. rewrite Hl'. mred.
      apply writes_own_reset; [lia| |apply Hcells].
      intros k Hk. rewrite lookup_insert_ne by lia. by apply Hlow.
    + unfold bind at 1. unfold bind at 1. unfold live. rewrite Hl.
      apply writes_own_refl.
  - unfold bind at 1. mred. unfold bind at 1. rewrite Hreset. mred.
    apply writes_own_reset; [lia|done|].
    specialize (Hcells (Results.userInfo r')).
    rewrite with_userInfo_id in Hcells. by rewrite insert_id in Hcells.
Qed.

Lemma processResults_writes w :
  tracker_ok w → writes_own w (after (processResults w)).
Proof.
  intros Hw. destruct (results (st w)) as [l|] eqn:Hl.
  - destruct (tracker_ok_buffer w l Hw Hl)
      as (r & c & v & Hr & Hc & Hf & Hnd & Hcnt & Ht).
    pose proof Hw as (Hok & Hcs & Hls & Hd & _).
    pose proof (tracker_ok_processResults w Hw) as Hok'. revert Hok'.
    destruct (processResults_prefix w l r v Hok Hl Hr Hf) as (Hok2 & Hr2 & Hf2 & ->).
    set (w2 := at_consumer w r v) in *.
    pose proof Hf as Hf0. apply read_fields_Some in Hf0 as (_ & Htm & _).
    apply read_time_lookup in Htm.
    assert (read_clicks (hp w2) (Results.clicks r) = Some c) as Hc2.
    { unfold w2, at_consumer. cbn [hp].
      apply read_clicks_fresh.
      - rewrite lookup_insert_ne; [by apply Hok|].
        intros e. apply heap_ok_below in Htm; [lia|done].
      - by rewrite (read_clicks_store _ _ _ _ _ Htm). }
    assert (writes_own w w2) as Hown2.
    { unfold writes_own, live_cells.
      replace (results (st w2)) with (results (st w)) by reflexivity.
      rewrite Hl. rewrite (buffer_cells_same _ _ _ _ _ _ Hr Hc Hr2 Hc2 eq_refl).
      split; [cbn; lia|]. split; [|by left].
      intros k Hk Hnot. unfold w2, at_consumer. cbn [hp].
      rewrite lookup_insert_ne by lia.
      rewrite lookup_insert_ne; [done|]. intros <-. apply Hnot.
      rewrite (buffer_cells_eq _ _ _ _ Hr Hc). set_solver. }
    assert (tracker_ok w2) as Hw2.
    { eapply (tracker_ok_intro _ l r (flushed_view w v)); try done.
      - unfold w2, at_consumer. cbn [delivered]. apply Forall_app. split; [done|].
        apply Forall_singleton. by exists (flushed_view w v).
      - by rewrite (footprint_same _ _ _ _ _ _ Hr Hc Hr2 Hc2 eq_refl). }
    intros _.
    destruct (Hcs (next_loc w) (hp w2)) as [-> | ->]; rewrite set_hp_same; [|done].
    eapply writes_own_trans; [exact Hown2|]. by apply clear_step_writes.
  - unfold processResults, bind, live. rewrite Hl. apply writes_own_refl.
Qed.

Lemma getResults_writes w :
  tracker_ok w → writes_own w (after (getResults w)).
Proof.
  intros Hw. destruct (results (st w)) as [l|] eqn:Hl.
  - destruct (tracker_ok_buffer w l Hw Hl)
      as (r & c & v & Hr & Hc & Hf & Hnd & Hcnt & Ht).
    pose proof Hw as (Hok & Hcs & Hls & Hd & _).
    assert (read_live w = Some v) as Hv.
    { apply read_live_Some. by exists l, r. }
    destruct (getResults_spec w v Hok Hv)
      as (s & r' & h' & n' & -> & Hok' & Hn & Hlow & _).
    cbn [after].
    assert (read_results h' l = Some r) as Hr'.
    { unfold read_results. rewrite Hlow.
      - by rewrite (read_results_lookup _ _ _ Hr).
      - eapply heap_ok_below; [done|]. by apply read_results_lookup. }
    assert (read_clicks h' (Results.clicks r) = Some c) as Hc'.
    { unfold read_clicks. rewrite Hlow.
      - by rewrite (read_clicks_lookup _ _ _ Hc).
      - eapply heap_ok_below; [done|]. by apply read_clicks_lookup. }
    unfold writes_own, live_cells. cbn [st hp next_loc]. rewrite Hl.
    rewrite (buffer_cells_same _ _ _ _ _ _ Hr Hc Hr' Hc' eq_refl).
    split; [done|]. split; [by intros k Hk _; apply Hlow|by left].
  - unfold getResults, bind. mred. rewrite Hl. apply writes_own_refl.
Qed.

Lemma start_writes w : tracker_ok w → writes_own w (after (start w)).
Proof.
  intros Hw. destruct (active (st w)) eqn:Ha.
  { rewrite start_active by done. apply writes_own_refl. }
  pose proof Hw as (Hok & Hcs & Hls & Hd & _).
  unfold start. unfold bind at 1. mred. rewrite Ha.
  unfold bind at 1. mred. unfold bind at 1.
  match goal with |- context [resetResults ?wa] =>
    pose (w0 := wa);
    destruct (resetResults_whole wa)
      as (l' & r' & h' & n' & Hreset & Hle & Hlt & Hlow & Hhigh & Hl' & Hui & Hfields
          & Hcells)
  end.
  msimpl_in Hreset. msimpl_in Hle. msimpl_in Hlow. msimpl_in Hhigh. msimpl_in Hui.
  msimpl_in Hcells.
  destruct (Hfields _ _ Hui) as [Hf Hnd]; [by left|].
  specialize (Hcells (Results.userInfo r')).
  rewrite with_userInfo_id in Hf, Hnd, Hcells.
  rewrite insert_id in Hnd, Hcells by done.
  pose proof Hf as Hf0.
  apply read_fields_Some in Hf0 as (_ & Ht & (c & Hc & _) & _).
  pose proof (read_time_lookup _ _ _ Ht) as Hlt'.
  assert (read_results h' l' = Some r') as Hr.
  { unfold read_results. by rewrite Hl'. }
  rewrite Hreset.
  unfold bind at 1. unfold live. mred. rewrite Hr.
  mred. unfold bind at 1. unfold load_time. mred. rewrite Ht.
  unfold bind at 1. mred. unfold bind at 1. mred. unfold bind at 1. mred.
  match goal with |- context [bind _ _ ?x] => set (w1 := x) end.
  destruct (start_body_spec readonly_handler (config (st w)) w1 Hls)
    as (w' & Hrun & Hcore & _).
  match goal with |- writes_own _ (after ?t) =>
    change t with (start_body (config (st w)) w1)
  end.
  rewrite Hrun. cbn [after].
  destruct Hcore as (Hhp & Hnl & _ & _ & _ & Hres & _).
  set (h1 := <[Results.time r':=CTime (mkTime (now (hst w)) (currentTime (mkTime 0 0 0))
                                         (stopTime (mkTime 0 0 0)))]> h') in *.
  assert (read_results h1 l' = Some r') as Hr1.
  { unfold h1. by rewrite (read_results_store _ _ _ _ _ Hlt'). }
  assert (read_clicks h1 (Results.clicks r') = Some c) as Hc1.
  { unfold h1. by rewrite (read_clicks_store _ _ _ _ _ Hlt'). }
  assert (next_loc w ≤ Results.time r') as Hbt.
  { rewrite (buffer_cells_eq _ _ _ _ Hr Hc) in Hcells.
    apply Forall_cons in Hcells as [_ Hcells].
    by apply Forall_cons in Hcells as [? _]. }
  apply (writes_own_trans _ w1).
  - apply (writes_own_trans _ w0); [by apply writes_own_same|].
    apply (writes_own_reset w0 l' h1 n').
    + cbn. lia.
    + intros k Hk. unfold h1. rewrite lookup_insert_ne; [by apply Hlow|].
      cbn in Hk. lia.
    + by rewrite (buffer_cells_same _ _ _ _ _ _ Hr Hc Hr1 Hc1 eq_refl).
  - by apply writes_own_same.
Qed.

Lemma final_flush_writes w :
  tracker_ok w → active (st w) = false → writes_own w (after (final_flush w)).
Proof.
  intros Hw Ha. destruct (results (st w)) as [l|] eqn:Hl.
  - destruct (tracker_ok_buffer w l Hw Hl)
      as (r & c & v & Hr & Hc & Hf & Hnd & Hcnt & Ht).
    pose proof Hw as (Hok & Hcs & Hls & Hd & _).
    destruct (final_flush_stamp w l r v Hl Hr Hf) as (-> & Hr' & Hf' & Hok').
    match goal with |- context [processResults ?x] => set (ws := x) in * end.
    pose proof Hf as Hf0. apply read_fields_Some in Hf0 as (_ & Htm & _).
    apply read_time_lookup in Htm.
    assert (read_clicks (hp ws) (Results.clicks r) = Some c) as Hc'.
    { unfold ws. cbn [set_hp hp]. by rewrite (read_clicks_store _ _ _ _ _ Htm). }
    assert (tracker_ok ws) as Hws.
    { eapply (tracker_ok_intro _ l r); try done.
      + by apply Hok'.
      + by rewrite (footprint_same _ _ _ _ _ _ Hr Hc Hr' Hc' eq_refl).
      + intros Ha'. cbn [ws set_hp st] in Ha'. congruence. }
    apply (writes_own_trans _ ws); [|by apply processResults_writes].
    eapply (writes_own_store w l r c); try done.
    rewrite (buffer_cells_eq _ _ _ _ Hr Hc). set_solver.
  - unfold final_flush, bind, live. rewrite Hl. apply writes_own_refl.
Qed.

Lemma stop_writes w : tracker_ok w → writes_own w (after (stop w)).
Proof.
  intros Hw. destruct (active (st w)) eqn:Ha.
  - rewrite stop_active by done.
    apply (writes_own_trans _ (torn_down w)); [by apply writes_own_same|].
    apply final_flush_writes; [by apply tracker_ok_torn_down|done].
  - rewrite stop_idle by done. apply writes_own_refl.
Qed.

Lemma own_from_same w0 w w' :
  own_from w0 w → tracker_ok w' →
  hp w' = hp w → next_loc w' = next_loc w → results (st w') = results (st w) →
  own_from w0 w'.
Proof.
  intros [_ Hown] Hok Hh Hn Hr. split; [done|].
  eapply writes_own_trans; [exact Hown|]. by apply writes_own_same.
Qed.

Lemma own_step w0 i : input_wf i → preserves (own_from w0) (step i).
Proof.
  intros Hi.
  assert (∀ w p, own_from w0 w → own_from w0 (set_st (st_mousePosition p) w)) as Hm.
  { intros w p Hw. eapply own_from_same; [exact Hw| |done..].
    apply tracker_ok_mouse, Hw. }
  assert (∀ w, own_from w0 w → own_from w0 (reported w)) as Hr.
  { intros w Hw. eapply own_from_same; [exact Hw| |done..].
    apply tracker_ok_reported, Hw. }
  assert (∀ w, own_from w0 w → listeners_ok readonly_handler w) as Hl.
  { intros w [Hw _]. by apply tracker_ok_listeners. }
  destruct i;
    try (apply own_from_step; [by apply tracker_ok_step|];
         intros w Hw; cbn [step]; by apply writes_own_same).
  - apply (field_dispatchEvent (own_from w0) readonly_handler);
      first [ exact Hm | exact Hr | exact Hl | apply own_field | apply own_click
            | apply own_user ].
  - apply (field_dispatchMedia (own_from w0) readonly_handler);
      first [ exact Hm | exact Hr | exact Hl | apply own_field | apply own_click
            | apply own_user ].
  - cbn [step]. apply preserves_bind; [apply preserves_get|]. intros ts.
    destruct (find _ ts) as [t|]; [|apply preserves_ret].
    apply preserves_host_call; [exact Hr|].
    destruct (t_task t); cbn [run_task].
    + apply field_sampleMouse. apply own_field.
    + apply own_from_step; [apply tracker_ok_processResults|].
      apply processResults_writes.
  - cbn [step]. apply preserves_bind; [apply preserves_get|]. intros f.
    apply (field_call_history (own_from w0) readonly_handler);
      first [ exact Hm | exact Hr | exact Hl | apply own_field | apply own_click
            | apply own_user ].
  - cbn [step]. apply preserves_bind; [apply preserves_get|]. intros f.
    apply (field_call_history (own_from w0) readonly_handler);
      first [ exact Hm | exact Hr | exact Hl | apply own_field | apply own_click
            | apply own_user ].
  - apply own_from_step; [apply tracker_ok_start|apply start_writes].
  - apply own_from_step; [apply tracker_ok_stop|apply stop_writes].
  - apply own_from_step; [apply tracker_ok_processResults|].
    apply processResults_writes.
  - cbn [step]. apply preserves_bind; [|intros ?; apply preserves_ret].
    apply own_from_step; [apply tracker_ok_getResults|apply getResults_writes].
  - cbn [step]. apply own_from_step; [by apply tracker_ok_registerCustomEvent|].
    intros w Hw. unfold registerCustomEvent, bind. mred.
    destruct (negb _); [apply writes_own_refl|].
    unfold fresh_fn, addEventListener, listeners_set. mred.
    by apply writes_own_same.
Qed.

Lemma own_execs tr w :
  Forall input_wf tr → tracker_ok w →
  tracker_ok (execs tr w) ∧ writes_own w (execs tr w).
Proof.
  intros Htr Hw.
  assert (∀ w', own_from w w' → own_from w (execs tr w')) as H.
  { unfold execs. induction tr as [|i tr IH]; intros w' Hw'; [done|].
    apply Forall_cons in Htr as [Hi Htr]. cbn [foldl]. apply IH; [done|].
    unfold exec. by apply preserves_after; [apply own_step|]. }
  apply H. split; [done|apply writes_own_refl].
Qed.


(** A view made of cells that the tracker does not write stays. *)
Lemma writes_own_view w w' s v :
  writes_own w w' → read_view (hp w) s = Some v →
  (∀ k, k ∈ footprint (hp w) s → k < next_loc w ∧ k ∉ live_cells w) →
  read_view (hp w') s = Some v.
Proof.
  intros (_ & Hframe & _) Hv Hfp. rewrite <- Hv. apply read_view_agree.
  intros k Hk. destruct (Hfp k Hk). by apply Hframe.
Qed.

(** A clearing flush leaves a buffer made of new cells only, next to an
    unchanged old heap. *)
Lemma clear_step_fresh w :
  tracker_ok w → results (st w) ≠ None →
  Config.clearAfterProcess (config (st w)) = true →
  ∃ w',
    clear_step w = Ok tt w' ∧ next_loc w ≤ next_loc w' ∧
    (∀ k, k < next_loc w → hp w' !! k = hp w !! k) ∧
    (∀ k, k ∈ live_cells w' → next_loc w ≤ k).
Proof.
  intros Hw Hres Hclear. unfold clear_step. unfold bind at 1. mred. rewrite Hclear.
  destruct (resetResults_whole w)
    as (l' & r' & h' & n' & Hreset & Hle & Hlt & Hlow & Hhigh & Hl' & Hui & Hfields
        & Hcells).
  destruct (Config.userInfo (config (st w))) eqn:Hcu.
  - destruct (results (st w)) as [l|] eqn:Hl; [|done].
    destruct (tracker_ok_buffer w l Hw Hl)
      as (r & c & v & Hr & Hc & Hf & Hnd & Hcnt & Ht).
    unfold bind at 1. unfold bind at 1. rewrite (live_ok _ _ _ Hl Hr). mred.
    unfold bind at 1. rewrite Hreset. unfold bind at 1.
    unfold live. mred. unfold read_results. rewrite Hl'. mred.
    eexists. split; [reflexivity|]. cbn [next_loc hp]. split; [lia|]. split.
    + intros k Hk. rewrite lookup_insert_ne by lia. by apply Hlow.
    + unfold live_cells. cbn [st st_results results hp]. intros k Hk.
      specialize (Hcells (Results.userInfo r)).
      by eapply Forall_forall in Hcells.
  - unfold bind at 1. mred. unfold bind at 1. rewrite Hreset. mred.
    eexists. split; [reflexivity|]. cbn [next_loc hp]. split; [lia|].
    split; [done|].
    unfold live_cells. cbn [st st_results results hp]. intros k Hk.
    specialize (Hcells (Results.userInfo r')).
    rewrite with_userInfo_id in Hcells. rewrite insert_id in Hcells by done.
    by eapply Forall_forall in Hcells.
Qed.

Lemma footprint_agree (h h' : heap) l :
  (∀ k, k ∈ footprint h l → h' !! k = h !! k) →
  footprint h' l = footprint h l.
Proof.
  intros H. unfold footprint.
  assert (read_results h' l = read_results h l) as ->.
  { unfold read_results. rewrite H; [done|].
    unfold footprint. destruct (read_results h l); set_solver. }
  destruct (read_results h l) as [r|] eqn:Hr; [|done].
  assert (read_clicks h' (Results.clicks r) = read_clicks h (Results.clicks r))
    as ->; [|done].
  unfold read_clicks. rewrite H; [done|].
  unfold footprint. rewrite Hr. set_solver.
Qed.

(** The object handed to the consumer by a flush, and the state in which
    the consumer runs. *)
Lemma at_consumer_ok w l r v :
  tracker_ok w → results (st w) = Some l → read_results (hp w) l = Some r →
  read_fields (hp w) r = Some v →
  let w2 := at_consumer w r v in
  tracker_ok w2 ∧ results (st w2) = Some l ∧
  read_view (hp w2) (next_loc w) = Some (flushed_view w v) ∧
  processResults w =
    match consumer_run (Config.processData (config (st w))) (next_loc w) (hp w2)
    with
    | CbReturn h3 => clear_step (set_hp (λ _, h3) w2)
    | CbThrow h3 => Throw (set_hp (λ _, h3) w2)
    end.
Proof.
  intros Hw Hl Hr Hf w2.
  destruct (tracker_ok_buffer w l Hw Hl)
    as (r0 & c & v0 & Hr0 & Hc & Hf0 & Hnd & Hcnt & Ht).
  assert (r0 = r) as -> by congruence. assert (v0 = v) as -> by congruence.
  pose proof Hw as (Hok & Hcs & Hls & Hd & _).
  destruct (processResults_prefix w l r v Hok Hl Hr Hf) as (Hok2 & Hr2 & Hf2 & Heq).
  fold w2 in Hok2, Hr2, Hf2, Heq.
  pose proof Hf as Hf1. apply read_fields_Some in Hf1 as (_ & Htm & _).
  apply read_time_lookup in Htm.
  assert (read_clicks (hp w2) (Results.clicks r) = Some c) as Hc2.
  { unfold w2, at_consumer. cbn [hp].
    apply read_clicks_fresh.
    - rewrite lookup_insert_ne; [by apply Hok|].
      intros e. apply heap_ok_below in Htm; [lia|done].
    - by rewrite (read_clicks_store _ _ _ _ _ Htm). }
  split; [|split; [done|split; [|done]]].
  - eapply (tracker_ok_intro _ l r (flushed_view w v)); try done.
    + unfold w2, at_consumer. cbn [delivered]. apply Forall_app. split; [done|].
      apply Forall_singleton. by exists (flushed_view w v).
    + by rewrite (footprint_same _ _ _ _ _ _ Hr Hc Hr2 Hc2 eq_refl).
  - unfold read_view.
    assert (read_results (hp w2) (next_loc w) = Some r) as ->; [|done].
    unfold w2, at_consumer, read_results. cbn [hp]. by rewrite lookup_insert_eq.
Qed.


(** ** The history entry points *)

Lemma history_patching_addListener t h o :
  preserves history_patching (addListener t h o).
Proof.
  intros w H. unfold addListener, addEventListener, listeners_set, bind. mred.
  by destruct (existsb _ _).
Qed.

Lemma history_patching_fresh_addListener c t :
  preserves history_patching (h <- fresh_fn c; addListener t h None).
Proof.
  apply preserves_bind; [by intros w H|]. intros h.
  apply history_patching_addListener.
Qed.

Lemma history_patching_start_body cfg :
  preserves history_patching (start_body cfg).
Proof.
  unfold start_body.
  apply preserves_bind.
  { apply preserves_when. apply preserves_bind.
    - apply history_patching_addListener.
    - intros ?. by intros w H. }
  intros ?. apply preserves_bind.
  { apply preserves_when. apply history_patching_addListener. }
  intros ?. apply preserves_bind.
  { apply preserves_when. apply history_patching_fresh_addListener. }
  intros ?. apply preserves_bind.
  { apply preserves_when. apply history_patching_fresh_addListener. }
  intros ?. apply preserves_bind.
  { apply preserves_when. apply history_patching_fresh_addListener. }
  intros ?. apply preserves_bind.
  { apply preserves_when. apply history_patching_fresh_addListener. }
  intros ?. apply preserves_bind.
  { apply preserves_when. apply preserves_bind.
    - intros w (Ho & _ & Ha). unfold patchHistoryMethods, bind. mred.
      split; [done|]. split; [|done]. right. by rewrite Ho.
    - intros ?. apply preserves_bind; [by intros w H|]. intros h.
      apply preserves_forEach. intros ev _. apply history_patching_addListener. }
  intros ?. apply preserves_bind.
  { apply preserves_when. apply history_patching_addListener. }
  intros ?. apply preserves_bind.
  { apply preserves_when. apply history_patching_fresh_addListener. }
  intros ?. apply preserves_bind.
  { apply preserves_when. apply preserves_bind; [apply preserves_get|].
    intros m. apply preserves_forEach. intros el _.
    apply preserves_bind; [by intros w H|]. intros h.
    apply preserves_forEach. intros ev _. by intros w H. }
  intros ?. apply preserves_when. by intros w H.
Qed.

Lemma history_ok_blind : heap_blind history_ok.
Proof. by intros w h n r H. Qed.

Lemma history_patching_blind : heap_blind history_patching.
Proof. by intros w h n r H. Qed.

(** [start] for a property [P] of stopped and running trackers that
    reads [Q] while [start] runs. *)
Lemma start_via (P Q : world → Prop) :
  heap_blind Q →
  (∀ w, P w → active (st w) = false → Q (set_st (st_active true) w)) →
  (∀ cfg, preserves Q (start_body cfg)) → (∀ w, Q w → P w) →
  preserves P start.
Proof.
  intros Hb Hin Hbody Hout w Hw. destruct (active (st w)) eqn:Hact.
  { by rewrite start_active. }
  pose (prog := (run resetResults;
                 lr <- live; t <- load_time (Results.time lr.2);
                 ts <- getTimestamp;
                 run store (Results.time lr.2)
                       (CTime (mkTime ts (currentTime t) (stopTime t)));
                 cfg <- get (λ w, config (st w)); start_body cfg) : M unit).
  assert (preserves Q prog) as Hp.
  { apply preserves_bind; [by apply preserves_resetResults|]. intros ?.
    apply preserves_bind; [apply preserves_live|]. intros lr.
    apply preserves_bind.
    { eapply hoare_post; [|apply hoare_load_time]. by intros ? ? []. }
    intros t. apply preserves_bind; [apply preserves_get|]. intros ts.
    apply preserves_bind; [by apply preserves_store|].
    intros ?. apply preserves_bind; [apply preserves_get|]. intros cfg.
    apply Hbody. }
  unfold start. unfold bind at 1. mred. rewrite Hact. unfold bind at 1. mred.
  change (match prog (set_st (st_active true) w) with
          | Ok _ w' => P w'
          | Throw w' => P w'
          end).
  specialize (Hp (set_st (st_active true) w) (Hin w Hw Hact)).
  destruct (prog _); by apply Hout.
Qed.

Lemma history_ok_start : preserves history_ok start.
Proof.
  apply (start_via history_ok history_patching).
  - exact history_patching_blind.
  - intros w (Ho & Hh & Ha) Hact. split; [done|]. split; [|done].
    left. by apply Ha.
  - apply history_patching_start_body.
  - intros w (Ho & Hh & Ha). split; [done|]. split; [done|].
    intros Hf. congruence.
Qed.

Lemma history_ok_step i : preserves history_ok (step i).
Proof.
  apply blind_step; try by intros ? ?.
  destruct i; try done; try by intros ? ?.
  - apply history_ok_start.
  - cbn [step]. apply blind_stop; [exact history_ok_blind|by intros ? ? ?|].
    intros w (Ho & Hh & Ha). unfold history_ok, torn_down. mred.
    rewrite Ho. by repeat split; try left.
  - intros w Hw. cbn [step]. unfold registerCustomEvent, bind. mred.
    destruct (negb _); [done|]. unfold fresh_fn, addEventListener, listeners_set.
    mred. by destruct (existsb _ _).
Qed.

Lemma history_ok_execs tr w : history_ok w → history_ok (execs tr w).
Proof.
  unfold execs. revert w. induction tr as [|i tr IH]; intros w Hw; [done|].
  cbn [foldl]. apply IH. unfold exec.
  by apply preserves_after; [apply history_ok_step|].
Qed.

(** * The claims *)

(** ** C1: snapshots and the live buffer *)

(** The part of C1 that holds: the object returned by [getResults()] is
    made of new cells only.  It shows what the live buffer shows; whatever
    is written to the cells of the snapshot leaves the live buffer as it
    is, and whatever is written to the cells of the live buffer leaves the
    snapshot as it is. *)
Theorem getResults_snapshot_independent (w : world) (v : view) :
  heap_ok w → read_live w = Some v →
  ∃ s w',
    getResults w = Ok (Some s) w' ∧
    read_view (hp w') s = Some v ∧ read_live w' = Some v ∧
    (∀ h, (∀ k, k ∉ footprint (hp w') s → h !! k = hp w' !! k) →
          read_live (set_hp (λ _, h) w') = Some v) ∧
    (∀ h, (∀ k, k ∉ live_footprint w' → h !! k = hp w' !! k) →
          read_view h s = Some v).
Proof.
  intros Hok Hv.
  destruct (getResults_spec w v Hok Hv)
    as (s & r' & h' & n' & Hg & Hok' & Hn' & Hlow & Hr' & Hf' & Hv' & Hfresh).
  cbn zeta in *. eexists s, _. split; [exact Hg|].
  assert (read_view h' s = Some v) as Hs.
  { unfold read_view. by rewrite Hr'. }
  split; [exact Hs|]. split; [exact Hv'|].
  pose proof Hv' as Hv''. unfold read_live in Hv''. cbn [st hp] in Hv''.
  destruct (results (st w)) as [l|] eqn:Hl; [|done]. cbn [mbind option_bind] in Hv''.
  assert (Forall (λ k, k < next_loc w) (footprint h' l)) as Hbelow.
  { apply read_live_Some in Hv as (l0 & r0 & Hl0 & Hr0 & Hf0).
    assert (l0 = l) as -> by congruence.
    assert (read_view (hp w) l = Some v) as Hvw.
    { unfold read_view. by rewrite Hr0. }
    pose proof (footprint_below w l v Hok Hvw) as Hb.
    assert (footprint h' l = footprint (hp w) l) as ->; [|done].
    rewrite Forall_forall in Hb.
    assert (read_results h' l = read_results (hp w) l) as Hrr.
    { unfold read_results. rewrite Hlow; [done|]. apply Hb.
      unfold footprint. rewrite Hr0. set_solver. }
    unfold footprint. rewrite Hrr, Hr0.
    assert (read_clicks h' (Results.clicks r0) = read_clicks (hp w) (Results.clicks r0))
      as ->; [|done].
    unfold read_clicks. rewrite Hlow; [done|]. apply Hb.
    unfold footprint. rewrite Hr0. set_solver. }
  rewrite Forall_forall in Hbelow, Hfresh.
  split.
  - intros h Hh. unfold read_live. cbn [set_hp st hp]. rewrite Hl.
    cbn [mbind option_bind]. rewrite <- Hv''. apply read_view_agree.
    intros k Hk. apply Hh. intros Hk'.
    specialize (Hbelow _ Hk). specialize (Hfresh _ Hk'). lia.
  - intros h Hh. rewrite <- Hs. apply read_view_agree.
    intros k Hk. apply Hh. unfold live_footprint. cbn [st hp]. rewrite Hl.
    intros Hk'. specialize (Hbelow _ Hk'). specialize (Hfresh _ Hk). lia.
Qed.

Lemma getResults_snapshot_independent_witness :
  ∃ s w',
    getResults demo_started = Ok (Some s) w' ∧
    read_view (hp w') s = Some (started_view demo_idle) ∧
    read_live w' = Some (started_view demo_idle) ∧
    (∀ h, (∀ k, k ∉ footprint (hp w') s → h !! k = hp w' !! k) →
          read_live (set_hp (λ _, h) w') = Some (started_view demo_idle)) ∧
    (∀ h, (∀ k, k ∉ live_footprint w' → h !! k = hp w' !! k) →
          read_view h s = Some (started_view demo_idle)).
Proof.
  apply (getResults_snapshot_independent demo_started (started_view demo_idle)).
  - apply heap_okb_sound. vm_compute. reflexivity.
  - vm_compute. reflexivity.
Defined.

(** The object [processResults] hands to the consumer is a copy of the
    top level only: its fields are the references of the live buffer. *)
Lemma processResults_snapshot_is_shallow w l r v :
  heap_ok w →
  results (st w) = Some l → read_results (hp w) l = Some r →
  read_fields (hp w) r = Some v →
  read_results (hp (at_consumer w r v)) (next_loc w) =
  read_results (hp (at_consumer w r v)) l.
Proof.
  intros Hok Hl Hr Hf.
  destruct (processResults_prefix w l r v Hok Hl Hr Hf) as (_ & -> & _).
  unfold read_results. cbn [at_consumer hp]. by rewrite lookup_insert_eq.
Qed.

(** C1 fails for [processResults].  In [demo_flushed] the consumer
    received the object at [snap] while no mouse sample was recorded.
    A sample recorded afterwards in the live buffer shows up in that
    earlier snapshot; and with a consumer that appends to the
    [mouseMovements] of the snapshot it is given, the appended record is
    in the live buffer after the flush. *)
Theorem processResults_snapshot_aliases_live :
  let snap := 15 in
  let later := execs [Dispatch (mousemove 1 1); Fire 0] demo_flushed in
  let forged :=
    execs [CallConfig demo_forging_config; CallStart; CallProcessResults]
          demo_idle in
  d_snapshot <$> delivered demo_flushed = [snap] ∧
  v_mouseMovements <$> read_view (hp demo_flushed) snap = Some [] ∧
  v_mouseMovements <$> read_view (hp later) snap =
    Some [[JNum 1; JNum 1; JNum 1000]] ∧
  (λ d, v_mouseMovements <$> d_view d) <$> delivered forged = [Some []] ∧
  v_mouseMovements <$> read_live forged = Some [[JStr "forged"]].
Proof.
  cbn zeta. repeat split; vm_compute; reflexivity.
Qed.

(** ** C2: faults of callbacks *)

(** C2, as the code has it.  The tracker catches nothing.  When the
    consumer raises, [processResults()] ends with that exception, after
    the snapshot was handed over and before the buffer is cleared.  When
    the flush was started by its interval, the exception reaches the host,
    which reports it and leaves the interval armed: the next firing calls
    the consumer again.  The wrapper of a custom event records the event
    and then ends with the exception of a user handler that raises; on a
    tracker that was never started it ends with the error of reading the
    [null] buffer. *)
Theorem consumer_fault_propagates_scheduler_survives (w : world) (v : view)
    (i : nat) :
  heap_ok w → read_live w = Some v →
  raising (Config.processData (config (st w))) → flusher_armed i w →
  (∃ w', processResults w = Throw w' ∧
         read_live w' = Some (flushed_view w v) ∧
         length (delivered w') = S (length (delivered w))) ∧
  (let w1 := exec (Fire i) w in
   uncaught w1 = S (uncaught w) ∧
   timers (hst w1) = timers (hst w) ∧
   flusher_armed i w1 ∧
   length (delivered w1) = S (length (delivered w)) ∧
   length (delivered (exec (Fire i) w1)) = S (S (length (delivered w)))) ∧
  (∀ k name u e,
     (∀ e h, uh_run u e h = CbThrow h) →
     ∃ w' v',
       run_handler (mkHandler k (HCustom name u)) e w = Throw w' ∧
       read_live w' = Some v' ∧
       v_customEvents v' =
         v_customEvents v ++ [[JStr name; detail e; JNum (now (hst w))]]) ∧
  (∀ w0 k name u e,
     results (st w0) = None →
     run_handler (mkHandler k (HCustom name u)) e w0 = Throw w0).
Proof.
  intros Hok Hv Hq Hi.
  destruct (processResults_raise w v Hok Hv Hq) as (r & Hrun & Hok1 & Hv1).
  split.
  { eexists. split; [exact Hrun|]. split; [exact Hv1|].
    cbn [at_consumer delivered]. rewrite length_app. cbn [length]. lia. }
  split.
  { cbn zeta.
    assert (exec (Fire i) w = reported (at_consumer w r v)) as ->.
    { unfold exec. cbn [step]. rewrite (fire_flusher _ _ Hi).
      unfold host_call. by rewrite Hrun. }
    set (w1 := reported (at_consumer w r v)).
    assert (flusher_armed i w1) as Hi1 by exact Hi.
    assert (length (delivered w1) = S (length (delivered w))) as Hd1.
    { cbn [w1 reported at_consumer delivered]. rewrite length_app.
      cbn [length]. lia. }
    repeat split; try done.
    assert (heap_ok w1) as Hok' by exact Hok1.
    assert (read_live w1 = Some (flushed_view w v)) as Hv' by exact Hv1.
    assert (raising (Config.processData (config (st w1)))) as Hq' by exact Hq.
    destruct (processResults_raise w1 _ Hok' Hv' Hq') as (r' & Hrun' & _).
    unfold exec. cbn [step]. rewrite (fire_flusher _ _ Hi1).
    unfold host_call. rewrite Hrun'.
    cbn [after at_consumer delivered]. rewrite length_app, Hd1.
    cbn [length]. lia. }
  split.
  - intros k name u e Hu.
    apply read_live_Some in Hv as (l & r0 & Hl & Hr & Hf).
    pose proof Hf as Hf0.
    apply read_fields_Some in Hf
      as (_ & _ & (c & Hc & _) & _ & _ & _ & _ & _ & _ & _ & _ & _ & Hce).
    unfold run_handler. cbn [h_code]. unfold bind at 1. mred.
    unfold bind at 1. rewrite (push_field_ok _ _ _ _ _ _ Hl Hr Hce).
    unfold call_userHandler. rewrite Hu.
    eexists _, _. split; [reflexivity|]. split.
    + apply read_live_Some. exists l, r0. cbn [set_hp st hp].
      split; [done|]. split.
      * rewrite (read_results_store _ _ (CArray (v_customEvents v))); try done.
        by apply read_array_lookup.
      * by apply (read_fields_push _ _ _ _ _ _ _ Hf0 Hc Hce).
    + cbn [push_view v_customEvents]. by rewrite pushed_same.
  - intros w0 k name u e H0. unfold run_handler. cbn [h_code].
    unfold bind at 1. mred. unfold bind at 1. unfold push_field, bind, live.
    by rewrite H0.
Qed.

Lemma consumer_fault_propagates_scheduler_survives_witness :
  (∃ w', processResults demo_raising = Throw w' ∧
         read_live w' = Some (flushed_view demo_raising (started_view demo_idle)) ∧
         length (delivered w') = 1) ∧
  let w1 := exec (Fire 1) demo_raising in
  uncaught w1 = 1 ∧
  timers (hst w1) = timers (hst demo_raising) ∧
  flusher_armed 1 w1 ∧
  length (delivered w1) = 1 ∧
  length (delivered (exec (Fire 1) w1)) = 2.
Proof.
  destruct (consumer_fault_propagates_scheduler_survives demo_raising
              (started_view demo_idle) 1) as (H1 & H2 & _).
  - apply heap_okb_sound. vm_compute. reflexivity.
  - vm_compute. reflexivity.
  - intros l h. reflexivity.
  - exists (mkTimer 1 Flush 15000). vm_compute. split; reflexivity.
  - split; [exact H1|exact H2].
Defined.

(** C2 as stated fails: with a consumer that raises, [processResults()]
    and [stop()] end with the exception in their caller; and a custom
    event fired before the first [start()] finds the buffer [null], so the
    wrapper raises into the host's event dispatch. *)
Lemma faults_are_not_contained :
  (∃ w', processResults demo_raising = Throw w') ∧
  (∃ w', stop demo_raising = Throw w') ∧
  results (st demo_early_custom) = None ∧
  uncaught demo_early_custom = 0 ∧
  uncaught (exec (Dispatch (plain_event "ping")) demo_early_custom) = 1.
Proof.
  split; [|split; [|split; [|split]]].
  - eexists. vm_compute. reflexivity.
  - eexists. vm_compute. reflexivity.
  - reflexivity.
  - reflexivity.
  - vm_compute. reflexivity.
Qed.

(** ** C3: sampling of mouse movements *)




(** ** C4: a flush keeps the environment record only *)



(** ** C5: the time window of the final snapshot *)



(** The session of the witness has a flush in the middle that resets the
    time window: the final snapshot starts at 0, not at the start time
    1000. *)
Example stop_time_window_demo :
  (λ d, v_time <$> d_view d) <$>
    delivered (exec CallStop (execs demo_session (exec CallStart demo_idle))) =
  [Some (mkTime 1000 2000 0); Some (mkTime 0 2500 2500)].
Proof. vm_compute. reflexivity. Qed.

(** ** C6: what [stop] leaves behind *)

(** The part of C6 that holds.  [stop()] on an active session first tears
    down, then flushes once: no interval of the interval set stays armed,
    the three registries are empty, no window listener that matches an
    entry of the listener registry and no media listener that matches an
    entry of the media registry stays attached, the two history entry
    points are the saved originals, and exactly one snapshot, stamped with
    the stop time, is delivered. *)
Theorem stop_tears_down_registry (w : world) (v : view) :
  active (st w) = true → heap_ok w → read_live w = Some v →
  let w' := exec CallStop w in
  stop w = final_flush (torn_down w) ∧
  (∀ t, t ∈ timers (hst w') → t ∈ timers (hst w) ∧ t_id t ∉ intervals (st w)) ∧
  intervals (st w') = [] ∧ listeners (st w') = [] ∧ mediaElements (st w') = [] ∧
  (∀ l kv, l ∈ window_listeners (hst w') → kv ∈ listeners (st w) →
     same_listener (lr_type kv.2) (lr_handler kv.2)
                   (capture_of (lr_options kv.2)) l = false) ∧
  (∀ x l r, media (hst w') !! mr_element r = Some x → l ∈ el_listeners x →
     r ∈ mediaElements (st w) →
     same_el_listener (mr_event r) (mr_handler r) l = false) ∧
  history_pushState (hst w') = (originalHistoryMethods (st w)).1 ∧
  history_replaceState (hst w') = (originalHistoryMethods (st w)).2 ∧
  delivered w' =
    delivered w ++
      [mkDelivery (consumer_id (Config.processData (config (st w))))
                  (next_loc w) (Some (final_view w v))] ∧
  stopTime (v_time (final_view w v)) = now (hst w).
Proof.
  intros Ha Hok Hv. cbn zeta.
  destruct (stop_registry w v Ha Hok Hv)
    as (Hh & Hd & _ & _ & _ & Hl & Hi & Hm & _ & _).
  change (after (stop w)) with (exec CallStop w) in *.
  split; [by apply stop_active|].
  rewrite Hh, Hd, Hl, Hi, Hm. cbn [torn_down hst timers window_listeners
    history_pushState history_replaceState media].
  split; [intros t Ht; by apply clear_all_elem in Ht|].
  do 3 (split; [done|]).
  split.
  { intros l kv Hl' Hkv. apply detach_all_elem in Hl' as [_ Hall].
    by apply Hall. }
  split; [|done].
  intros x l r Hx Hl' Hr.
  destruct (detach_media_lookup _ _ _ _ Hx) as (x0 & _ & Hiff).
  apply Hiff in Hl' as [_ Hall]. by apply Hall.
Qed.

Lemma stop_tears_down_registry_witness :
  let w' := exec CallStop demo_started in
  timers (hst w') = [] ∧ intervals (st w') = [] ∧ listeners (st w') = [] ∧
  history_pushState (hst w') = HistNative "pushState" ∧
  length (delivered w') = 1.
Proof.
  destruct (stop_tears_down_registry demo_started (started_view demo_idle))
    as (_ & _ & Hi & Hl & _ & _ & _ & Hp & _ & Hd & _).
  - reflexivity.
  - apply heap_okb_sound. vm_compute. reflexivity.
  - vm_compute. reflexivity.
  - cbn zeta. split; [vm_compute; reflexivity|].
    split; [exact Hi|]. split; [exact Hl|]. split; [exact Hp|].
    rewrite Hd. reflexivity.
Defined.

(** C6 fails on the window listeners.  [start] attaches the navigation
    handler for four event types, but the listener registry is a map keyed
    by the handler, so it keeps only the last of the four entries.  After
    [start(); stop()] with the default configuration the registry is
    empty while three navigation listeners are still attached, and a
    later [popstate] event still appends to the buffer. *)
Theorem stop_leaves_navigation_listeners :
  let w := exec CallStop demo_started in
  Config.pageNavigation (config (st demo_started)) = true ∧
  length (window_listeners (hst demo_started)) = 12 ∧
  length (listeners (st demo_started)) = 9 ∧
  active (st w) = false ∧
  listeners (st w) = [] ∧
  l_type <$> window_listeners (hst w) = ["popstate"; "pushstate"; "replacestate"]%string ∧
  v_navigationHistory <$> read_live w = Some [] ∧
  v_navigationHistory <$>
    read_live (exec (Dispatch (plain_event "popstate")) w) =
    Some [[JStr "https://example.org/"; JNum 1000]].
Proof.
  cbn zeta. repeat split; vm_compute; reflexivity.
Qed.

(** ** C7: when [start] arms the periodic flush *)

(** C7, as the code has it.  When [processTime] is 0, [start] arms no
    interval that runs the flush: the only interval it may arm is the
    mouse sampler, and in the session that follows no timer, event or call
    other than [processResults()] and [stop()] calls the consumer. *)
Theorem zero_processTime_arms_no_flush (w : world) (tr : list input) :
  active (st w) = false → no_flush_timer w →
  Config.processTime (config (st w)) = 0%Z →
  Forall passive tr →
  ∃ w1,
    start w = Ok tt w1 ∧
    timers (hst w1) =
      timers (hst w) ++ sampler (config (st w)) (next_timer (hst w)) ∧
    no_flush_timer w1 ∧
    delivered (execs tr w1) = delivered w.
Proof.
  intros Ha Hnf Hp Htr.
  destruct (start_spec (λ _, True) w Ha (listeners_ok_True w))
    as (w1 & Hrun & Ha1 & _ & _ & _ & _ & _ & _ & _ & Hd & _ & _ & Ht & _).
  unfold armed, flusher in Ht. rewrite Hp in Ht. cbn [truthy_num Z.eqb negb] in Ht.
  rewrite app_nil_r in Ht.
  assert (no_flush_timer w1) as Hnf1.
  { unfold no_flush_timer. rewrite Ht. apply Forall_app. split; [done|].
    unfold sampler. destruct (Config.mouseMovement _); [|by apply Forall_nil].
    by apply Forall_singleton. }
  exists w1. repeat split; try done.
  assert (unflushed (delivered w) (execs tr w1)) as (_ & _ & H); [|done].
  by apply unflushed_execs.
Qed.

Lemma zero_processTime_arms_no_flush_witness :
  let w := exec (CallConfig (only_processTime 0)) demo_idle in
  let tr := [Dispatch (mousemove 3 4); Elapse 1000; Fire 0; Elapse 20000;
             Fire 1; CallGetResults] in
  ∃ w1,
    start w = Ok tt w1 ∧
    timers (hst w1) = [mkTimer 0 SampleMouse 1000] ∧
    no_flush_timer w1 ∧
    delivered (execs tr w1) = [].
Proof.
  intros w tr.
  apply (zero_processTime_arms_no_flush w tr).
  - reflexivity.
  - apply Forall_nil. exact I.
  - reflexivity.
  - repeat (apply Forall_cons; split; [split; discriminate|]). apply Forall_nil.
    exact I.
Defined.

(** C7 as stated fails for a negative [processTime]: it is truthy, so
    [start] arms a flush interval (with a negative delay), and when that
    interval fires the consumer is called. *)
Lemma negative_processTime_arms_flush :
  let w := exec (CallConfig (only_processTime (-1))) demo_idle in
  let w1 := exec CallStart w in
  (Config.processTime (config (st w)) ≤ 0)%Z ∧
  timers (hst w1) =
    [mkTimer 0 SampleMouse 1000; mkTimer 1 Flush (-1000)] ∧
  flusher_armed 1 w1 ∧
  delivered w1 = [] ∧
  d_consumer <$> delivered (exec (Fire 1) w1) = [consumer_id console_log].
Proof.
  cbn zeta. split; [|split; [|split; [|split]]].
  - vm_compute. discriminate.
  - vm_compute. reflexivity.
  - exists (mkTimer 1 Flush (-1000)). vm_compute. split; reflexivity.
  - vm_compute. reflexivity.
  - vm_compute. reflexivity.
Qed.

(** ** C8: reconfiguring during a session *)

(** C8, as the code has it.  A call of [config] during a session replaces
    the stored configuration and nothing else: the armed intervals (the
    flush cadence), the listeners, the registries and the captured data
    stay as they are.  But [processResults] reads the configuration when
    it runs: the next flush calls the consumer of the new configuration,
    and, when that consumer returns without writing, clears the buffer or
    keeps it as the new [clearAfterProcess] says. *)
Theorem config_takes_effect_at_next_flush (w : world) (v : view)
    (p : Partial.t) :
  heap_ok w → read_live w = Some v →
  let cfg := spread_config DEFAULT_CONFIG p in
  let w1 := exec (CallConfig p) w in
  let w2 := exec CallProcessResults w1 in
  config (st w1) = cfg ∧
  hst w1 = hst w ∧ hp w1 = hp w ∧ read_live w1 = Some v ∧
  active (st w1) = active (st w) ∧ listeners (st w1) = listeners (st w) ∧
  intervals (st w1) = intervals (st w) ∧
  mediaElements (st w1) = mediaElements (st w) ∧
  delivered w2 =
    delivered w ++
      [mkDelivery (consumer_id (Config.processData cfg)) (next_loc w)
                  (Some (flushed_view w v))] ∧
  (quiet (Config.processData cfg) →
   read_live w2 =
     Some (if Config.clearAfterProcess cfg
           then empty_view (if Config.userInfo cfg then v_userInfo v else None)
           else flushed_view w v)).
Proof.
  intros Hok Hv. cbn zeta.
  assert (exec (CallConfig p) w =
          set_st (st_config (spread_config DEFAULT_CONFIG p)) w) as -> by done.
  set (w1 := set_st _ w).
  assert (heap_ok w1) as Hok1 by exact Hok.
  assert (read_live w1 = Some v) as Hv1 by exact Hv.
  repeat split; try done.
  - unfold exec. cbn [step].
    by destruct (processResults_registry w1 v Hok1 Hv1) as (_ & -> & _).
  - intros Hq. unfold exec. cbn [step].
    destruct (Config.clearAfterProcess _) eqn:Hc.
    + destruct (processResults_clear w1 v Hok1 Hv1 Hc Hq) as (w' & -> & _ & Hv').
      exact Hv'.
    + destruct (processResults_keep w1 v Hok1 Hv1 Hc Hq) as (r & -> & _ & Hv').
      exact Hv'.
Qed.

Lemma config_takes_effect_at_next_flush_witness :
  let w1 := exec (CallConfig demo_reconfig) demo_sampled in
  let w2 := exec CallProcessResults w1 in
  timers (hst w1) = timers (hst demo_sampled) ∧
  d_consumer <$> delivered w2 = [consumer_id other_consumer] ∧
  v_mouseMovements <$> read_live w2 = Some [[JNum 1; JNum 1; JNum 1000]].
Proof.
  cbn zeta.
  assert (heap_ok demo_sampled) as Hok.
  { apply heap_okb_sound. vm_compute. reflexivity. }
  assert (∃ v, read_live demo_sampled = Some v ∧
               v_mouseMovements v = [[JNum 1; JNum 1; JNum 1000]])
    as (v & Hv & Hmm).
  { eexists. split; [vm_compute; reflexivity|reflexivity]. }
  destruct (config_takes_effect_at_next_flush demo_sampled v demo_reconfig Hok Hv)
    as (_ & Hh & _ & _ & _ & _ & _ & _ & Hd & Hq).
  split; [by rewrite Hh|]. split.
  - rewrite Hd. reflexivity.
  - rewrite Hq; [|by intros ? ?]. cbn [fmap option_fmap option_map]. by rewrite <- Hmm.
Defined.

(** C8 as stated fails: the session [demo_sampled] was started with the
    default configuration ([console.log], clearing flushes).  After a
    call of [config] in the middle of the session, the same flush goes to
    the other consumer and no longer clears the captured samples. *)
Lemma config_mid_session_changes_flush :
  let w := demo_sampled in
  let w' := exec (CallConfig demo_reconfig) w in
  active (st w) = true ∧
  d_consumer <$> delivered (exec CallProcessResults w) = [consumer_id console_log] ∧
  d_consumer <$> delivered (exec CallProcessResults w') = [consumer_id other_consumer] ∧
  consumer_id console_log ≠ consumer_id other_consumer ∧
  v_mouseMovements <$> read_live (exec CallProcessResults w) = Some [] ∧
  v_mouseMovements <$> read_live (exec CallProcessResults w') =
    Some [[JNum 1; JNum 1; JNum 1000]].
Proof.
  cbn zeta. split; [|split; [|split; [|split; [|split]]]];
    try (vm_compute; reflexivity).
  vm_compute. discriminate.
Qed.

(** ** C9: the click path is clamped *)

(** C9. For a click event whose propagation path has any length [n], the
    click handler run on a tracker that holds a result buffer returns
    without a fault, adds one to [clickCount] and appends exactly one
    record to [clickDetails]; the path string of that record is built from
    the first [max 0 (n - 2)] path entries (the last two are dropped, and a
    path shorter than two gives the empty path). *)
Theorem handleClick_clamped_path (e : event) (w : world) (v : view) :
  read_live w = Some v →
  ∃ w' v',
    handleClick e w = Ok tt w' ∧
    read_live w' = Some v' ∧
    v_clickCount v' = (v_clickCount v + 1)%Z ∧
    v_clickDetails v' =
      v_clickDetails v ++
        [[JNum (clientX e); JNum (clientY e);
          JStr (path_string
                  (map node_of
                     (take (length (composedPath e) - 2) (composedPath e))));
          JNum (now (hst w))]] ∧
    Z.of_nat (length (take (length (composedPath e) - 2) (composedPath e))) =
      Z.max 0 (Z.of_nat (length (composedPath e)) - 2).
Proof.
  intros H. apply read_live_Some in H as (l & r & Hl & Hr & Hf).
  pose proof Hf as Hf0.
  apply read_fields_Some in Hf as (Hu & Ht & (c & Hc & Hn & Hd) & Harr).
  pose proof (read_clicks_lookup _ _ _ Hc) as Hc'.
  set (c1 := mkClicks (clickCount c + 1) (clickDetails c)).
  set (h1 := <[Results.clicks r:=CClicks c1]> (hp w)).
  assert (read_fields h1 r = Some
            (mkView (v_userInfo v) (v_time v) (v_clickCount v + 1)
               (v_clickDetails v) (v_mouseMovements v) (v_mouseScroll v)
               (v_keyboardActivities v) (v_navigationHistory v)
               (v_formInteractions v) (v_touchEvents v) (v_mediaInteractions v)
               (v_windowSizes v) (v_visibilityChanges v) (v_customEvents v)))
    as Hf1.
  { apply read_fields_Some. simpl. unfold h1.
    rewrite (read_userInfo_store _ _ _ _ _ Hc'), (read_time_store _ _ _ _ _ Hc'),
      !(read_array_store _ _ _ _ _ Hc') by done.
    repeat split; try tauto.
    exists c1. unfold read_clicks. rewrite lookup_insert_eq. simpl.
    rewrite (read_array_store _ _ _ _ _ Hc') by done.
    repeat split; [congruence|done]. }
  assert (read_clicks h1 (Results.clicks r) = Some c1) as Hc1.
  { unfold read_clicks, h1. by rewrite lookup_insert_eq. }
  assert (read_array h1 (clickDetails c1) = Some (v_clickDetails v)) as Hd1.
  { unfold h1. by rewrite (read_array_store _ _ _ _ _ Hc'). }
  eexists _, _. split; [|split; [|split; [|split]]].
  - unfold handleClick, bind. rewrite (live_ok _ _ _ Hl Hr). simpl.
    unfold load_clicks. rewrite Hc. simpl.
    fold c1. erewrite push_ok by exact Hd1. rewrite click_path_spec. reflexivity.
  - apply read_live_Some. exists l, r. simpl. split; [done|]. split.
    + rewrite (read_results_store _ _ (CArray (v_clickDetails v))) by
        (try apply read_array_lookup; done).
      unfold h1. by rewrite (read_results_store _ _ _ _ _ Hc').
    + by apply (read_fields_push _ _ _ _ _ _ _ Hf1 Hc1 Hd1).
  - done.
  - simpl. by rewrite pushed_same.
  - rewrite length_take. lia.
Qed.
Lemma handleClick_clamped_path_witness :
  ∃ w' v',
    handleClick demo_click demo_started = Ok tt w' ∧
    read_live w' = Some v' ∧
    v_clickCount v' = 1%Z ∧
    v_clickDetails v' =
      [[JNum 10; JNum 20; JStr "html > body > div#main > button.btn.primary#go";
        JNum 1000]] ∧
    Z.of_nat (length (take 4 (composedPath demo_click))) = 4%Z.
Proof.
  apply (handleClick_clamped_path demo_click demo_started (started_view demo_idle)).
  vm_compute. reflexivity.
Defined.

(** ** C10: the cached mouse sample survives [stop] and [start] *)



(** * Further properties of the tracker *)

(** ** The life cycle: [start] and [stop] *)

(** X1. [start()] on a running tracker does nothing.  After [start()],
    whatever events, timer firings and calls other than [stop()] happen,
    another [start()] leaves the tracker as it is: the buffer is not
    reset, and no listener or interval is added. *)
Theorem start_twice_is_start (w : world) (tr : list input) :
  Forall (λ i, i ≠ CallStop) tr →
  let w1 := execs tr (exec CallStart w) in
  active (st w1) = true ∧ exec CallStart w1 = w1.
Proof.
  intros Htr w1.
  assert (active (st w1) = true) as Ha.
  { apply (active_execs true); [exact Htr|apply start_sets_active]. }
  split; [exact Ha|]. unfold exec. cbn [step]. by rewrite start_active.
Qed.

Lemma start_twice_is_start_witness :
  let w1 := execs demo_session (exec CallStart demo_idle) in
  active (st w1) = true ∧ exec CallStart w1 = w1.
Proof.
  apply (start_twice_is_start demo_idle demo_session).
  repeat constructor; discriminate.
Defined.

(** X2. [stop()] calls the consumer at most once, and [stop()] on a
    stopped tracker does nothing: after [stop()], whatever events, timer
    firings and calls other than [start()] happen, another [stop()] leaves
    the tracker as it is and does not call the consumer. *)
Theorem stop_twice_is_stop (w : world) (tr : list input) :
  Forall (λ i, i ≠ CallStart) tr →
  let w1 := exec CallStop w in
  let w2 := execs tr w1 in
  (delivered w1 = delivered w ∨ ∃ d, delivered w1 = delivered w ++ [d]) ∧
  active (st w2) = false ∧ exec CallStop w2 = w2.
Proof.
  intros Htr w1 w2. split; [apply stop_at_most_once|].
  assert (active (st w2) = false) as Ha.
  { apply (active_execs false); [exact Htr|apply stop_clears_active]. }
  split; [exact Ha|]. unfold exec. cbn [step]. by rewrite stop_idle.
Qed.

Lemma stop_twice_is_stop_witness :
  let w1 := exec CallStop demo_started in
  let w2 := execs [Elapse 10; Dispatch demo_click; CallGetResults] w1 in
  (delivered w1 = delivered demo_started ∨
   ∃ d, delivered w1 = delivered demo_started ++ [d]) ∧
  active (st w2) = false ∧ exec CallStop w2 = w2.
Proof.
  apply (stop_twice_is_stop demo_started
           [Elapse 10; Dispatch demo_click; CallGetResults]).
  repeat constructor; discriminate.
Defined.

(** X3. [start()] on a stopped tracker never fails and opens a fresh
    session whatever the buffer held before: every event sequence of the
    new buffer is empty, [clickCount] is 0, the time record is
    [startTime = Date.now()], [currentTime = stopTime = 0], and [userInfo]
    is read from the page when the configuration asks for it and is
    [null] otherwise.  The consumer is not called, the configuration is
    kept, and the intervals armed are the mouse sampler (when
    [mouseMovement] is on) and the flush (when [processTime] is not 0),
    both recorded in the interval set. *)
Theorem start_opens_fresh_session (w : world) :
  active (st w) = false →
  ∃ w',
    start w = Ok tt w' ∧ active (st w') = true ∧
    read_live w' =
      Some (mkView (if Config.userInfo (config (st w))
                    then Some (fresh_userInfo (pg (hst w))) else None)
                   (mkTime (now (hst w)) 0 0) 0 [] [] [] [] [] [] [] [] [] [] []) ∧
    config (st w') = config (st w) ∧
    delivered w' = delivered w ∧ uncaught w' = uncaught w ∧
    timers (hst w') =
      timers (hst w) ++ sampler (config (st w)) (next_timer (hst w))
                     ++ flusher (config (st w))
                          (next_timer (hst w) +
                           length (sampler (config (st w)) (next_timer (hst w)))) ∧
    (∀ i, i ∈ intervals (st w') ↔
          i ∈ intervals (st w) ∨
          i ∈ t_id <$> armed (config (st w)) (next_timer (hst w))).
Proof.
  intros Ha.
  destruct (start_spec (λ _, True) w Ha (listeners_ok_True w))
    as (w' & Hs & Ha' & _ & _ & Hc & _ & _ & _ & _ & Hd & Hu & Hv & Ht & _ & Hi).
  exists w'. repeat split; try done.
  - rewrite Hi. apply elem_of_fold_set_add.
  - rewrite Hi. apply elem_of_fold_set_add.
Qed.

Lemma start_opens_fresh_session_witness :
  ∃ w',
    start demo_idle = Ok tt w' ∧ active (st w') = true ∧
    read_live w' =
      Some (mkView (Some (fresh_userInfo demo_page)) (mkTime 1000 0 0) 0
                   [] [] [] [] [] [] [] [] [] [] []) ∧
    config (st w') = DEFAULT_CONFIG ∧
    delivered w' = [] ∧ uncaught w' = 0 ∧
    timers (hst w') = [mkTimer 0 SampleMouse 1000; mkTimer 1 Flush 15000] ∧
    (∀ i, i ∈ intervals (st w') ↔ i ∈ [] ∨ i ∈ [0; 1]).
Proof.
  apply (start_opens_fresh_session demo_idle). reflexivity.
Defined.

(** X4. [config] replaces the configuration, it does not merge into the
    one stored: the stored configuration is the defaults overridden by the
    keys of the last call, so a key set by an earlier [config] call and
    absent from the last one is back at its default; [getConfig()] returns
    it, and [config({})] restores the defaults. *)
Theorem config_replaces_previous (p1 p2 : Partial.t) (w : world) :
  let w2 := exec (CallConfig p2) (exec (CallConfig p1) w) in
  w2 = exec (CallConfig p2) w ∧
  getConfig w2 = Ok (spread_config DEFAULT_CONFIG p2) w2 ∧
  getConfig (exec (CallConfig no_keys) w2) =
    Ok DEFAULT_CONFIG (exec (CallConfig no_keys) w2).
Proof. by destruct w as [[] ? ? ? ? ?]. Qed.

(** X5. Until [start()] is called for the first time the tracker is
    inert: whatever events and timer firings arrive and whatever is
    called ([config], [stop], [processResults], [getResults],
    [registerCustomEvent]), there is no buffer, the heap holds nothing
    (not even what a registered handler would write), no interval is
    armed and the consumer has not been called; [getResults()] returns
    [null] and [processResults()] ends with the error of reading the
    [null] buffer. *)
Theorem nothing_recorded_before_start (t : Z) (m : list mediaEl) (p : page)
    (tr : list input) :
  Forall (λ i, i ≠ CallStart) tr →
  let w := execs tr (initial_world t m p) in
  results (st w) = None ∧ active (st w) = false ∧ hp w = ∅ ∧
  delivered w = [] ∧ timers (hst w) = [] ∧
  getResults w = Ok None w ∧ processResults w = Throw w.
Proof.
  intros Htr w.
  assert (never_started w) as (Hr & Ha & Hh & Hd & Ht & Hi).
  { apply never_started_execs; [exact Htr|]. by repeat split. }
  repeat split; try done.
  - unfold getResults, bind. mred. by rewrite Hr.
  - unfold processResults, bind, live. by rewrite Hr.
Qed.

Lemma nothing_recorded_before_start_witness :
  let w := execs [CallRegisterCustomEvent "ping" scribbling_handler;
                  Dispatch (plain_event "ping"); Dispatch demo_click;
                  CallProcessResults; CallStop; Fire 0; PushState]
                 (initial_world 1000 [] demo_page) in
  results (st w) = None ∧ active (st w) = false ∧ hp w = ∅ ∧
  delivered w = [] ∧ timers (hst w) = [] ∧
  getResults w = Ok None w ∧ processResults w = Throw w.
Proof.
  apply (nothing_recorded_before_start 1000 [] demo_page).
  repeat constructor; discriminate.
Defined.

(** X6. [processResults()] does not ask whether a session is running.
    After [stop()] (with a consumer that returns), a later
    [processResults()] calls the consumer once more with what [stop] left
    in the buffer: the emptied buffer when [clearAfterProcess] is on,
    and otherwise the whole data of the stopped session again, with the
    old [stopTime] and a new [currentTime]. *)
Theorem flush_after_stop_delivers_again (w : world) (v : view) (d : Z) :
  active (st w) = true → heap_ok w → read_live w = Some v →
  quiet (Config.processData (config (st w))) →
  let cfg := config (st w) in
  let w1 := exec CallStop w in
  let w2 := exec CallProcessResults (exec (Elapse d) w1) in
  active (st w2) = false ∧
  ∃ d1 d2,
    delivered w2 = delivered w ++ [d1; d2] ∧
    d_view d1 = Some (final_view w v) ∧
    d_view d2 =
      Some (if Config.clearAfterProcess cfg
            then with_time (mkTime 0 (now (hst w) + d) 0)
                   (empty_view (if Config.userInfo cfg then v_userInfo v
                                else None))
            else with_time (mkTime (startTime (v_time v)) (now (hst w) + d)
                                   (now (hst w))) v).
Proof.
  intros Ha Hok Hv Hq cfg w1 w2.
  destruct (stop_quiet w v Ha Hok Hv Hq) as (_ & Hok1 & Hv1).
  destruct (stop_registry w v Ha Hok Hv)
    as (Hh1 & Hd1 & _ & Hc1 & Ha1 & _).
  change (after (stop w)) with w1 in Hh1, Hd1, Hc1, Ha1.
  set (w1e := exec (Elapse d) w1).
  assert (heap_ok w1e) as Hoke by exact Hok1.
  pose proof (Hv1 : read_live w1e = _) as Hve.
  destruct (processResults_registry w1e _ Hoke Hve)
    as (_ & Hd2 & _ & _ & Ha2 & _).
  split; [by rewrite <- Ha1|].
  eexists _, _. split.
  { unfold w2, exec at 1. cbn [step]. fold w1e. rewrite Hd2.
    change (delivered w1e) with (delivered w1). rewrite Hd1.
    rewrite <- app_assoc. reflexivity. }
  split; [reflexivity|].
  cbn [d_view]. f_equal. unfold flushed_view.
  change (now (hst w1e)) with (now (hst w1) + d)%Z. rewrite Hh1.
  cbn [torn_down hst now]. fold cfg.
  by destruct (Config.clearAfterProcess cfg).
Qed.

Lemma flush_after_stop_delivers_again_witness :
  let v := mkView (Some (fresh_userInfo demo_page)) (mkTime 1000 0 0) 0 []
             [[JNum 1; JNum 1; JNum 1000]] [] [] [] [] [] [] [] [] [] in
  let w1 := exec CallStop demo_sampled in
  let w2 := exec CallProcessResults (exec (Elapse 500) w1) in
  active (st w2) = false ∧
  ∃ d1 d2,
    delivered w2 = delivered demo_sampled ++ [d1; d2] ∧
    d_view d1 = Some (with_time (mkTime 1000 1000 1000) v) ∧
    d_view d2 =
      Some (with_time (mkTime 0 1500 0)
              (empty_view (Some (fresh_userInfo demo_page)))).
Proof.
  intros v.
  apply (flush_after_stop_delivers_again demo_sampled v 500).
  - reflexivity.
  - apply heap_okb_sound. vm_compute. reflexivity.
  - vm_compute. reflexivity.
  - intros l h. reflexivity.
Defined.

(** X7. No interval outlives a session.  Start a stopped tracker whose
    interval set is empty; after any events, timer firings and calls other
    than [stop()], whatever the callbacks do, [stop()] leaves armed exactly
    the intervals that were armed before [start()], and the interval set
    is empty again. *)
Theorem stop_cancels_session_intervals (w : world) (tr : list input) :
  active (st w) = false → timers_ok w → intervals (st w) = [] →
  Forall (λ i, i ≠ CallStop) tr →
  let w1 := execs tr (exec CallStart w) in
  let w2 := exec CallStop w1 in
  timers (hst w1) = timers (hst w) ++ armed (config (st w)) (next_timer (hst w)) ∧
  timers (hst w2) = timers (hst w) ∧ intervals (st w2) = [].
Proof.
  intros Ha Hts Hi Htr w1 w2.
  destruct (start_spec (λ _, True) w Ha (listeners_ok_True w))
    as (w' & Hs & Ha' & _ & _ & _ & _ & _ & _ & _ & _ & _ & _ & Ht & _ & Hi').
  assert (exec CallStart w = w') as Hw'.
  { unfold exec. cbn [step]. by rewrite Hs. }
  assert (session_timers (timers (hst w')) (intervals (st w')) w1)
    as (Ha1 & Ht1 & Hi1).
  { apply session_timers_execs; [exact Htr|]. rewrite Hw'. by repeat split. }
  split; [by rewrite Ht1|].
  unfold w2, exec. cbn [step]. rewrite stop_active by done.
  apply (preserves_after
           (λ x, timers (hst x) = timers (hst w) ∧ intervals (st x) = [])
           final_flush).
  - apply blind_final_flush; by intros ? ?.
  - cbn [torn_down hst st timers intervals]. split; [|done].
    rewrite Ht1, Hi1, Hi', Ht, Hi. by apply clear_armed.
Qed.

Lemma stop_cancels_session_intervals_witness :
  let w1 := execs demo_session (exec CallStart demo_idle) in
  let w2 := exec CallStop w1 in
  timers (hst w1) = [] ++ armed DEFAULT_CONFIG 0 ∧
  timers (hst w2) = [] ∧ intervals (st w2) = [].
Proof.
  apply (stop_cancels_session_intervals demo_idle demo_session).
  - reflexivity.
  - constructor.
  - reflexivity.
  - repeat constructor; discriminate.
Defined.

(** ** The buffer *)

(** X8. Whatever sequence of events, timer firings, page calls of the
    history entry points and calls of the tracker's operations happens
    after the script is loaded, with callbacks that do not write the heap:
    whenever there is a buffer it can be read in full, the objects and
    arrays it is made of are pairwise distinct, and [clickCount] equals
    the number of click records; while a session is running there is a
    buffer and its [stopTime] is 0; and every snapshot the consumer was
    given had a [clickCount] equal to its number of click records. *)
Theorem reachable_buffer_sound (t : Z) (m : list mediaEl) (p : page)
    (tr : list input) :
  Forall (λ x, Forall (λ l, handler_ok readonly_handler l.2) (el_listeners x)) m →
  Forall input_wf tr →
  let w := execs tr (initial_world t m p) in
  heap_ok w ∧
  (active (st w) = true →
   ∃ v, whole w v ∧ count_ok v ∧ stopTime (v_time v) = 0%Z) ∧
  (results (st w) ≠ None → ∃ v, whole w v ∧ count_ok v) ∧
  Forall (λ d, ∃ v, d_view d = Some v ∧ count_ok v) (delivered w).
Proof.
  intros Hm Htr w.
  assert (tracker_ok w) as (Hok & _ & _ & Hd & Hb).
  { apply tracker_ok_execs; [exact Htr|by apply tracker_ok_initial]. }
  split; [exact Hok|]. split; [|split; [|exact Hd]].
  - intros Ha. destruct (results (st w)); [|congruence].
    destruct Hb as (v & Hv & Hc & Ht). exists v. auto.
  - intros Hr. destruct (results (st w)); [|done].
    destruct Hb as (v & Hv & Hc & Ht). exists v. auto.
Qed.

Lemma reachable_buffer_sound_witness :
  let w := execs (CallStart :: demo_session ++ [CallStop; CallStart;
                  Dispatch demo_click])
                 (initial_world 1000 [] demo_page) in
  heap_ok w ∧
  (active (st w) = true →
   ∃ v, whole w v ∧ count_ok v ∧ stopTime (v_time v) = 0%Z) ∧
  (results (st w) ≠ None → ∃ v, whole w v ∧ count_ok v) ∧
  Forall (λ d, ∃ v, d_view d = Some v ∧ count_ok v) (delivered w).
Proof.
  apply (reachable_buffer_sound 1000 [] demo_page).
  - constructor.
  - repeat constructor.
Defined.



(** ** What [stop] detaches *)

(** X10. Whatever happened since the script was loaded (on a page whose
    media elements had no listeners then), [stop()] on a running session
    empties the listener registry and the media registry, removes every
    listener from the media elements, and detaches every window listener
    the tracker attached, the wrappers of custom events included, with one
    exception: a listener that is still attached is a navigation listener
    for [popstate], [pushstate] or [replacestate]. *)
Theorem stop_leaves_only_navigation_listeners (t : Z) (m : list mediaEl)
    (p : page) (tr : list input) :
  Forall (λ x, el_listeners x = []) m →
  let w := execs tr (initial_world t m p) in
  active (st w) = true →
  let w' := exec CallStop w in
  listeners (st w') = [] ∧ mediaElements (st w') = [] ∧
  (∀ l, l ∈ window_listeners (hst w') →
        h_code (l_handler l) = HNav ∧
        l_type l ∈ ["popstate"; "pushstate"; "replacestate"]%string) ∧
  (∀ x, x ∈ media (hst w') → el_listeners x = []).
Proof.
  intros Hm w Ha w'.
  assert (registry_ok w') as (_ & _ & Hl & Hmd).
  { unfold w', exec. apply preserves_after; [apply registry_ok_step|].
    apply registry_ok_execs. by apply registry_ok_initial. }
  destruct (stop_empties_registries w Ha) as [Hls Hms].
  fold w' in Hls, Hms. rewrite Hls in Hl. rewrite Hms in Hmd.
  split; [done|]. split; [done|]. split.
  - intros l Hin. destruct (Hl l Hin) as (_ & _ & [Hs|(kv & Hkv & _)]); [done|].
    by apply elem_of_nil in Hkv.
  - intros x Hx. apply list_elem_of_lookup in Hx as [el Hx].
    destruct (el_listeners x) as [|l ls] eqn:Hlx; [done|].
    destruct (Hmd el x l Hx) as (r & Hr & _); [rewrite Hlx; set_solver|].
    by apply elem_of_nil in Hr.
Qed.

Lemma stop_leaves_only_navigation_listeners_witness :
  let w := execs [CallRegisterCustomEvent "ping" quiet_handler; CallStart;
                  CallRegisterCustomEvent "pong" quiet_handler;
                  Dispatch demo_click; CallStop; CallStart]
                 (initial_world 1000 [mkMediaEl "a.mp4" 0 []] demo_page) in
  let w' := exec CallStop w in
  listeners (st w') = [] ∧ mediaElements (st w') = [] ∧
  (∀ l, l ∈ window_listeners (hst w') →
        h_code (l_handler l) = HNav ∧
        l_type l ∈ ["popstate"; "pushstate"; "replacestate"]%string) ∧
  (∀ x, x ∈ media (hst w') → el_listeners x = []).
Proof.
  apply (stop_leaves_only_navigation_listeners 1000 [mkMediaEl "a.mp4" 0 []]
           demo_page).
  - repeat constructor.
  - reflexivity.
Defined.

(** ** What the tracker writes *)

(** X11. With callbacks that do not write the heap, the tracker writes
    only to the objects of its live buffer (the result object, its time
    and click records, its arrays) and to objects it creates: in every
    state reached since the script was loaded, every other object that
    exists then holds the same value after any further events, timer
    firings and calls. *)
Theorem tracker_writes_own_cells_only (t : Z) (m : list mediaEl) (p : page)
    (tr0 tr : list input) (k : loc) :
  Forall (λ x, Forall (λ l, handler_ok readonly_handler l.2) (el_listeners x)) m →
  Forall input_wf tr0 → Forall input_wf tr →
  let w := execs tr0 (initial_world t m p) in
  k < next_loc w → k ∉ live_cells w →
  hp (execs tr w) !! k = hp w !! k.
Proof.
  intros Hm Htr0 Htr w Hk Hnl.
  assert (tracker_ok w) as Hw.
  { apply tracker_ok_execs; [exact Htr0|by apply tracker_ok_initial]. }
  destruct (own_execs tr w Htr Hw) as (_ & _ & Hframe & _).
  by apply Hframe.
Qed.

Lemma tracker_writes_own_cells_only_witness :
  let w := execs [CallStart; Dispatch demo_click; CallProcessResults]
                 (initial_world 1000 [] demo_page) in
  hp (execs [Dispatch demo_click; Dispatch (mousemove 1 1); Fire 0; CallStop;
             CallStart] w) !! 2 = hp w !! 2.
Proof.
  apply (tracker_writes_own_cells_only 1000 [] demo_page
           [CallStart; Dispatch demo_click; CallProcessResults]
           [Dispatch demo_click; Dispatch (mousemove 1 1); Fire 0; CallStop;
            CallStart] 2).
  - constructor.
  - repeat constructor.
  - repeat constructor.
  - vm_compute. lia.
  - vm_compute. set_unfold. lia.
Defined.

(** X12. With [clearAfterProcess] on, the snapshot a flush hands to the
    consumer is final once the flush has returned: the buffer was replaced
    by new objects, and whatever events, timer firings and calls follow
    (with callbacks that do not write the heap), the object the consumer
    was given keeps showing what it showed when it was delivered. *)
Theorem cleared_snapshot_is_stable (t : Z) (m : list mediaEl) (p : page)
    (tr0 tr : list input) (v : view) :
  Forall (λ x, Forall (λ l, handler_ok readonly_handler l.2) (el_listeners x)) m →
  Forall input_wf tr0 → Forall input_wf tr →
  let w := execs tr0 (initial_world t m p) in
  read_live w = Some v →
  Config.clearAfterProcess (config (st w)) = true →
  quiet (Config.processData (config (st w))) →
  let w1 := exec CallProcessResults w in
  let snap := next_loc w in
  delivered w1 =
    delivered w ++
      [mkDelivery (consumer_id (Config.processData (config (st w)))) snap
                  (Some (flushed_view w v))] ∧
  read_view (hp w1) snap = Some (flushed_view w v) ∧
  read_view (hp (execs tr w1)) snap = Some (flushed_view w v).
Proof.
  intros Hm Htr0 Htr w Hv Hclear Hq w1 snap.
  assert (tracker_ok w) as Hw.
  { apply tracker_ok_execs; [exact Htr0|by apply tracker_ok_initial]. }
  pose proof Hw as (Hok & _).
  destruct (processResults_registry w v Hok Hv) as (_ & Hd & _).
  split; [exact Hd|].
  pose proof Hv as Hv0. apply read_live_Some in Hv0 as (l & r & Hl & Hr & Hf).
  destruct (at_consumer_ok w l r v Hw Hl Hr Hf) as (Hw2 & Hl2 & Hsnap & Hrun).
  set (w2 := at_consumer w r v) in *.
  rewrite Hq, set_hp_same in Hrun.
  destruct (clear_step_fresh w2 Hw2) as (w' & Hclr & Hn & Hlow & Hfresh);
    [by rewrite Hl2|done|].
  assert (w1 = w') as ->.
  { unfold w1, exec. cbn [step]. by rewrite Hrun, Hclr. }
  assert (∀ k, k ∈ footprint (hp w2) snap → k < next_loc w2) as Hbelow.
  { intros k Hk. pose proof Hw2 as (Hok2 & _).
    pose proof (footprint_below w2 snap _ Hok2 Hsnap) as Hfb.
    by eapply Forall_forall in Hfb. }
  assert (read_view (hp w') snap = Some (flushed_view w v)) as Hsnap'.
  { rewrite <- Hsnap. apply read_view_agree. intros k Hk. by apply Hlow, Hbelow. }
  split; [exact Hsnap'|].
  assert (tracker_ok w') as Hw'.
  { pose proof (tracker_ok_clear_step w2 Hw2) as H. by rewrite Hclr in H. }
  destruct (own_execs tr w' Htr Hw') as (_ & Hown).
  apply (writes_own_view w' _ snap _ Hown Hsnap').
  intros k Hk.
  rewrite (footprint_agree (hp w2) (hp w') snap) in Hk
    by (intros k' Hk'; by apply Hlow, Hbelow).
  specialize (Hbelow k Hk). split; [lia|].
  intros Hin. specialize (Hfresh k Hin). lia.
Qed.

Lemma cleared_snapshot_is_stable_witness :
  let w := execs [CallStart; Dispatch demo_click]
                 (initial_world 1000 [] demo_page) in
  let v := click_view [JNum 10; JNum 20;
                       JStr "html > body > div#main > button.btn.primary#go";
                       JNum 1000] (started_view demo_idle) in
  let w1 := exec CallProcessResults w in
  delivered w1 =
    delivered w ++ [mkDelivery 0 15 (Some (flushed_view w v))] ∧
  read_view (hp w1) 15 = Some (flushed_view w v) ∧
  read_view (hp (execs [Dispatch demo_click; Dispatch (mousemove 1 1); Fire 0;
                        CallProcessResults; CallStop] w1)) 15 =
    Some (flushed_view w v).
Proof.
  apply (cleared_snapshot_is_stable 1000 [] demo_page
           [CallStart; Dispatch demo_click]
           [Dispatch demo_click; Dispatch (mousemove 1 1); Fire 0;
            CallProcessResults; CallStop]).
  - constructor.
  - repeat constructor.
  - repeat constructor.
  - vm_compute. reflexivity.
  - reflexivity.
  - intros l h. reflexivity.
Defined.



(** ** The history entry points *)

(** X14. The history entry points are never wrapped twice.  In every
    state reached since the script was loaded, the saved entry points are
    the native ones; while no session is running [history.pushState] and
    [history.replaceState] are the native ones, and a call by the page
    dispatches nothing; otherwise each is the native one or one proxy
    around it, and a call through the proxy dispatches the event of the
    entry point once and then [locationchange] once. *)
Theorem history_patch_never_nests (t : Z) (m : list mediaEl) (p : page)
    (tr : list input) :
  let w := execs tr (initial_world t m p) in
  let current := (history_pushState (hst w), history_replaceState (hst w)) in
  originalHistoryMethods (st w) = native_history ∧
  (active (st w) = false → current = native_history) ∧
  ((current = native_history ∧
    step PushState w = Ok tt w ∧ step ReplaceState w = Ok tt w) ∨
   (current = patched_history ∧
    step PushState w =
      (run dispatchEvent (plain_event "pushstate");
       dispatchEvent (plain_event "locationchange")) w ∧
    step ReplaceState w =
      (run dispatchEvent (plain_event "replacestate");
       dispatchEvent (plain_event "locationchange")) w)).
Proof.
  intros w current.
  assert (history_ok w) as (Ho & Hh & Ha).
  { apply history_ok_execs. split; [reflexivity|].
    split; [by left|reflexivity]. }
  split; [exact Ho|]. split; [exact Ha|].
  assert (step PushState w = call_history (history_pushState (hst w)) w)
    as -> by reflexivity.
  assert (step ReplaceState w = call_history (history_replaceState (hst w)) w)
    as -> by reflexivity.
  destruct Hh as [Hh|Hh]; [left|right]; (split; [exact Hh|]);
    unfold native_history, patched_history in Hh; injection Hh as -> ->;
    by split.
Qed.

(** ** Custom events *)

(** X15. Registering a custom event and firing it.  On a whole buffer,
    with [customEventRegistration] on and no listener attached yet for the
    event name, [registerCustomEvent(name, handler)] followed by one event
    of that name appends exactly the record [name, detail, timestamp] to
    [customEvents] and changes no other part of the buffer, whether the
    handler (which does not write the heap) returns or raises; when it
    returns, no error reaches the host.  With [customEventRegistration]
    off, [registerCustomEvent] does nothing. *)
Theorem custom_event_is_recorded (w : world) (v : view) (n : string)
    (u : userHandler) (d : jsval) :
  whole w v → readonly_handler u →
  (∀ l, l ∈ window_listeners (hst w) → l_type l ≠ n) →
  let w1 := exec (CallRegisterCustomEvent n u) w in
  let w2 := exec (Dispatch (custom_event n d)) w1 in
  if Config.customEventRegistration (config (st w)) then
    whole w2 (append_field FCustomEvents [JStr n; d; JNum (now (hst w))] v) ∧
    ((∀ e h, uh_run u e h = CbReturn h) → uncaught w2 = uncaught w)
  else w1 = w ∧ w2 = w.
Proof.
  intros Hv Hu Hnone w1 w2.
  assert (filter (λ l, l_type l = n) (window_listeners (hst w)) = []) as Hfil.
  { apply filter_none. apply Forall_forall. intros l Hl. by apply Hnone. }
  set (h := mkHandler (next_fn (hst w)) (HCustom n u)).
  assert (existsb (same_listener n h (capture_of None))
                  (window_listeners (hst w)) = false) as Hex.
  { apply not_true_is_false. intros Hex. apply existsb_exists in Hex as (l & Hl & Hs).
    apply same_listener_true in Hs as (Ht & _).
    apply (Hnone l); [by apply list_elem_of_In|done]. }
  destruct (Config.customEventRegistration (config (st w))) eqn:Hflag.
  - assert (hp w1 = hp w ∧ next_loc w1 = next_loc w ∧
            results (st w1) = results (st w) ∧ now (hst w1) = now (hst w) ∧
            uncaught w1 = uncaught w ∧
            window_listeners (hst w1) =
              window_listeners (hst w) ++ [mkWL n h false])
      as (Hhp & Hnl & Hres & Hnow & Hunc1 & Hwl).
    { unfold w1, exec. cbn [step]. unfold registerCustomEvent, bind. mred.
      rewrite Hflag. cbn [negb].
      unfold fresh_fn, addEventListener, listeners_set. mred. fold h.
      rewrite Hex. by cbn. }
    clearbody w1.
    assert (whole w1 v) as Hv1.
    { destruct Hv as (l & Hl & Hvl & Hnd). exists l. by rewrite Hres, Hhp. }
    destruct (whole_push_field w1 v FCustomEvents
                [JStr n; d; JNum (now (hst w))] Hv1)
      as (w' & Hrun & Hw' & Hst & Hhst & Hd & Hunc).
    cbn [field_loc] in Hrun.
    assert (w2 = after (host_call (run_handler h (custom_event n d)) w1)) as ->.
    { unfold w2, exec. cbn [step]. unfold dispatchEvent. unfold bind at 1. mred.
      cbn [custom_event e_type]. rewrite Hwl, filter_app, Hfil.
      rewrite filter_cons_True by done. rewrite filter_nil. cbn [app forEach].
      unfold bind. by destruct (host_call _ w1). }
    unfold host_call, run_handler, bind. cbn [h h_code]. mred.
    change (detail (custom_event n d)) with d.
    rewrite Hnow, Hrun. unfold call_userHandler.
    destruct (Hu (custom_event n d) (hp w')) as [Hret|Hthr].
    + rewrite Hret. mred. cbn [after].
      split; [by rewrite world_eta|]. intros _. by rewrite Hunc.
    + rewrite Hthr. mred. cbn [after]. split.
      * destruct Hw' as (l & Hl & Hvl & Hnd). by exists l.
      * intros Hq. rewrite Hq in Hthr. done.
  - assert (w1 = w) as Hw1.
    { unfold w1, exec. cbn [step]. unfold registerCustomEvent, bind. mred.
      by rewrite Hflag. }
    split; [exact Hw1|]. unfold w2. rewrite Hw1.
    unfold exec. cbn [step]. unfold dispatchEvent, bind. mred.
    cbn [custom_event e_type]. by rewrite Hfil.
Qed.

Lemma custom_event_is_recorded_witness :
  let w1 := exec (CallRegisterCustomEvent "ping" quiet_handler) demo_started in
  let w2 := exec (Dispatch (custom_event "ping" (JNum 7))) w1 in
  whole w2 (append_field FCustomEvents [JStr "ping"; JNum 7; JNum 1000]
              (started_view demo_idle)) ∧
  ((∀ e h, uh_run quiet_handler e h = CbReturn h) →
   uncaught w2 = uncaught demo_started).
Proof.
  apply (custom_event_is_recorded demo_started (started_view demo_idle) "ping"
           quiet_handler (JNum 7)).
  - exists 14. split; [reflexivity|]. split; [vm_compute; reflexivity|].
    vm_compute. repeat constructor; set_unfold; lia.
  - intros e h. by left.
  - intros l Hl. vm_compute in Hl. set_unfold.
    repeat (destruct Hl as [-> | Hl]; [discriminate|]). done.
Defined.
